(** * Jigsaw puzzle game: the puzzle state machine

    A shallow embedding of the game logic of [src/app.py] (class
    [PuzzlePiece], class [JigsawPuzzleGame] and the Flask routes) and of
    the drag gesture of [src/jigsaw_puzzle.py] (class [JigsawPuzzle]),
    whose level, scoring, scramble and hint methods are textually those of
    [JigsawPuzzleGame].

    Conventions of the embedding
    - Python [int] is [Z]; [//] on integers is [Z.div] (both floor).
    - [time.time()] is a rational number of seconds ([Q]);
      [datetime.now()] is an integer number of microseconds ([Z]), the
      resolution of [datetime], so [timedelta(hours=2)] is [7200000000].
    - Every clock reading and every random draw made while a request or
      an event is served is an explicit input (record [Env]).
    - The level index is a [nat]: it only ever holds [0], the result of
      [+= 1], or a value read back from the saved snapshot of those.
    - Coordinates are integers, as the ones the scramble produces.
    - An uncaught [IndexError] is a result of its own ([result]); the
      state keeps what was written before it was raised.
    - The drawing code (PIL and pygame images, base64) is not modelled; a
      piece's [image_section] is the crop box it was cut from. *)

From Stdlib Require Import ZArith QArith Qround List Bool String Lia Permutation Arith.
Import ListNotations.

Local Open Scope Z_scope.

(** ** Python helpers *)

(** [range(n)] for an integer [n]: empty when [n <= 0]. *)
Definition range (n : Z) : list Z := map Z.of_nat (seq 0 (Z.to_nat n)).

(** ** Level descriptors: [PuzzleLevel] and [create_levels] *)

Record PuzzleLevel := mkLevel {
  name : string;
  image_url : string;
  description : string;
  difficulty : Z;
  grid_size : Z * Z;
  points : Z
}.

Definition create_levels : list PuzzleLevel :=
  [ mkLevel "Cute Cat" "cat" "Adorable orange tabby cat" 1 (3, 2) 100;
    mkLevel "Mona Lisa" "monalisa" "Leonardo da Vinci's masterpiece" 2 (4, 3) 200;
    mkLevel "Starry Night" "starry_night" "Van Gogh's swirling sky" 3 (4, 3) 300;
    mkLevel "Sunflowers" "sunflower" "Bright yellow sunflower field" 2 (3, 3) 250;
    mkLevel "Mountain Lake" "landscape" "Serene mountain reflection" 3 (5, 3) 350;
    mkLevel "Abstract Art" "abstract" "Colorful geometric patterns" 4 (4, 4) 400;
    mkLevel "City Skyline" "city" "Modern urban landscape" 4 (5, 4) 450;
    mkLevel "Ocean Waves" "ocean" "Crashing ocean waves" 5 (6, 4) 500 ].

(** ** Pieces: class [PuzzlePiece] *)

Record PuzzlePiece := mkPiece {
  x : Z;
  y : Z;
  width : Z;
  height : Z;
  image_section : Z * Z * Z * Z;
  correct_x : Z;
  correct_y : Z;
  piece_id : Z;
  is_placed : bool;
  dragging : bool;
  hint_revealed : bool;
  rotation : Z
}.

(** [PuzzlePiece.__init__] *)
Definition new_piece (x0 y0 w h : Z) (img : Z * Z * Z * Z) (cx cy id : Z)
  : PuzzlePiece :=
  mkPiece x0 y0 w h img cx cy id false false false 0.

Definition set_xy (p : PuzzlePiece) (x' y' : Z) : PuzzlePiece :=
  mkPiece x' y' (width p) (height p) (image_section p) (correct_x p)
          (correct_y p) (piece_id p) (is_placed p) (dragging p)
          (hint_revealed p) (rotation p).

Definition set_is_placed (p : PuzzlePiece) (b : bool) : PuzzlePiece :=
  mkPiece (x p) (y p) (width p) (height p) (image_section p) (correct_x p)
          (correct_y p) (piece_id p) b (dragging p)
          (hint_revealed p) (rotation p).

Definition set_hint_revealed (p : PuzzlePiece) (b : bool) : PuzzlePiece :=
  mkPiece (x p) (y p) (width p) (height p) (image_section p) (correct_x p)
          (correct_y p) (piece_id p) (is_placed p) (dragging p)
          b (rotation p).

(** [PuzzlePiece.contains_point] *)
Definition contains_point (p : PuzzlePiece) (px py : Z) : bool :=
  (x p <=? px) && (px <=? x p + width p) &&
  ((y p <=? py) && (py <=? y p + height p)).

(** [PuzzlePiece.is_near_correct_position], with its default tolerance. *)
Definition is_near_correct_position_tol (p : PuzzlePiece) (tolerance : Z) : bool :=
  (Z.abs (x p - correct_x p) <? tolerance) &&
  (Z.abs (y p - correct_y p) <? tolerance).

Definition is_near_correct_position (p : PuzzlePiece) : bool :=
  is_near_correct_position_tol p 30.

(** ** The game object: class [JigsawPuzzleGame] *)

(** Attributes that [__init__] sets once and nothing reassigns. *)
Definition screen_width : Z := 1200.
Definition screen_height : Z := 800.
Definition puzzle_width : Z := 600.
Definition puzzle_height : Z := 450.
Definition puzzle_x : Z := 50.
Definition puzzle_y : Z := 100.
Definition pieces_area_x : Z := 700.
Definition pieces_area_y : Z := 100.
Definition levels : list PuzzleLevel := create_levels.

(** The attributes that change.  [original_image] is the theme the full
    image was generated from; the grid attributes are [0] before the
    first [load_level]. *)
Record Game := mkGame {
  current_level : nat;
  total_score : Z;
  level_start_time : option Q;
  puzzle_complete : bool;
  grid_cols : Z;
  grid_rows : Z;
  piece_width : Z;
  piece_height : Z;
  original_image : option string;
  pieces : list PuzzlePiece;
  last_hint_time : option Z;
  hints_used : Z
}.

(** The Flask session: what [save_progress] writes and [load_progress]
    reads.  A key that was never written is [None]. *)
Record Session := mkSession {
  s_hints_used : option Z;
  s_current_level : option nat;
  s_total_score : option Z;
  s_last_hint_time : option Z
}.

Definition empty_session : Session := mkSession None None None None.

(** The random draws of one [scramble_pieces] call: the [randint] pair of
    each candidate cell (in generation order), the outcome of
    [random.shuffle] on a list of a given length as the list of source
    indices, and the [randint] pair of each piece (by its index in
    [pieces]). *)
Record ScrambleRandom := mkScrambleRandom {
  cell_jitter : nat -> Z * Z;
  shuffle_perm : nat -> list nat;
  piece_jitter : nat -> Z * Z
}.

(** ** [create_pieces] *)

Definition grid_cells (rows cols : Z) : list (Z * Z) :=
  flat_map (fun row => map (fun col => (row, col)) (range cols)) (range rows).

Fixpoint create_pieces_from (pw ph : Z) (cells : list (Z * Z)) (next_id : Z)
  : list PuzzlePiece :=
  match cells with
  | [] => []
  | (row, col) :: rest =>
      let left := col * pw in
      let top := row * ph in
      let right := left + pw in
      let bottom := top + ph in
      let cx := puzzle_x + col * pw in
      let cy := puzzle_y + row * ph in
      new_piece 0 0 pw ph (left, top, right, bottom) cx cy next_id
        :: create_pieces_from pw ph rest (next_id + 1)
  end.

(** Appends one piece per grid cell, row by row, to [self.pieces]. *)
Definition create_pieces (g : Game) : list PuzzlePiece :=
  pieces g ++
  create_pieces_from (piece_width g) (piece_height g)
                     (grid_cells (grid_rows g) (grid_cols g)) 0.

(** ** [scramble_pieces] *)

Fixpoint positions_from (pw ph : Z) (jit : nat -> Z * Z) (cells : list (Z * Z))
         (k : nat) : list (Z * Z) :=
  match cells with
  | [] => []
  | (row, col) :: rest =>
      (pieces_area_x + col * (pw + 15) + fst (jit k),
       pieces_area_y + row * (ph + 15) + snd (jit k))
        :: positions_from pw ph jit rest (S k)
  end.

(** The candidate grid: 4 columns, [ceil(len/4) + 2] rows. *)
Definition tray_rows (n : Z) : Z := (n + 4 - 1) / 4.

Definition available_positions (pw ph n : Z) (jit : nat -> Z * Z) : list (Z * Z) :=
  positions_from pw ph jit (grid_cells (tray_rows n + 2) 4) 0.

(** [random.shuffle]: entry [i] of the shuffled list is entry
    [shuffle_perm[i]] of the list before. *)
Definition shuffled (perm : list nat) (l : list (Z * Z)) : list (Z * Z) :=
  map (fun k => nth k l (0, 0)) perm.

Definition clamp_x (p : PuzzlePiece) (v : Z) : Z :=
  Z.max (pieces_area_x - 50) (Z.min (screen_width - width p) v).

Definition clamp_y (p : PuzzlePiece) (v : Z) : Z :=
  Z.max 50 (Z.min (screen_height - height p - 100) v).

Definition scatter (p : PuzzlePiece) (pos jit : Z * Z) : PuzzlePiece :=
  set_xy p (clamp_x p (fst pos + fst jit)) (clamp_y p (snd pos + snd jit)).

Fixpoint assign_positions (avail : list (Z * Z)) (jit : nat -> Z * Z)
         (i : nat) (ps : list PuzzlePiece) : list PuzzlePiece :=
  match ps with
  | [] => []
  | p :: rest =>
      (if negb (is_placed p) && (i <? List.length avail)%nat
       then scatter p (nth i avail (0, 0)) (jit i)
       else p) :: assign_positions avail jit (S i) rest
  end.

Definition scramble_list (pw ph : Z) (r : ScrambleRandom) (ps : list PuzzlePiece)
  : list PuzzlePiece :=
  let avail := available_positions pw ph (Z.of_nat (List.length ps)) (cell_jitter r) in
  assign_positions (shuffled (shuffle_perm r (List.length avail)) avail)
                   (piece_jitter r) 0 ps.

(** The draws are outcomes of the calls the code makes: [randint] stays in
    its interval and [shuffle] permutes. *)
Definition in_range (lo hi v : Z) : Prop := lo <= v <= hi.

Definition valid_random (r : ScrambleRandom) : Prop :=
  (forall k, in_range (-20) 20 (fst (cell_jitter r k)) /\
             in_range (-10) 10 (snd (cell_jitter r k))) /\
  (forall len, Permutation (shuffle_perm r len) (seq 0 len)) /\
  (forall i, in_range (-30) 30 (fst (piece_jitter r i)) /\
             in_range (-20) 20 (snd (piece_jitter r i))).

(** ** Attribute updates of the game object *)

Definition set_pieces (g : Game) (ps : list PuzzlePiece) : Game :=
  mkGame (current_level g) (total_score g) (level_start_time g)
         (puzzle_complete g) (grid_cols g) (grid_rows g) (piece_width g)
         (piece_height g) (original_image g) ps (last_hint_time g)
         (hints_used g).

Definition set_current_level (g : Game) (n : nat) : Game :=
  mkGame n (total_score g) (level_start_time g)
         (puzzle_complete g) (grid_cols g) (grid_rows g) (piece_width g)
         (piece_height g) (original_image g) (pieces g) (last_hint_time g)
         (hints_used g).

Definition set_hints_used (g : Game) (h : Z) : Game :=
  mkGame (current_level g) (total_score g) (level_start_time g)
         (puzzle_complete g) (grid_cols g) (grid_rows g) (piece_width g)
         (piece_height g) (original_image g) (pieces g) (last_hint_time g) h.

Definition set_last_hint_time (g : Game) (t : option Z) : Game :=
  mkGame (current_level g) (total_score g) (level_start_time g)
         (puzzle_complete g) (grid_cols g) (grid_rows g) (piece_width g)
         (piece_height g) (original_image g) (pieces g) t (hints_used g).

Definition set_total_score (g : Game) (s : Z) : Game :=
  mkGame (current_level g) s (level_start_time g)
         (puzzle_complete g) (grid_cols g) (grid_rows g) (piece_width g)
         (piece_height g) (original_image g) (pieces g) (last_hint_time g)
         (hints_used g).

Definition set_puzzle_complete (g : Game) (b : bool) : Game :=
  mkGame (current_level g) (total_score g) (level_start_time g)
         b (grid_cols g) (grid_rows g) (piece_width g)
         (piece_height g) (original_image g) (pieces g) (last_hint_time g)
         (hints_used g).

(** [scramble_pieces] as a method: the pieces are moved in place. *)
Definition scramble_pieces (g : Game) (r : ScrambleRandom) : Game :=
  set_pieces g (scramble_list (piece_width g) (piece_height g) r (pieces g)).

(** ** [load_level] *)

(** [nth_error] is [None] exactly when [level_index >= len(self.levels)],
    the case in which the method returns [False] at once. *)
Definition load_level (g : Game) (level_index : nat) (now : Q)
           (r : ScrambleRandom) : bool * Game :=
  match nth_error levels level_index with
  | None => (false, g)
  | Some level =>
      let (cols, rows) := grid_size level in
      let g1 := mkGame (current_level g) (total_score g) (Some now) false
                       cols rows (puzzle_width / cols) (puzzle_height / rows)
                       (Some (image_url level)) [] (last_hint_time g)
                       (hints_used g) in
      let g2 := set_pieces g1 (create_pieces g1) in
      (true, scramble_pieces g2 r)
  end.

(** ** Scoring *)

(** An uncaught Python exception; the only one the game logic can raise
    is the [IndexError] of [self.levels[self.current_level]]. *)
Inductive result (A : Type) : Type :=
| Ok (a : A)
| Raise_IndexError.
Arguments Ok {A} a.
Arguments Raise_IndexError {A}.

(** [not self.level_start_time]: [None] and [0.0] are both falsy. *)
Definition start_time_unset (t : option Q) : bool :=
  match t with
  | None => true
  | Some t0 => Qeq_bool t0 0
  end.

Definition calculate_level_score (g : Game) (now : Q) : result Z :=
  match level_start_time g with
  | None => Ok 0
  | Some t0 =>
      if Qeq_bool t0 0 then Ok 0
      else
        match nth_error levels (current_level g) with
        | None => Raise_IndexError
        | Some level =>
            let time_taken := (now - t0)%Q in
            let base_score := points level in
            let time_bonus :=
              Z.max 0 (base_score / 2 - Qfloor (time_taken / 10)) in
            let hint_penalty := hints_used g * 20 in
            let final_score :=
              Z.max 50 (base_score + time_bonus - hint_penalty) in
            Ok final_score
        end
  end.

(** ** Progress snapshot: [save_progress] and [load_progress] *)

Definition save_progress (g : Game) (s : Session) : Session :=
  mkSession (Some (hints_used g)) (Some (current_level g))
            (Some (total_score g))
            (match last_hint_time g with
             | Some t => Some t
             | None => s_last_hint_time s
             end).

Definition or_default {A : Type} (o : option A) (d : A) : A :=
  match o with Some a => a | None => d end.

Definition load_progress (g : Game) (s : Session) : Game :=
  mkGame (or_default (s_current_level s) 0%nat)
         (or_default (s_total_score s) 0)
         (level_start_time g) (puzzle_complete g) (grid_cols g)
         (grid_rows g) (piece_width g) (piece_height g) (original_image g)
         (pieces g) (s_last_hint_time s) (or_default (s_hints_used s) 0).

(** ** [complete_level] and the method [next_level] *)

Definition complete_level (g : Game) (s : Session) (now : Q)
  : result Z * Game * Session :=
  match calculate_level_score g now with
  | Raise_IndexError => (Raise_IndexError, g, s)
  | Ok level_score =>
      let g1 := set_total_score g (total_score g + level_score) in
      let g2 := set_puzzle_complete g1 true in
      (Ok level_score, g2, save_progress g2 s)
  end.

Definition next_level (g : Game) (now : Q) (r : ScrambleRandom) : bool * Game :=
  if (current_level g <? List.length levels - 1)%nat then
    let g1 := set_current_level g (current_level g + 1)%nat in
    let g2 := set_hints_used g1 0 in
    let (ok, g3) := load_level g2 (current_level g2) now r in
    if ok then (true, g3) else (false, g3)
  else (false, g).

(** ** Hints: [can_use_hint] and [use_hint] *)

(** [timedelta(hours=2)] in microseconds. *)
Definition hint_cooldown : Z := 2 * 3600 * 1000000.

Definition can_use_hint (g : Game) (now : Z) : bool :=
  match last_hint_time g with
  | None => true
  | Some t => hint_cooldown <=? now - t
  end.

Definition hint_eligible (p : PuzzlePiece) : bool :=
  negb (hint_revealed p) && negb (is_placed p).

(** [piece.hint_revealed = True] on the [k]-th element of the
    comprehension, which is the [k]-th eligible piece of [pieces]. *)
Fixpoint reveal_kth (k : nat) (ps : list PuzzlePiece) : list PuzzlePiece :=
  match ps with
  | [] => []
  | p :: rest =>
      if hint_eligible p then
        match k with
        | O => set_hint_revealed p true :: rest
        | S k' => p :: reveal_kth k' rest
        end
      else p :: reveal_kth k rest
  end.

(** [use_hint]: [now_check] is the clock reading of [can_use_hint],
    [now_stamp] the one stored, [choice] the draw of [random.choice]. *)
Definition use_hint (g : Game) (s : Session) (now_check now_stamp : Z)
           (choice : nat) : bool * Game * Session :=
  if negb (can_use_hint g now_check) then (false, g, s)
  else
    let unrevealed_pieces := filter hint_eligible (pieces g) in
    match unrevealed_pieces with
    | [] => (false, g, s)
    | _ :: _ =>
        let k := (choice mod List.length unrevealed_pieces)%nat in
        let g1 := set_pieces g (reveal_kth k (pieces g)) in
        let g2 := set_hints_used g1 (hints_used g1 + 1) in
        let g3 := set_last_hint_time g2 (Some now_stamp) in
        (true, g3, save_progress g3 s)
    end.

(** ** [get_game_state]: the snapshot sent with every response *)

Record Snapshot := mkSnapshot {
  snap_pieces : list PuzzlePiece;
  snap_current_level : nat;
  snap_level_info : PuzzleLevel;
  snap_total_score : Z;
  snap_puzzle_complete : bool;
  snap_hints_used : Z;
  snap_can_use_hint : bool;
  snap_original_image : option string;
  snap_puzzle_dimensions : Z * Z * Z * Z;
  snap_pieces_area : Z * Z
}.

Definition get_game_state (g : Game) (now : Z) : result Snapshot :=
  match nth_error levels (current_level g) with
  | None => Raise_IndexError
  | Some level =>
      Ok (mkSnapshot (pieces g) (current_level g) level (total_score g)
                     (puzzle_complete g) (hints_used g) (can_use_hint g now)
                     (original_image g)
                     (puzzle_width, puzzle_height, puzzle_x, puzzle_y)
                     (pieces_area_x, pieces_area_y))
  end.

(** ** The server: the global [game] and the session *)

Record World := mkWorld {
  game : option Game;
  session : Session
}.

Definition initial_world : World := mkWorld None empty_session.

(** What one request reads from outside: the [time.time()] reading, the
    [datetime.now()] readings of [can_use_hint] inside [use_hint], of the
    stamp in [use_hint] and of [get_game_state], and the random draws. *)
Record Env := mkEnv {
  time_now : Q;
  dt_check : Z;
  dt_stamp : Z;
  dt_snapshot : Z;
  scramble_random : ScrambleRandom;
  hint_choice : nat
}.

(** [JigsawPuzzleGame()] *)
Definition new_game (s : Session) (e : Env) : Game :=
  let g0 := mkGame 0%nat 0 None false 0 0 0 0 None [] None 0 in
  let g1 := load_progress g0 s in
  snd (load_level g1 (current_level g1) (time_now e) (scramble_random e)).

Inductive Request :=
| GetGameState
| MovePiece (piece_id x y : option Z)
| UseHint
| NextLevel
| ResetGame.

Inductive Response :=
| RespError (status : Z) (error : string)
| RespUncaught
| RespState (game_state : Snapshot)
| RespMove (success : bool) (piece_placed puzzle_complete_flag : option bool)
           (level_score : option Z) (game_state : Snapshot)
| RespHint (success : bool) (message : string) (game_state : Snapshot)
| RespOk (success : bool) (game_state : Snapshot).

(** [jsonify({..., 'game_state': game.get_game_state()})] *)
Definition respond (g : Game) (s : Session) (e : Env)
           (body : Snapshot -> Response) : Response * World :=
  match get_game_state g (dt_snapshot e) with
  | Ok snap => (body snap, mkWorld (Some g) s)
  | Raise_IndexError => (RespUncaught, mkWorld (Some g) s)
  end.

(** Route [/api/game_state] *)
Definition route_game_state (e : Env) (w : World) : Response * World :=
  let g := match game w with
           | None => new_game (session w) e
           | Some g => g
           end in
  respond g (session w) e RespState.

(** The loop of route [/api/move_piece]: the first piece with the given
    id that is not placed is moved, and snapped when near its target. *)
Inductive MoveOutcome := NoMatch | Moved | Snapped.

Fixpoint move_loop (id x' y' : Z) (ps : list PuzzlePiece)
  : list PuzzlePiece * MoveOutcome :=
  match ps with
  | [] => ([], NoMatch)
  | p :: rest =>
      if (piece_id p =? id) && negb (is_placed p) then
        let p1 := set_xy p x' y' in
        if is_near_correct_position p1 then
          (set_is_placed (set_xy p1 (correct_x p1) (correct_y p1)) true :: rest,
           Snapped)
        else (p1 :: rest, Moved)
      else
        let (rest', o) := move_loop id x' y' rest in
        (p :: rest', o)
  end.

(** Route [/api/move_piece] *)
Definition route_move_piece (e : Env) (piece_id x y : option Z) (w : World)
  : Response * World :=
  match game w with
  | None => (RespError 400 "Game not initialized", w)
  | Some g =>
      match piece_id, x, y with
      | Some id, Some x', Some y' =>
          let (ps, o) := move_loop id x' y' (pieces g) in
          let g1 := set_pieces g ps in
          match o with
          | Snapped =>
              if forallb is_placed (pieces g1) then
                match complete_level g1 (session w) (time_now e) with
                | (Ok level_score, g2, s2) =>
                    respond g2 s2 e
                      (RespMove true (Some true) (Some true) (Some level_score))
                | (Raise_IndexError, g2, s2) =>
                    (RespUncaught, mkWorld (Some g2) s2)
                end
              else
                respond g1 (session w) e
                  (RespMove true (Some true) (Some false) None)
          | _ => respond g1 (session w) e (RespMove true None None None)
          end
      | _, _, _ => (RespError 400 "Invalid data", w)
      end
  end.

(** Route [/api/use_hint] *)
Definition route_use_hint (e : Env) (w : World) : Response * World :=
  match game w with
  | None => (RespError 400 "Game not initialized", w)
  | Some g =>
      match use_hint g (session w) (dt_check e) (dt_stamp e) (hint_choice e) with
      | (true, g1, s1) => respond g1 s1 e (RespHint true "Hint revealed!")
      | (false, g1, s1) =>
          respond g1 s1 e (RespHint false "Hint not available yet!")
      end
  end.

(** Route [/api/next_level] *)
Definition route_next_level (e : Env) (w : World) : Response * World :=
  match game w with
  | None => (RespError 400 "Game not initialized", w)
  | Some g =>
      if puzzle_complete g then
        let g1 :=
          if (current_level g <? List.length levels - 1)%nat then
            snd (next_level g (time_now e) (scramble_random e))
          else
            let g0 := set_current_level g 0%nat in
            snd (load_level g0 (current_level g0) (time_now e)
                            (scramble_random e)) in
        respond g1 (session w) e (RespOk true)
      else (RespError 400 "Level not complete", w)
  end.

(** Route [/api/reset_game] *)
Definition route_reset_game (e : Env) (w : World) : Response * World :=
  respond (new_game (session w) e) (session w) e (RespOk true).

Definition handle (e : Env) (r : Request) (w : World) : Response * World :=
  match r with
  | GetGameState => route_game_state e w
  | MovePiece piece_id x y => route_move_piece e piece_id x y w
  | UseHint => route_use_hint e w
  | NextLevel => route_next_level e w
  | ResetGame => route_reset_game e w
  end.

(** The states the server can be in: those reached from a fresh process
    and a fresh session by serving requests, each with clock readings and
    random draws the libraries can return. *)
Inductive reachable : World -> Prop :=
| reachable_init : reachable initial_world
| reachable_step (w : World) (e : Env) (r : Request) :
    reachable w -> valid_random (scramble_random e) ->
    reachable (snd (handle e r w)).

(** ** The desktop game: class [JigsawPuzzle] of [jigsaw_puzzle.py]

    Its level, score and hint methods are those of [JigsawPuzzleGame]
    line for line, so the definitions above stand for both; the save file
    is only read when the object is built and is left out of the state.
    The class adds the drag gesture.  [selected_piece] is a reference to a
    piece object: either the object at some index of [pieces], or an
    object that [load_level] has dropped from the list. *)

Inductive Selection :=
| Unselected
| Selected (index : nat)
| Detached (piece : PuzzlePiece).

Record JigsawPuzzle := mkPuzzle {
  core : Game;
  selected_piece : Selection;
  mouse_offset_x : Z;
  mouse_offset_y : Z
}.

Definition set_dragging (p : PuzzlePiece) (b : bool) : PuzzlePiece :=
  mkPiece (x p) (y p) (width p) (height p) (image_section p) (correct_x p)
          (correct_y p) (piece_id p) (is_placed p) b
          (hint_revealed p) (rotation p).

(** [pygame.Rect(left, top, w, h).collidepoint(pos)] *)
Definition collidepoint (rect : Z * Z * Z * Z) (pos : Z * Z) : bool :=
  let '(rx, ry, rw, rh) := rect in
  (rx <=? fst pos) && (fst pos <? rx + rw) &&
  ((ry <=? snd pos) && (snd pos <? ry + rh)).

Definition next_button_rect : Z * Z * Z * Z := (900, 600, 150, 50).
Definition hint_button_rect : Z * Z * Z * Z := (900, 550, 150, 40).

Definition replace_nth (i : nat) (p : PuzzlePiece) (ps : list PuzzlePiece)
  : list PuzzlePiece :=
  firstn i ps ++ p :: skipn (S i) ps.

Definition remove_nth (i : nat) (ps : list PuzzlePiece) : list PuzzlePiece :=
  firstn i ps ++ skipn (S i) ps.

(** The object [selected_piece] refers to, and an attribute update of it. *)
Definition selected_object (d : JigsawPuzzle) : option PuzzlePiece :=
  match selected_piece d with
  | Unselected => None
  | Selected i => nth_error (pieces (core d)) i
  | Detached p => Some p
  end.

Definition write_selected (d : JigsawPuzzle) (p' : PuzzlePiece) : JigsawPuzzle :=
  match selected_piece d with
  | Unselected => d
  | Selected i =>
      mkPuzzle (set_pieces (core d) (replace_nth i p' (pieces (core d))))
               (Selected i) (mouse_offset_x d) (mouse_offset_y d)
  | Detached _ =>
      mkPuzzle (core d) (Detached p') (mouse_offset_x d) (mouse_offset_y d)
  end.

Definition set_core (d : JigsawPuzzle) (g : Game) : JigsawPuzzle :=
  mkPuzzle g (selected_piece d) (mouse_offset_x d) (mouse_offset_y d).

(** When [load_level] rebinds [pieces], the selected object is no longer
    in the list. *)
Definition detach (sel : Selection) (old : list PuzzlePiece) : Selection :=
  match sel with
  | Selected i =>
      match nth_error old i with
      | Some p => Detached p
      | None => Unselected
      end
  | _ => sel
  end.

Definition reload (d : JigsawPuzzle) (loaded : bool * Game) : JigsawPuzzle :=
  let (ok, g) := loaded in
  mkPuzzle g
           (if ok then detach (selected_piece d) (pieces (core d))
            else selected_piece d)
           (mouse_offset_x d) (mouse_offset_y d).

(** The branch shared by the next button and the N key.  Under its
    condition [next_level] returns [True] exactly when its [load_level]
    rebinds [pieces]. *)
Definition advance_or_restart (e : Env) (d : JigsawPuzzle) : JigsawPuzzle :=
  if (current_level (core d) <? List.length levels - 1)%nat then
    reload d (next_level (core d) (time_now e) (scramble_random e))
  else
    let g0 := set_current_level (core d) 0%nat in
    reload d (load_level g0 (current_level g0) (time_now e) (scramble_random e)).

(** [complete_level] of the desktop class: no return value, the snapshot
    goes to the save file. *)
Definition desktop_complete_level (g : Game) (now : Q) : result Game :=
  match calculate_level_score g now with
  | Raise_IndexError => Raise_IndexError
  | Ok level_score =>
      Ok (set_puzzle_complete
            (set_total_score g (total_score g + level_score)) true)
  end.

Definition desktop_use_hint (e : Env) (d : JigsawPuzzle) : JigsawPuzzle :=
  set_core d (snd (fst (use_hint (core d) empty_session (dt_check e)
                                 (dt_stamp e) (hint_choice e)))).

Fixpoint find_index {A : Type} (f : A -> bool) (l : list A) : option nat :=
  match l with
  | [] => None
  | a :: rest => if f a then Some 0%nat else option_map S (find_index f rest)
  end.

(** The first piece, from the end of the list, under the point and not
    placed: the loop over [reversed(self.pieces)]. *)
Definition top_piece_at (pos : Z * Z) (ps : list PuzzlePiece) : option nat :=
  option_map (fun j => (List.length ps - 1 - j)%nat)
             (find_index (fun p => contains_point p (fst pos) (snd pos)
                                   && negb (is_placed p))
                         (rev ps)).

Definition handle_mouse_down (e : Env) (pos : Z * Z) (d : JigsawPuzzle)
  : JigsawPuzzle :=
  if puzzle_complete (core d) && collidepoint next_button_rect pos then
    advance_or_restart e d
  else if collidepoint hint_button_rect pos then
    desktop_use_hint e d
  else
    let ps := pieces (core d) in
    match top_piece_at pos ps with
    | None => d
    | Some i =>
        match nth_error ps i with
        | None => d
        | Some p =>
            mkPuzzle (set_pieces (core d)
                                 (remove_nth i ps ++ [set_dragging p true]))
                     (Selected (List.length ps - 1))
                     (fst pos - x p) (snd pos - y p)
        end
    end.

Definition release (d : JigsawPuzzle) : JigsawPuzzle :=
  match selected_object d with
  | None => d
  | Some p =>
      let d1 := write_selected d (set_dragging p false) in
      mkPuzzle (core d1) Unselected (mouse_offset_x d1) (mouse_offset_y d1)
  end.

Definition handle_mouse_up (e : Env) (pos : Z * Z) (d : JigsawPuzzle)
  : result JigsawPuzzle :=
  match selected_object d with
  | None => Ok d
  | Some p =>
      if is_near_correct_position p then
        let p1 := set_is_placed (set_xy p (correct_x p) (correct_y p)) true in
        let d1 := write_selected d p1 in
        if forallb is_placed (pieces (core d1)) then
          match desktop_complete_level (core d1) (time_now e) with
          | Raise_IndexError => Raise_IndexError
          | Ok g2 => Ok (release (set_core d1 g2))
          end
        else Ok (release d1)
      else Ok (release d)
  end.

Definition handle_mouse_motion (pos : Z * Z) (d : JigsawPuzzle) : JigsawPuzzle :=
  match selected_object d with
  | None => d
  | Some p =>
      if dragging p then
        write_selected d (set_xy p (fst pos - mouse_offset_x d)
                                 (snd pos - mouse_offset_y d))
      else d
  end.

(** The events of [run]; an uncaught exception ends the loop. *)
Inductive Event :=
| MouseButtonDown (pos : Z * Z)
| MouseButtonUp (pos : Z * Z)
| MouseMotion (pos : Z * Z)
| KeyH
| KeyN.

Definition dispatch (e : Env) (ev : Event) (d : JigsawPuzzle)
  : result JigsawPuzzle :=
  match ev with
  | MouseButtonDown pos => Ok (handle_mouse_down e pos d)
  | MouseButtonUp pos => handle_mouse_up e pos d
  | MouseMotion pos => Ok (handle_mouse_motion pos d)
  | KeyH => Ok (desktop_use_hint e d)
  | KeyN => if puzzle_complete (core d) then Ok (advance_or_restart e d)
            else Ok d
  end.

(** [JigsawPuzzle()]: [saved] is what [load_progress] finds in the file. *)
Definition desktop_start (saved : Session) (e : Env) : JigsawPuzzle :=
  mkPuzzle (new_game saved e) Unselected 0 0.

Inductive desktop_reachable : JigsawPuzzle -> Prop :=
| desktop_reachable_start (saved : Session) (e : Env) :
    desktop_reachable (desktop_start saved e)
| desktop_reachable_step (d d' : JigsawPuzzle) (e : Env) (ev : Event) :
    desktop_reachable d -> dispatch e ev d = Ok d' -> desktop_reachable d'.

(** Events that do not load a level. *)
Definition event_stays_in_level (ev : Event) (d : JigsawPuzzle) : bool :=
  match ev with
  | MouseButtonDown pos =>
      negb (puzzle_complete (core d) && collidepoint next_button_rect pos)
  | KeyN => negb (puzzle_complete (core d))
  | _ => true
  end.

(** Every placed piece of the first list is in the second, unchanged. *)
Definition placed_remain (ps qs : list PuzzlePiece) : Prop :=
  forall p, In p ps -> is_placed p = true -> In p qs.

(** A run of events within the level. *)
Inductive level_run : JigsawPuzzle -> JigsawPuzzle -> Prop :=
| level_run_nil (d : JigsawPuzzle) : level_run d d
| level_run_cons (d d1 d2 : JigsawPuzzle) (e : Env) (ev : Event) :
    event_stays_in_level ev d = true -> dispatch e ev d = Ok d1 ->
    level_run d1 d2 -> level_run d d2.

(** ** What the specification says, in its own words *)

(** The scoring formula of the specification: [elapsed] in seconds,
    [base_points // 2] by floor division. *)
Definition spec_level_score (base_points : Z) (elapsed : Q) (hints : Z) : Z :=
  Z.max 50 (base_points + Z.max 0 (base_points / 2 - Qfloor (elapsed / 10))
            - 20 * hints).

(** ** A concrete environment and a concrete play, used as test inputs *)

Definition no_jitter : nat -> Z * Z := fun _ => (0, 0).

Definition identity_shuffle : ScrambleRandom :=
  mkScrambleRandom no_jitter (fun len => seq 0 len) no_jitter.

Definition env_at (t : Q) (dt : Z) : Env :=
  mkEnv t dt dt dt identity_shuffle 0.

Definition run (e : Env) (r : Request) (w : World) : World := snd (handle e r w).

Fixpoint run_all (reqs : list (Env * Request)) (w : World) : World :=
  match reqs with
  | [] => w
  | (e, r) :: rest => run_all rest (run e r w)
  end.

(** A fresh server after the first [/api/game_state] request. *)
Definition started_world : World := run (env_at 1000 0) GetGameState initial_world.

Definition started_game : Game := new_game empty_session (env_at 1000 0).

Definition cute_cat : PuzzleLevel :=
  mkLevel "Cute Cat" "cat" "Adorable orange tabby cat" 1 (3, 2) 100.

(** Piece 0 of the first level (target [(50, 100)]) dropped at
    [(60, 110)]: it snaps. *)
Definition placed_world : World :=
  run (env_at 1010 0) (MovePiece (Some 0) (Some 60) (Some 110)) started_world.

Definition placed_game : Game :=
  set_pieces started_game
             (fst (move_loop 0 60 110 (pieces started_game))).

(** Requests that try to disturb the placed piece. *)
Definition disturbing_requests : list (Env * Request) :=
  [ (env_at 1020 5, MovePiece (Some 0) (Some 500) (Some 500));
    (env_at 1030 6, UseHint);
    (env_at 1040 7, GetGameState) ].

(** Requests between two hint requests. *)
Definition disturbing_requests_no_hint : list (Env * Request) :=
  [ (env_at 1020 5, MovePiece (Some 0) (Some 60) (Some 110));
    (env_at 1040 7, GetGameState);
    (env_at 1050 8, ResetGame) ].

(** Dropping every piece of the current level on its target, then asking
    for the next level. *)
Definition solve_requests (g : Game) : list (Env * Request) :=
  map (fun p => (env_at 2000 0,
                 MovePiece (Some (piece_id p)) (Some (correct_x p))
                           (Some (correct_y p))))
      (pieces g).

Definition solve_level (w : World) : World :=
  match game w with
  | Some g => run_all (solve_requests g) w
  | None => w
  end.

Definition advance (w : World) : World :=
  run (env_at 3000 0) NextLevel (solve_level w).

(** The game of a world that has one. *)
Definition the_game (w : World) : Game := or_default (game w) started_game.

(** The first level solved after one hint at time [0]. *)
Definition hinted_solved_world : World :=
  solve_level (run (env_at 1500 0) UseHint started_world).

(** The last level solved after one hint. *)
Definition last_level_world : World :=
  solve_level (run (env_at 3500 0) UseHint (Nat.iter 7 advance started_world)).

(** A game on the last level, as [load_progress] leaves it before the
    level is loaded. *)
Definition last_level_game : Game :=
  mkGame 7 4055 (Some 3000%Q) false 6 4 100 112 (Some "ocean"%string) []
         None 2.

(** Two hint requests on the solved first level, whose last hint was at
    time [0]: one a microsecond before the cooldown ends, one at its end;
    both snapshots are taken at the end. *)
Definition env_blocked : Env :=
  mkEnv 2100 (hint_cooldown - 1) hint_cooldown hint_cooldown identity_shuffle 0.

Definition env_no_piece : Env :=
  mkEnv 2100 hint_cooldown hint_cooldown hint_cooldown identity_shuffle 0.

(** The desktop game after start-up, and after piece 0 has been picked
    up at [(710, 110)], dragged to [(70, 120)] and released there, ten
    units from its target on both axes. *)
Definition desktop_started : JigsawPuzzle :=
  desktop_start empty_session (env_at 1000 0).

Fixpoint play (evs : list (Env * Event)) (d : JigsawPuzzle) : JigsawPuzzle :=
  match evs with
  | [] => d
  | (e, ev) :: rest =>
      match dispatch e ev d with
      | Ok d' => play rest d'
      | Raise_IndexError => d
      end
  end.

(** Every event of the play stays within the level. *)
Fixpoint plays_in_level (evs : list (Env * Event)) (d : JigsawPuzzle) : bool :=
  match evs with
  | [] => true
  | (e, ev) :: rest =>
      event_stays_in_level ev d &&
      match dispatch e ev d with
      | Ok d' => plays_in_level rest d'
      | Raise_IndexError => true
      end
  end.

Definition drag_piece_0 : list (Env * Event) :=
  [ (env_at 1010 1, MouseButtonDown (710, 110));
    (env_at 1011 2, MouseMotion (70, 120));
    (env_at 1012 3, MouseButtonUp (70, 120)) ].

Definition desktop_placed : JigsawPuzzle := play drag_piece_0 desktop_started.

(** Clicking on the placed piece, moving the mouse and asking for a hint. *)
Definition desktop_disturbing : list (Env * Event) :=
  [ (env_at 1020 5, MouseButtonDown (60, 110));
    (env_at 1021 6, MouseMotion (500, 500));
    (env_at 1022 7, KeyH);
    (env_at 1023 8, MouseButtonUp (500, 500)) ].

(** ** Predicates used in the statements *)

(** [q] is [p] moved: every attribute but the position is the same. *)
Definition moved (p q : PuzzlePiece) : Prop := q = set_xy p (x q) (y q).

(** A placed piece sits on its target. *)
Definition snapped_ok (p : PuzzlePiece) : Prop :=
  is_placed p = true -> x p = correct_x p /\ y p = correct_y p.

(** A placed piece of the first list is the same piece, at the same index,
    in the second. *)
Definition placed_kept (ps qs : list PuzzlePiece) : Prop :=
  Forall2 (fun p q => is_placed p = true -> q = p) ps qs.

(** The pieces [create_pieces] makes for a level, and what [load_level]
    leaves in [pieces]. *)
Definition fresh_pieces (level : PuzzleLevel) : list PuzzlePiece :=
  let (cols, rows) := grid_size level in
  create_pieces_from (puzzle_width / cols) (puzzle_height / rows)
                     (grid_cells rows cols) 0.

Definition loaded_pieces (level : PuzzleLevel) (r : ScrambleRandom)
  : list PuzzlePiece :=
  let (cols, rows) := grid_size level in
  scramble_list (puzzle_width / cols) (puzzle_height / rows) r
                (fresh_pieces level).

Definition game_inv (g : Game) : Prop :=
  (current_level g < List.length levels)%nat /\
  Forall snapped_ok (pieces g) /\
  puzzle_complete g = forallb is_placed (pieces g) /\
  pieces g <> [].

Definition session_inv (s : Session) : Prop :=
  forall n, s_current_level s = Some n -> (n < List.length levels)%nat.

Definition world_inv (w : World) : Prop :=
  session_inv (session w) /\ forall g, game w = Some g -> game_inv g.

(** Position and target of a piece, and the bounds of the last two
    statements of [scramble_pieces]. *)
Definition position (p : PuzzlePiece) : Z * Z := (x p, y p).
Definition target (p : PuzzlePiece) : Z * Z := (correct_x p, correct_y p).

Definition in_tray_bounds (p : PuzzlePiece) : Prop :=
  pieces_area_x - 50 <= x p <= screen_width - width p /\
  50 <= y p <= screen_height - height p - 100.

(** The candidate cell whose position the piece at index [a] receives:
    entry [a] of the shuffled list is candidate [shuffle_perm[a]]. *)
Definition tray_slot (r : ScrambleRandom) (ncells a : nat) : nat :=
  nth a (shuffle_perm r ncells) 0%nat.

(** The scramble postcondition as the specification states it: within
    bounds, pairwise distinct positions, no piece on its target. *)
Definition scramble_as_stated (ps : list PuzzlePiece) : Prop :=
  Forall in_tray_bounds ps /\
  NoDup (map position ps) /\
  Forall (fun p => position p <> target p) ps.

Definition scramble_postcondition_as_stated : Prop :=
  forall (g : Game) (i : nat) (now : Q) (r : ScrambleRandom),
    (i < List.length levels)%nat -> valid_random r ->
    scramble_as_stated (pieces (snd (load_level g i now r))).

(** The last hint was granted at [t], in the game and in the session. *)
Definition hint_stamp_is (t : Z) (w : World) : Prop :=
  exists g, game w = Some g /\ last_hint_time g = Some t /\
            s_last_hint_time (session w) = Some t.

(** The reading of the specification under which a hint refused for want
    of an eligible piece is told apart from one refused by the cooldown:
    the two responses differ. *)
Definition hint_failures_distinguishable : Prop :=
  forall w g eA eB,
    reachable w -> game w = Some g ->
    can_use_hint g (dt_check eA) = false ->
    can_use_hint g (dt_check eB) = true ->
    filter hint_eligible (pieces g) = [] ->
    fst (handle eA UseHint w) <> fst (handle eB UseHint w).

(** The selected object, when it is in the list, is not placed. *)
Definition selection_ok (d : JigsawPuzzle) : Prop :=
  forall i, selected_piece d = Selected i ->
            exists p, nth_error (pieces (core d)) i = Some p /\
                      is_placed p = false.

Definition desktop_inv (d : JigsawPuzzle) : Prop :=
  Forall snapped_ok (pieces (core d)) /\ selection_ok d.

(** Requests that stay within the current level: they never call
    [load_level] on an existing game. *)
Definition stays_in_level (r : Request) : bool :=
  match r with
  | GetGameState | MovePiece _ _ _ | UseHint => true
  | NextLevel | ResetGame => false
  end.


(** ** Further code of the repository *)

(** [int(value)] on a float: truncation toward zero. *)
Definition py_int (value : Q) : Z := Z.quot (Qnum value) (Z.pos (Qden value)).

(** [clamp_color] of [app.py] *)
Definition clamp_color (value : Q) : Z := Z.max 0 (Z.min 255 (py_int value)).

(** [PuzzleRegion] of [kiro/hint_system.py], with its two methods (the
    class of the same name in [app.py] has the first only). *)
Record PuzzleRegion := mkRegion {
  region_x : Z;
  region_y : Z;
  region_width : Z;
  region_height : Z;
  piece_ids : list Z
}.

Definition region_contains_point (r : PuzzleRegion) (px py : Z) : bool :=
  (region_x r <=? px) && (px <=? region_x r + region_width r) &&
  ((region_y r <=? py) && (py <=? region_y r + region_height r)).

Definition overlaps_with (r other : PuzzleRegion) : bool :=
  negb ((region_x r + region_width r <? region_x other)
        || (region_x other + region_width other <? region_x r)
        || (region_y r + region_height r <? region_y other)
        || (region_y other + region_height other <? region_y r)).

(** The piece [create_pieces] makes for cell [(row, col)] with id [id]. *)
Definition piece_of_cell (pw ph row col id : Z) : PuzzlePiece :=
  new_piece 0 0 pw ph (col * pw, row * ph, col * pw + pw, row * ph + ph)
            (puzzle_x + col * pw) (puzzle_y + row * ph) id.

(** The attributes of a piece that the web game never assigns after
    [create_pieces]. *)
Definition static_part (p : PuzzlePiece)
  : Z * (Z * Z) * (Z * Z * Z * Z) * (Z * Z) * Z * bool :=
  (piece_id p, (width p, height p), image_section p,
   (correct_x p, correct_y p), rotation p, dragging p).

(** The board holds the pieces of the current level, in creation order. *)
Definition board_inv (g : Game) : Prop :=
  exists level,
    nth_error levels (current_level g) = Some level /\
    map static_part (pieces g) = map static_part (fresh_pieces level).

(** [is_near_correct_position] of a piece dropped at [(x', y')]. *)
Definition drop_is_near (p : PuzzlePiece) (x' y' : Z) : bool :=
  is_near_correct_position (set_xy p x' y').

(** What the route [/api/move_piece] makes of an unplaced piece. *)
Definition dropped (p : PuzzlePiece) (x' y' : Z) : PuzzlePiece :=
  if drop_is_near p x' y'
  then set_is_placed (set_xy p (correct_x p) (correct_y p)) true
  else set_xy p x' y'.




(** [save_progress] of [jigsaw_puzzle.py]: the dictionary it dumps to the
    save file, with [last_hint_time] only when the game has one. *)
Definition desktop_save_progress (g : Game) : Session :=
  mkSession (Some (hints_used g)) (Some (current_level g))
            (Some (total_score g)) (last_hint_time g).

(** No placed piece is being dragged. *)
Definition placed_not_dragging (p : PuzzlePiece) : Prop :=
  is_placed p = true -> dragging p = false.

(** The test of the loop of [handle_mouse_down]. *)
Definition pickable (pos : Z * Z) (p : PuzzlePiece) : bool :=
  contains_point p (fst pos) (snd pos) && negb (is_placed p).

(** A piece carried from where it was grabbed at [pos] to [pos'], and what
    a release makes of it. *)
Definition carried (p : PuzzlePiece) (pos pos' : Z * Z) : PuzzlePiece :=
  set_xy p (x p + (fst pos' - fst pos)) (y p + (snd pos' - snd pos)).

Definition released (p : PuzzlePiece) : PuzzlePiece :=
  set_dragging
    (if is_near_correct_position p
     then set_is_placed (set_xy p (correct_x p) (correct_y p)) true
     else p)
    false.

(** The countdown of [draw_ui] in [jigsaw_puzzle.py]: hours and minutes
    left of the cooldown at the clock reading [now], which [draw_ui] takes
    after the one of [can_use_hint].  [total_seconds()] is the number of
    microseconds over [10^6] as a float, and the two floor divisions of
    that float are those of the microseconds as long as the two times are
    less than 285 years apart, where the float is within a microsecond. *)
Definition hint_timer (last now : Z) : Z * Z :=
  let time_left := hint_cooldown - (now - last) in
  (time_left / 3600000000, (time_left mod 3600000000) / 60000000).

(** A hint flag of the first list is still set in the second. *)
Definition hints_kept (ps qs : list PuzzlePiece) : Prop :=
  Forall2 (fun p q => hint_revealed p = true -> hint_revealed q = true) ps qs.

(** [all(piece.is_placed for piece in self.pieces)] on a board that has
    pieces. *)
Definition all_placed (ps : list PuzzlePiece) : bool :=
  match ps with
  | [] => false
  | _ :: _ => forallb is_placed ps
  end.

(** The desktop game between two events: the completion flag follows the
    board, a board with pieces belongs to a level of the list, and the
    selected object is in the list. *)
Definition desktop_level_inv (d : JigsawPuzzle) : Prop :=
  puzzle_complete (core d) = all_placed (pieces (core d)) /\
  (pieces (core d) <> [] ->
   (current_level (core d) < List.length levels)%nat) /\
  (forall q, selected_piece d <> Detached q).

(** A drag that takes the piece under [from] by the same point to [to]. *)
Definition drag (from to : Z * Z) : list (Env * Event) :=
  [ (env_at 1010 1, MouseButtonDown from);
    (env_at 1011 2, MouseMotion to);
    (env_at 1012 3, MouseButtonUp to) ].

(** The first level solved on the desktop, piece by piece. *)
Definition desktop_solve : list (Env * Event) :=
  drag (710, 110) (60, 110) ++ drag (710, 350) (260, 335) ++
  drag (920, 110) (260, 110) ++ drag (920, 350) (460, 335) ++
  drag (1150, 110) (200, 335) ++ drag (1150, 110) (600, 110).

Definition desktop_solved : JigsawPuzzle := play desktop_solve desktop_started.

(** A piece shows its section of the picture where that section lies in
    the picture, the picture drawn at [(puzzle_x, puzzle_y)]; the section
    is of the size of the piece and inside the picture. *)
Definition shows_its_section (p : PuzzlePiece) : Prop :=
  let '(sl, st, sr, sb) := image_section p in
  x p = puzzle_x + sl /\ y p = puzzle_y + st /\
  sr - sl = width p /\ sb - st = height p /\
  0 <= sl /\ sr <= puzzle_width /\ 0 <= st /\ sb <= puzzle_height.



(** * Basic facts about the definitions *)

Lemma valid_identity_shuffle : valid_random identity_shuffle.
Proof.
  unfold valid_random, in_range; simpl.
  repeat split; try lia.
  intros len. apply Permutation_refl.
Qed.

Lemma reachable_run (e : Env) (r : Request) (w : World) :
  reachable w -> valid_random (scramble_random e) -> reachable (run e r w).
Proof. intros Hw He. unfold run. now apply reachable_step. Qed.

Lemma reachable_started : reachable started_world.
Proof.
  apply reachable_run; [apply reachable_init | apply valid_identity_shuffle].
Qed.

(** * Scoring *)

(** C4: once the level-start timestamp is set, [calculate_level_score]
    returns [max(50, base + max(0, base // 2 - floor(elapsed / 10))
    - 20 * hints_used)] with [elapsed = now - level_start_time] in seconds,
    and that value is at least 50. *)
Theorem calculate_level_score_formula (g : Game) (now t0 : Q) (level : PuzzleLevel) :
  level_start_time g = Some t0 ->
  start_time_unset (level_start_time g) = false ->
  nth_error levels (current_level g) = Some level ->
  calculate_level_score g now
    = Ok (spec_level_score (points level) (now - t0) (hints_used g))
  /\ 50 <= spec_level_score (points level) (now - t0) (hints_used g).
Proof.
  intros Ht Hset Hl. split.
  - unfold calculate_level_score. rewrite Ht in *. simpl in Hset.
    rewrite Hset, Hl. unfold spec_level_score.
    f_equal. f_equal. lia.
  - unfold spec_level_score. apply Z.le_max_l.
Qed.

(** C9: with the level-start timestamp unset ([None] or [0]) the score
    is [0], which is below the floor of 50 of the formula. *)
Theorem calculate_level_score_unset (g : Game) (now : Q) :
  start_time_unset (level_start_time g) = true ->
  calculate_level_score g now = Ok 0 /\ 0 < 50.
Proof.
  intros H. split; [|lia].
  unfold calculate_level_score.
  destruct (level_start_time g) as [t0|]; simpl in H; [|reflexivity].
  now rewrite H.
Qed.

Lemma calculate_level_score_formula_witness :
  calculate_level_score started_game 1075
    = Ok (spec_level_score 100 (1075 - 1000) 0)
  /\ 50 <= spec_level_score 100 (1075 - 1000) 0.
Proof.
  apply (calculate_level_score_formula started_game 1075 1000 cute_cat);
    reflexivity.
Defined.

Example score_after_75_seconds :
  calculate_level_score started_game 1075 = Ok 143.
Proof. reflexivity. Qed.

Example score_with_many_hints :
  calculate_level_score (set_hints_used started_game 9) 1075 = Ok 50.
Proof. reflexivity. Qed.

Lemma calculate_level_score_unset_witness :
  calculate_level_score (mkGame 0 0 None false 0 0 0 0 None [] None 0) 5
    = Ok 0 /\ 0 < 50.
Proof.
  apply (calculate_level_score_unset (mkGame 0 0 None false 0 0 0 0 None [] None 0) 5).
  reflexivity.
Defined.

Example score_with_zero_timestamp :
  calculate_level_score
    (mkGame 0 0 (Some 0%Q) false 3 2 200 225 None [] None 0) 5 = Ok 0.
Proof. reflexivity. Qed.

(** * Creating and scrambling pieces *)

Section PieceLists.

Lemma moved_refl (p : PuzzlePiece) : moved p p.
Proof. destruct p; reflexivity. Qed.

Lemma moved_set_xy (p : PuzzlePiece) (a b : Z) : moved p (set_xy p a b).
Proof. destruct p; reflexivity. Qed.

Lemma moved_is_placed (p q : PuzzlePiece) : moved p q -> is_placed q = is_placed p.
Proof. intros H; rewrite H; reflexivity. Qed.

Lemma moved_correct (p q : PuzzlePiece) :
  moved p q -> correct_x q = correct_x p /\ correct_y q = correct_y p.
Proof. intros H; rewrite H; split; reflexivity. Qed.

Lemma range_length (n : Z) : List.length (range n) = Z.to_nat n.
Proof. unfold range. now rewrite length_map, length_seq. Qed.

Lemma in_range_list (n v : Z) : In v (range n) <-> 0 <= v < n.
Proof.
  unfold range. rewrite in_map_iff. split.
  - intros [k [Hk Hin]]. apply in_seq in Hin. lia.
  - intros Hv. exists (Z.to_nat v). split; [lia|]. apply in_seq. lia.
Qed.

Lemma grid_cells_length (rows cols : Z) :
  List.length (grid_cells rows cols) = (Z.to_nat rows * Z.to_nat cols)%nat.
Proof.
  unfold grid_cells.
  assert (H : forall l : list Z,
    List.length (flat_map (fun row => map (fun col => (row, col)) (range cols)) l)
    = (List.length l * Z.to_nat cols)%nat).
  { induction l as [|a l IH]; simpl; [reflexivity|].
    now rewrite length_app, length_map, range_length, IH. }
  now rewrite H, range_length.
Qed.

Lemma in_grid_cells (rows cols row col : Z) :
  In (row, col) (grid_cells rows cols) <-> 0 <= row < rows /\ 0 <= col < cols.
Proof.
  unfold grid_cells. rewrite in_flat_map. split.
  - intros [r [Hr Hin]]. apply in_map_iff in Hin.
    destruct Hin as [c [Heq Hc]]. inversion Heq; subst.
    apply in_range_list in Hr. apply in_range_list in Hc. tauto.
  - intros [Hr Hc]. exists row. split; [now apply in_range_list|].
    apply in_map_iff. exists col. split; [reflexivity|now apply in_range_list].
Qed.

Lemma create_pieces_from_length (pw ph : Z) (cells : list (Z * Z)) (id : Z) :
  List.length (create_pieces_from pw ph cells id) = List.length cells.
Proof.
  revert id. induction cells as [|[row col] rest IH]; intros id; simpl;
    [reflexivity | now rewrite IH].
Qed.

(** What [create_pieces] makes of the cell at index [k]. *)
Lemma create_pieces_from_nth (pw ph : Z) (cells : list (Z * Z)) (id : Z)
      (k : nat) (row col : Z) :
  nth_error cells k = Some (row, col) ->
  nth_error (create_pieces_from pw ph cells id) k
  = Some (new_piece 0 0 pw ph
            (col * pw, row * ph, col * pw + pw, row * ph + ph)
            (puzzle_x + col * pw) (puzzle_y + row * ph) (id + Z.of_nat k)).
Proof.
  revert id k. induction cells as [|[r c] rest IH]; intros id k H.
  - destruct k; discriminate.
  - destruct k as [|k]; simpl in *.
    + inversion H; subst. now rewrite Z.add_0_r.
    + rewrite (IH (id + 1) k H). do 2 f_equal. lia.
Qed.

Lemma create_pieces_from_fresh (pw ph : Z) (cells : list (Z * Z)) (id : Z) :
  Forall (fun p => is_placed p = false /\ hint_revealed p = false /\
                   dragging p = false /\ x p = 0 /\ y p = 0 /\
                   width p = pw /\ height p = ph)
         (create_pieces_from pw ph cells id).
Proof.
  revert id. induction cells as [|[row col] rest IH]; intros id; simpl;
    constructor; auto.
  simpl. repeat split.
Qed.

Lemma assign_positions_moved (avail : list (Z * Z)) (jit : nat -> Z * Z)
      (i : nat) (ps : list PuzzlePiece) :
  Forall2 moved ps (assign_positions avail jit i ps).
Proof.
  revert i. induction ps as [|p rest IH]; intros i; simpl; constructor; auto.
  destruct (negb (is_placed p) && (i <? List.length avail)%nat).
  - apply moved_set_xy.
  - apply moved_refl.
Qed.

Lemma scramble_list_moved (pw ph : Z) (r : ScrambleRandom) (ps : list PuzzlePiece) :
  Forall2 moved ps (scramble_list pw ph r ps).
Proof. apply assign_positions_moved. Qed.

(** Scrambling does not touch a placed piece. *)
Lemma assign_positions_placed (avail : list (Z * Z)) (jit : nat -> Z * Z)
      (i : nat) (ps : list PuzzlePiece) :
  Forall2 (fun p q => is_placed p = true -> q = p)
          ps (assign_positions avail jit i ps).
Proof.
  revert i. induction ps as [|p rest IH]; intros i; simpl; constructor; auto.
  intros Hp. now rewrite Hp.
Qed.

Lemma Forall2_moved_placed (ps qs : list PuzzlePiece) :
  Forall2 moved ps qs -> map is_placed qs = map is_placed ps.
Proof.
  induction 1 as [|p q ps qs Hpq _ IH]; simpl; [reflexivity|].
  now rewrite IH, (moved_is_placed p q Hpq).
Qed.

Lemma forallb_map_is_placed (ps qs : list PuzzlePiece) :
  map is_placed qs = map is_placed ps ->
  forallb is_placed qs = forallb is_placed ps.
Proof.
  revert qs. induction ps as [|p ps IH]; intros [|q qs] H; simpl in *;
    try discriminate; [reflexivity|].
  inversion H. now rewrite (IH qs) by assumption.
Qed.

End PieceLists.

(** * Loading a level *)

Lemma levels_grid (i : nat) (level : PuzzleLevel) :
  nth_error levels i = Some level ->
  3 <= fst (grid_size level) <= 6 /\ 2 <= snd (grid_size level) <= 4.
Proof.
  intros H.
  do 8 (destruct i as [|i]; [inversion H; subst; simpl; lia|]).
  destruct i; discriminate.
Qed.

Lemma load_level_loaded (g : Game) (i : nat) (now : Q) (r : ScrambleRandom)
      (level : PuzzleLevel) :
  nth_error levels i = Some level ->
  load_level g i now r
  = (true,
     mkGame (current_level g) (total_score g) (Some now) false
            (fst (grid_size level)) (snd (grid_size level))
            (puzzle_width / fst (grid_size level))
            (puzzle_height / snd (grid_size level))
            (Some (image_url level)) (loaded_pieces level r)
            (last_hint_time g) (hints_used g)).
Proof.
  intros H. unfold load_level, loaded_pieces, fresh_pieces. rewrite H.
  destruct (grid_size level) as [cols rows]. reflexivity.
Qed.

Lemma load_level_out_of_range (g : Game) (i : nat) (now : Q) (r : ScrambleRandom) :
  nth_error levels i = None -> load_level g i now r = (false, g).
Proof. intros H. unfold load_level. now rewrite H. Qed.

Lemma level_in_range (i : nat) :
  (i < List.length levels)%nat -> exists level, nth_error levels i = Some level.
Proof.
  intros H. destruct (nth_error levels i) as [l|] eqn:E; [now exists l|].
  apply nth_error_None in E. lia.
Qed.

Lemma fresh_pieces_length (level : PuzzleLevel) :
  List.length (fresh_pieces level)
  = (Z.to_nat (snd (grid_size level)) * Z.to_nat (fst (grid_size level)))%nat.
Proof.
  unfold fresh_pieces. destruct (grid_size level) as [cols rows]. simpl.
  now rewrite create_pieces_from_length, grid_cells_length.
Qed.

Lemma fresh_pieces_unplaced (level : PuzzleLevel) :
  Forall (fun p => is_placed p = false) (fresh_pieces level).
Proof.
  unfold fresh_pieces. destruct (grid_size level) as [cols rows].
  eapply Forall_impl; [|apply create_pieces_from_fresh]. simpl. tauto.
Qed.

Lemma loaded_pieces_moved (level : PuzzleLevel) (r : ScrambleRandom) :
  Forall2 moved (fresh_pieces level) (loaded_pieces level r).
Proof.
  unfold loaded_pieces. destruct (grid_size level) as [cols rows].
  apply scramble_list_moved.
Qed.

Lemma loaded_pieces_length (level : PuzzleLevel) (r : ScrambleRandom) :
  List.length (loaded_pieces level r) = List.length (fresh_pieces level).
Proof. symmetry. eapply Forall2_length, loaded_pieces_moved. Qed.

Lemma loaded_pieces_unplaced (level : PuzzleLevel) (r : ScrambleRandom) :
  Forall (fun p => is_placed p = false) (loaded_pieces level r).
Proof.
  pose proof (loaded_pieces_moved level r) as H.
  pose proof (fresh_pieces_unplaced level) as F.
  induction H as [|p q ps qs Hpq _ IH]; constructor.
  - rewrite (moved_is_placed p q Hpq). now inversion F.
  - apply IH. now inversion F.
Qed.

Lemma loaded_pieces_nonempty (i : nat) (level : PuzzleLevel) (r : ScrambleRandom) :
  nth_error levels i = Some level -> loaded_pieces level r <> [].
Proof.
  intros H E. apply levels_grid in H.
  pose proof (loaded_pieces_length level r) as L.
  rewrite E, fresh_pieces_length in L. simpl in L. nia.
Qed.

Lemma unplaced_not_all (ps : list PuzzlePiece) :
  ps <> [] -> Forall (fun p => is_placed p = false) ps ->
  forallb is_placed ps = false.
Proof.
  intros Hne F. destruct ps as [|p ps]; [congruence|].
  inversion F; subst. simpl. now rewrite H1.
Qed.

Lemma unplaced_snapped_ok (ps : list PuzzlePiece) :
  Forall (fun p => is_placed p = false) ps -> Forall snapped_ok ps.
Proof.
  apply Forall_impl. intros p H Hp. congruence.
Qed.

Lemma load_level_inv (g : Game) (i : nat) (now : Q) (r : ScrambleRandom) :
  (i < List.length levels)%nat -> current_level g = i ->
  game_inv (snd (load_level g i now r)).
Proof.
  intros Hi Hc. destruct (level_in_range i Hi) as [level Hl].
  rewrite (load_level_loaded g i now r level Hl). unfold game_inv; simpl.
  pose proof (loaded_pieces_unplaced level r) as U.
  pose proof (loaded_pieces_nonempty i level r Hl) as N.
  split; [rewrite Hc; exact Hi|].
  split; [now apply unplaced_snapped_ok|].
  split; [symmetry; now apply unplaced_not_all | exact N].
Qed.

(** * Moving a piece *)

Lemma move_loop_placed_kept (id x' y' : Z) (ps : list PuzzlePiece) :
  placed_kept ps (fst (move_loop id x' y' ps)).
Proof.
  unfold placed_kept.
  induction ps as [|p rest IH]; simpl; [constructor|].
  destruct (piece_id p =? id) eqn:Eid; simpl.
  - destruct (is_placed p) eqn:Ep; simpl.
    + destruct (move_loop id x' y' rest) as [rest' o]; simpl in *.
      constructor; auto.
    + destruct (is_near_correct_position (set_xy p x' y')); simpl;
        (constructor; [congruence|]);
        clear; induction rest; constructor; auto.
  - destruct (move_loop id x' y' rest) as [rest' o]; simpl in *.
    constructor; auto.
Qed.

Lemma move_loop_length (id x' y' : Z) (ps : list PuzzlePiece) :
  List.length (fst (move_loop id x' y' ps)) = List.length ps.
Proof. symmetry. eapply Forall2_length, move_loop_placed_kept. Qed.

Lemma move_loop_snapped_ok (id x' y' : Z) (ps : list PuzzlePiece) :
  Forall snapped_ok ps -> Forall snapped_ok (fst (move_loop id x' y' ps)).
Proof.
  induction ps as [|p rest IH]; intros F; simpl; [constructor|].
  inversion F as [|? ? Hp Hrest]; subst.
  destruct ((piece_id p =? id) && negb (is_placed p)) eqn:E.
  - apply andb_prop in E. destruct E as [_ Ep].
    apply negb_true_iff in Ep.
    destruct (is_near_correct_position (set_xy p x' y')); simpl;
      constructor; auto.
    + intros _. split; reflexivity.
    + intros H. simpl in H. congruence.
  - destruct (move_loop id x' y' rest) as [rest' o]; simpl in *.
    constructor; auto.
Qed.

(** The three outcomes of the loop. *)
Lemma move_loop_outcome (id x' y' : Z) (ps : list PuzzlePiece) :
  match snd (move_loop id x' y' ps) with
  | NoMatch => fst (move_loop id x' y' ps) = ps
  | Moved => map is_placed (fst (move_loop id x' y' ps)) = map is_placed ps
  | Snapped => forallb is_placed ps = false
  end.
Proof.
  induction ps as [|p rest IH]; simpl; [reflexivity|].
  destruct ((piece_id p =? id) && negb (is_placed p)) eqn:E.
  - apply andb_prop in E. destruct E as [_ Ep].
    apply negb_true_iff in Ep.
    destruct (is_near_correct_position (set_xy p x' y')); simpl.
    + now rewrite Ep.
    + reflexivity.
  - destruct (move_loop id x' y' rest) as [rest' o]; simpl in *.
    destruct o.
    + now rewrite IH.
    + now rewrite IH.
    + rewrite IH. apply andb_false_r.
Qed.

(** No piece with the id, or only placed ones: the loop changes nothing. *)
Lemma move_loop_no_match (id x' y' : Z) (ps : list PuzzlePiece) :
  (forall p, In p ps -> piece_id p = id -> is_placed p = true) ->
  move_loop id x' y' ps = (ps, NoMatch).
Proof.
  induction ps as [|p rest IH]; intros H; simpl; [reflexivity|].
  destruct (piece_id p =? id) eqn:Eid; simpl.
  - apply Z.eqb_eq in Eid. rewrite (H p (or_introl eq_refl) Eid). simpl.
    rewrite IH; [reflexivity|]. intros q Hq. apply H. now right.
  - rewrite IH; [reflexivity|]. intros q Hq. apply H. now right.
Qed.

(** * Revealing a hint *)

Lemma reveal_kth_split (k : nat) (ps : list PuzzlePiece) :
  (k < List.length (filter hint_eligible ps))%nat ->
  exists l1 p l2,
    ps = l1 ++ p :: l2 /\ hint_eligible p = true /\
    nth_error (filter hint_eligible ps) k = Some p /\
    reveal_kth k ps = l1 ++ set_hint_revealed p true :: l2.
Proof.
  revert k. induction ps as [|p rest IH]; intros k Hk; simpl in *; [lia|].
  destruct (hint_eligible p) eqn:Ep.
  - destruct k as [|k].
    + exists [], p, rest. simpl. auto.
    + simpl in Hk. destruct (IH k) as [l1 [q [l2 [H1 [H2 [H3 H4]]]]]]; [lia|].
      exists (p :: l1), q, l2. simpl. rewrite H1 at 1. rewrite H4. auto.
  - destruct (IH k Hk) as [l1 [q [l2 [H1 [H2 [H3 H4]]]]]].
    exists (p :: l1), q, l2. simpl. rewrite H1 at 1. rewrite H4. auto.
Qed.

Lemma placed_kept_refl (ps : list PuzzlePiece) : placed_kept ps ps.
Proof. unfold placed_kept. induction ps; constructor; auto. Qed.

Lemma placed_kept_trans (ps qs rs : list PuzzlePiece) :
  placed_kept ps qs -> placed_kept qs rs -> placed_kept ps rs.
Proof.
  unfold placed_kept. intros H. revert rs.
  induction H as [|p q ps qs Hpq _ IH]; intros rs Hr; inversion Hr; subst;
    constructor; auto.
  intros Hp. specialize (Hpq Hp). subst q. auto.
Qed.

Lemma reveal_kth_placed_kept (k : nat) (ps : list PuzzlePiece) :
  placed_kept ps (reveal_kth k ps).
Proof.
  unfold placed_kept. revert k.
  induction ps as [|p rest IH]; intros k; simpl; [constructor|].
  destruct (hint_eligible p) eqn:Ep.
  - destruct k.
    + constructor; [|apply placed_kept_refl].
      unfold hint_eligible in Ep. apply andb_prop in Ep.
      destruct Ep as [_ Ep]. apply negb_true_iff in Ep. congruence.
    + constructor; auto.
  - constructor; auto.
Qed.

Lemma reveal_kth_is_placed (k : nat) (ps : list PuzzlePiece) :
  map is_placed (reveal_kth k ps) = map is_placed ps.
Proof.
  revert k. induction ps as [|p rest IH]; intros k; simpl; [reflexivity|].
  destruct (hint_eligible p); [destruct k|]; simpl; now rewrite ?IH.
Qed.

Lemma reveal_kth_length (k : nat) (ps : list PuzzlePiece) :
  List.length (reveal_kth k ps) = List.length ps.
Proof.
  pose proof (f_equal (@List.length _) (reveal_kth_is_placed k ps)) as L.
  now rewrite !length_map in L.
Qed.

Lemma reveal_kth_snapped_ok (k : nat) (ps : list PuzzlePiece) :
  Forall snapped_ok ps -> Forall snapped_ok (reveal_kth k ps).
Proof.
  revert k. induction ps as [|p rest IH]; intros k F; simpl; [constructor|].
  inversion F; subst.
  destruct (hint_eligible p); [destruct k|]; constructor; auto.
Qed.

(** * The invariant of the server state *)

Lemma calculate_level_score_ok (g : Game) (now : Q) :
  (current_level g < List.length levels)%nat ->
  exists score, calculate_level_score g now = Ok score.
Proof.
  intros H. destruct (level_in_range _ H) as [level Hl].
  unfold calculate_level_score. rewrite Hl.
  destruct (level_start_time g) as [t0|]; [|now exists 0].
  destruct (Qeq_bool t0 0); eexists; reflexivity.
Qed.

Lemma get_game_state_ok (g : Game) (now : Z) :
  (current_level g < List.length levels)%nat ->
  exists snap, get_game_state g now = Ok snap /\
               snap_pieces snap = pieces g /\
               snap_puzzle_complete snap = puzzle_complete g /\
               snap_current_level snap = current_level g /\
               snap_hints_used snap = hints_used g /\
               snap_total_score snap = total_score g.
Proof.
  intros H. destruct (level_in_range _ H) as [level Hl].
  unfold get_game_state. rewrite Hl. eexists. split; [reflexivity|].
  simpl. auto.
Qed.

Lemma respond_world (g : Game) (s : Session) (e : Env) (body : Snapshot -> Response) :
  snd (respond g s e body) = mkWorld (Some g) s.
Proof.
  unfold respond. destruct (get_game_state g (dt_snapshot e)); reflexivity.
Qed.

Lemma world_inv_some (g : Game) (s : Session) :
  session_inv s -> game_inv g -> world_inv (mkWorld (Some g) s).
Proof.
  intros Hs Hg. split; [exact Hs|].
  intros g' H. injection H as <-. exact Hg.
Qed.

Lemma new_game_inv (s : Session) (e : Env) :
  session_inv s -> game_inv (new_game s e).
Proof.
  intros Hs. unfold new_game. apply load_level_inv; [|reflexivity].
  simpl. unfold session_inv in Hs.
  destruct (s_current_level s) as [n|]; simpl; [now apply Hs | lia].
Qed.

Lemma save_progress_inv (g : Game) (s : Session) :
  (current_level g < List.length levels)%nat -> session_inv (save_progress g s).
Proof. intros H n Hn. simpl in Hn. inversion Hn; subst. exact H. Qed.

Lemma next_level_inv (g : Game) (now : Q) (r : ScrambleRandom) :
  game_inv g -> game_inv (snd (next_level g now r)).
Proof.
  intros Hg. unfold next_level.
  destruct (current_level g <? List.length levels - 1)%nat eqn:E; [|exact Hg].
  apply Nat.ltb_lt in E.
  pose proof (load_level_inv (set_hints_used (set_current_level g (current_level g + 1)) 0)
                (current_level g + 1) now r) as H.
  simpl in H. simpl.
  destruct (load_level _ _ now r) as [ok g3]. simpl in *.
  destruct ok; simpl; apply H; try reflexivity; simpl in E; lia.
Qed.

Lemma move_piece_inv (e : Env) (id x' y' : Z) (g : Game) (s : Session) :
  session_inv s -> game_inv g ->
  world_inv (snd (route_move_piece e (Some id) (Some x') (Some y')
                                   (mkWorld (Some g) s))).
Proof.
  intros Hs [Hc [Hok [Hpc Hne]]]. unfold route_move_piece. simpl.
  pose proof (move_loop_snapped_ok id x' y' (pieces g) Hok) as Sok.
  pose proof (move_loop_outcome id x' y' (pieces g)) as Out.
  pose proof (move_loop_length id x' y' (pieces g)) as Len.
  destruct (move_loop id x' y' (pieces g)) as [ps o]. simpl in *.
  assert (Hps : ps <> []).
  { intros ->. destruct (pieces g); [congruence|discriminate]. }
  destruct o.
  - rewrite respond_world. split; [exact Hs|].
    intros g' Hg'. inversion Hg'; subst. now repeat split.
  - rewrite respond_world. split; [exact Hs|].
    intros g' Hg'. inversion Hg'; subst. repeat split; simpl; auto.
    now rewrite (forallb_map_is_placed _ _ Out).
  - destruct (forallb is_placed ps) eqn:All.
    + unfold complete_level.
      destruct (calculate_level_score_ok (set_pieces g ps) (time_now e) Hc)
        as [score Hscore].
      rewrite Hscore. rewrite respond_world. split.
      * now apply save_progress_inv.
      * intros g' Hg'. inversion Hg'; subst. repeat split; simpl; auto.
    + rewrite respond_world. split; [exact Hs|].
      intros g' Hg'. inversion Hg'; subst. repeat split; simpl; auto.
      congruence.
Qed.

Lemma use_hint_inv (g : Game) (s : Session) (now_check now_stamp : Z) (choice : nat) :
  session_inv s -> game_inv g ->
  game_inv (snd (fst (use_hint g s now_check now_stamp choice))) /\
  session_inv (snd (use_hint g s now_check now_stamp choice)).
Proof.
  intros Hs Hg. unfold use_hint.
  destruct (can_use_hint g now_check); simpl; [|now split].
  destruct (filter hint_eligible (pieces g)) as [|p0 l] eqn:F; simpl; [now split|].
  destruct Hg as [Hc [Hok [Hpc Hne]]]. split.
  - repeat split; simpl; auto.
    + now apply reveal_kth_snapped_ok.
    + rewrite (forallb_map_is_placed _ _ (reveal_kth_is_placed _ (pieces g))).
      exact Hpc.
    + intros E. apply (f_equal (@List.length _)) in E.
      rewrite reveal_kth_length in E.
      destruct (pieces g); [congruence|discriminate].
  - now apply save_progress_inv.
Qed.

Theorem handle_preserves_inv (e : Env) (r : Request) (w : World) :
  world_inv w -> world_inv (snd (handle e r w)).
Proof.
  intros [Hs Hg]. destruct w as [og s]. cbn [game session] in *.
  destruct r as [|pid px py| | |]; cbn [handle].
  - unfold route_game_state. rewrite respond_world. simpl. split; [exact Hs|].
    intros g' Hg'. inversion Hg'; subst.
    destruct og as [g|]; [now apply Hg | now apply new_game_inv].
  - destruct og as [g|].
    + destruct pid as [id|], px as [x'|], py as [y'|];
        try (unfold route_move_piece; simpl; now split).
      apply move_piece_inv; auto.
    + unfold route_move_piece; simpl. now split.
  - unfold route_use_hint. simpl. destruct og as [g|]; [|now split].
    pose proof (use_hint_inv g s (dt_check e) (dt_stamp e) (hint_choice e) Hs
                  (Hg g eq_refl)) as [H1 H2].
    destruct (use_hint g s (dt_check e) (dt_stamp e) (hint_choice e))
      as [[ok g1] s1]. simpl in *.
    destruct ok; rewrite respond_world; (split; [exact H2|]);
      intros g' Hg'; inversion Hg'; subst; exact H1.
  - unfold route_next_level. cbn [game session].
    destruct og as [g|]; [|now split].
    destruct (puzzle_complete g); [|now split].
    destruct (current_level g <? List.length levels - 1)%nat;
      rewrite respond_world; (apply world_inv_some; [exact Hs|]).
    + apply next_level_inv. now apply Hg.
    + apply load_level_inv; [simpl; lia | reflexivity].
  - unfold route_reset_game. rewrite respond_world. split; [exact Hs|].
    intros g' Hg'. inversion Hg'; subst. now apply new_game_inv.
Qed.

Theorem reachable_inv (w : World) : reachable w -> world_inv w.
Proof.
  induction 1 as [|w e r Hw IH He].
  - split; [intros n Hn; discriminate | intros g Hg; discriminate].
  - now apply handle_preserves_inv.
Qed.

(** * The snap invariant *)

Lemma step_placed_kept (e : Env) (r : Request) (w : World) (g : Game) :
  game w = Some g -> stays_in_level r = true ->
  exists g', game (run e r w) = Some g' /\ placed_kept (pieces g) (pieces g').
Proof.
  intros Hg Hr. destruct w as [og s]. cbn [game] in Hg. subst og.
  unfold run. destruct r as [|pid px py| | |]; try discriminate; cbn [handle].
  - unfold route_game_state. rewrite respond_world. cbn [game].
    exists g. split; [reflexivity | apply placed_kept_refl].
  - unfold route_move_piece. cbn [game session].
    destruct pid as [id|], px as [x'|], py as [y'|];
      try (exists g; split; [reflexivity | apply placed_kept_refl]).
    pose proof (move_loop_placed_kept id x' y' (pieces g)) as K.
    destruct (move_loop id x' y' (pieces g)) as [ps o]. cbn [fst] in K.
    destruct o; try (rewrite respond_world; eexists; split; [reflexivity|exact K]).
    destruct (forallb is_placed (pieces (set_pieces g ps))).
    + unfold complete_level.
      destruct (calculate_level_score (set_pieces g ps) (time_now e)).
      * rewrite respond_world. eexists; split; [reflexivity|exact K].
      * eexists; split; [reflexivity|exact K].
    + rewrite respond_world; eexists; split; [reflexivity|exact K].
  - unfold route_use_hint, use_hint. cbn [game session].
    destruct (can_use_hint g (dt_check e)); cbn [negb].
    + destruct (filter hint_eligible (pieces g)) as [|p0 l].
      * rewrite respond_world. exists g. split; [reflexivity | apply placed_kept_refl].
      * rewrite respond_world. eexists. split; [reflexivity|].
        apply reveal_kth_placed_kept.
    + rewrite respond_world. exists g. split; [reflexivity | apply placed_kept_refl].
Qed.

Lemma run_all_placed_kept (reqs : list (Env * Request)) (w : World) (g : Game) :
  game w = Some g ->
  Forall (fun er => stays_in_level (snd er) = true) reqs ->
  exists g', game (run_all reqs w) = Some g' /\ placed_kept (pieces g) (pieces g').
Proof.
  revert w g. induction reqs as [|[e r] rest IH]; intros w g Hg F.
  - exists g. split; [exact Hg | apply placed_kept_refl].
  - inversion F as [|? ? Hr Hrest]; subst. simpl in Hr.
    destruct (step_placed_kept e r w g Hg Hr) as [g1 [Hg1 K1]].
    destruct (IH (run e r w) g1 Hg1 Hrest) as [g2 [Hg2 K2]].
    exists g2. split; [exact Hg2 | now apply placed_kept_trans with (pieces g1)].
Qed.

(** The snap invariant of the web game: a placed piece sits on its target,
    and whatever requests follow within the level, every placed piece is
    still the same piece. *)
Lemma web_snap_invariant (w : World) (g : Game) (reqs : list (Env * Request)) :
  reachable w -> game w = Some g ->
  Forall (fun er => stays_in_level (snd er) = true) reqs ->
  (forall p, In p (pieces g) -> is_placed p = true ->
             x p = correct_x p /\ y p = correct_y p) /\
  exists g', game (run_all reqs w) = Some g' /\
             placed_kept (pieces g) (pieces g').
Proof.
  intros Hw Hg F. split.
  - intros p Hp Hplaced.
    destruct (reachable_inv w Hw) as [_ Inv].
    destruct (Inv g Hg) as [_ [Hok _]].
    rewrite Forall_forall in Hok. now apply Hok.
  - now apply run_all_placed_kept.
Qed.

Lemma reachable_placed : reachable placed_world.
Proof.
  apply reachable_run; [apply reachable_started | apply valid_identity_shuffle].
Qed.

Example placed_world_game : game placed_world = Some placed_game.
Proof. vm_compute. reflexivity. Qed.

Example placed_piece_snapped :
  nth_error (pieces placed_game) 0
  = Some (mkPiece 50 100 200 225 (0, 0, 200, 225) 50 100 0 true false false 0).
Proof. vm_compute. reflexivity. Qed.

(** * The completion invariant *)

Lemma new_game_not_complete (s : Session) (e : Env) :
  puzzle_complete (new_game s e) = false.
Proof.
  unfold new_game, load_level.
  destruct (nth_error levels _) as [level|]; [|reflexivity].
  destruct (grid_size level). reflexivity.
Qed.

Lemma load_level_not_complete (g : Game) (i : nat) (now : Q) (r : ScrambleRandom) :
  puzzle_complete g = false -> puzzle_complete (snd (load_level g i now r)) = false.
Proof.
  intros H. unfold load_level.
  destruct (nth_error levels i) as [level|]; [|exact H].
  destruct (grid_size level). reflexivity.
Qed.

(** When a request turns [puzzle_complete] from false to true, it is a
    move that snapped a piece and left no piece unplaced. *)
Lemma complete_only_by_placement (e : Env) (r : Request) (w : World) (g g' : Game) :
  world_inv w -> game w = Some g -> game (run e r w) = Some g' ->
  puzzle_complete g = false -> puzzle_complete g' = true ->
  exists id x' y' score snap,
    r = MovePiece (Some id) (Some x') (Some y') /\
    fst (handle e r w) = RespMove true (Some true) (Some true) (Some score) snap /\
    snap_puzzle_complete snap = true /\
    forallb is_placed (pieces g') = true.
Proof.
  intros [Hs Inv] Hg Hg' Hf Ht. destruct w as [og s].
  cbn [game session] in *. subst og. specialize (Inv g eq_refl).
  destruct Inv as [Hc [Hok [Hpc Hne]]].
  unfold run in Hg'. destruct r as [|pid px py| | |]; cbn [handle] in *.
  - unfold route_game_state in Hg'. rewrite respond_world in Hg'.
    cbn [game] in Hg'. injection Hg' as <-. congruence.
  - unfold route_move_piece in *. cbn [game session] in *.
    destruct pid as [id|], px as [x'|], py as [y'|];
      try (cbn [snd game] in Hg'; injection Hg' as <-; congruence).
    destruct (move_loop id x' y' (pieces g)) as [ps o].
    destruct o.
    + rewrite respond_world in Hg'. injection Hg' as <-. simpl in Ht. congruence.
    + rewrite respond_world in Hg'. injection Hg' as <-. simpl in Ht. congruence.
    + destruct (forallb is_placed (pieces (set_pieces g ps))) eqn:All.
      * unfold complete_level in *.
        destruct (calculate_level_score_ok (set_pieces g ps) (time_now e) Hc)
          as [score Hscore].
        rewrite Hscore in *. rewrite respond_world in Hg'. injection Hg' as <-.
        destruct (get_game_state_ok
                    (set_puzzle_complete
                       (set_total_score (set_pieces g ps)
                          (total_score (set_pieces g ps) + score)) true)
                    (dt_snapshot e) Hc) as [snap [Hsnap [_ [Hsc _]]]].
        exists id, x', y', score, snap. unfold respond. rewrite Hsnap.
        repeat split; auto.
      * rewrite respond_world in Hg'. injection Hg' as <-. simpl in Ht. congruence.
  - unfold route_use_hint, use_hint in Hg'. cbn [game session] in Hg'.
    destruct (can_use_hint g (dt_check e)); cbn [negb] in Hg'.
    + destruct (filter hint_eligible (pieces g));
        rewrite respond_world in Hg'; injection Hg' as <-; simpl in Ht; congruence.
    + rewrite respond_world in Hg'. injection Hg' as <-. congruence.
  - unfold route_next_level in Hg'. cbn [game session] in Hg'.
    rewrite Hf in Hg'. injection Hg' as <-. congruence.
  - unfold route_reset_game in Hg'. rewrite respond_world in Hg'.
    injection Hg' as <-. rewrite new_game_not_complete in Ht. discriminate.
Qed.

(** Every snapping move checks for completion: its response carries the
    flag, which is that of the game after the move. *)
Lemma placement_checks_completion (e : Env) (w : World) (g : Game)
      (id x' y' : Z) (flag : option bool) (score : option Z) (snap : Snapshot) :
  world_inv w -> game w = Some g ->
  fst (handle e (MovePiece (Some id) (Some x') (Some y')) w)
  = RespMove true (Some true) flag score snap ->
  exists g',
    game (run e (MovePiece (Some id) (Some x') (Some y')) w) = Some g' /\
    flag = Some (puzzle_complete g') /\
    snap_puzzle_complete snap = puzzle_complete g' /\
    puzzle_complete g' = forallb is_placed (pieces g').
Proof.
  intros [Hs Inv] Hg. destruct w as [og s]. cbn [game session] in *. subst og.
  destruct (Inv g eq_refl) as [Hc [Hok [Hpc Hne]]].
  unfold run. cbn [handle]. unfold route_move_piece. cbn [game session].
  pose proof (move_loop_outcome id x' y' (pieces g)) as Out.
  destruct (move_loop id x' y' (pieces g)) as [ps o]. cbn [fst snd] in Out.
  destruct o.
  - unfold respond.
    destruct (get_game_state (set_pieces g ps) (dt_snapshot e)); discriminate.
  - unfold respond.
    destruct (get_game_state (set_pieces g ps) (dt_snapshot e)); discriminate.
  - destruct (forallb is_placed (pieces (set_pieces g ps))) eqn:All.
    + unfold complete_level.
      destruct (calculate_level_score_ok (set_pieces g ps) (time_now e) Hc)
        as [sc Hsc].
      rewrite Hsc.
      set (g2 := set_puzzle_complete
                   (set_total_score (set_pieces g ps)
                      (total_score (set_pieces g ps) + sc)) true).
      destruct (get_game_state_ok g2 (dt_snapshot e) Hc)
        as [snap2 [Hsnap [_ [Hcomp _]]]].
      unfold respond. rewrite Hsnap. cbn [fst snd game]. intros H.
      injection H as <- _ <-. exists g2. repeat split; auto.
    + destruct (get_game_state_ok (set_pieces g ps) (dt_snapshot e) Hc)
        as [snap2 [Hsnap [_ [Hcomp _]]]].
      unfold respond. rewrite Hsnap. cbn [fst snd game]. intros H.
      injection H as <- _ <-. exists (set_pieces g ps).
      assert (Hf : puzzle_complete (set_pieces g ps) = false)
        by (cbn [puzzle_complete set_pieces]; congruence).
      repeat split; auto; congruence.
Qed.

(** C2: in every reachable state [puzzle_complete] holds exactly when
    every piece is placed; a request that turns it on is a move that
    snapped a piece (the response says [piece_placed] and
    [puzzle_complete]) after which every piece is placed; and every
    snapping move is followed by the check: its response carries the
    completion flag of the state it leaves. *)
Theorem completion_invariant (w : World) (g : Game) :
  reachable w -> game w = Some g ->
  (puzzle_complete g = true <->
   forall p, In p (pieces g) -> is_placed p = true) /\
  (forall e r g',
      game (run e r w) = Some g' ->
      puzzle_complete g = false -> puzzle_complete g' = true ->
      exists id x' y' score snap,
        r = MovePiece (Some id) (Some x') (Some y') /\
        fst (handle e r w)
        = RespMove true (Some true) (Some true) (Some score) snap /\
        snap_puzzle_complete snap = true /\
        forallb is_placed (pieces g') = true) /\
  (forall e id x' y' flag score snap,
      fst (handle e (MovePiece (Some id) (Some x') (Some y')) w)
      = RespMove true (Some true) flag score snap ->
      exists g',
        game (run e (MovePiece (Some id) (Some x') (Some y')) w) = Some g' /\
        flag = Some (puzzle_complete g') /\
        snap_puzzle_complete snap = puzzle_complete g' /\
        puzzle_complete g' = forallb is_placed (pieces g')).
Proof.
  intros Hw Hg. pose proof (reachable_inv w Hw) as Inv. split; [|split].
  - destruct Inv as [_ Inv]. destruct (Inv g Hg) as [_ [_ [Hpc _]]].
    rewrite Hpc. apply forallb_forall.
  - intros e r g'. now apply complete_only_by_placement.
  - intros e id x' y' flag score snap.
    exact (placement_checks_completion e w g id x' y' flag score snap Inv Hg).
Qed.

(** * Moving a piece that is absent or placed *)

(** C3: when no piece has the id, or the piece with the id is placed,
    [/api/move_piece] leaves the server state as it was and answers with
    [success] and the snapshot of that state. *)
Theorem move_piece_noop (w : World) (g : Game) (e : Env) (id x' y' : Z) :
  reachable w -> game w = Some g ->
  (forall p, In p (pieces g) -> piece_id p = id -> is_placed p = true) ->
  exists snap,
    get_game_state g (dt_snapshot e) = Ok snap /\
    snap_pieces snap = pieces g /\
    handle e (MovePiece (Some id) (Some x') (Some y')) w
    = (RespMove true None None None snap, w).
Proof.
  intros Hw Hg Hid.
  destruct (reachable_inv w Hw) as [_ Inv].
  destruct (Inv g Hg) as [Hc _].
  destruct (get_game_state_ok g (dt_snapshot e) Hc) as [snap [Hsnap [Hp _]]].
  exists snap. split; [exact Hsnap|]. split; [exact Hp|].
  destruct w as [og s]. cbn [game] in Hg. subst og.
  cbn [handle]. unfold route_move_piece. cbn [game session].
  rewrite (move_loop_no_match id x' y' (pieces g) Hid).
  unfold respond.
  assert (E : set_pieces g (pieces g) = g) by (destruct g; reflexivity).
  rewrite E, Hsnap. reflexivity.
Qed.

Lemma move_piece_noop_witness :
  exists snap,
    get_game_state placed_game (dt_snapshot (env_at 1020 5)) = Ok snap /\
    snap_pieces snap = pieces placed_game /\
    handle (env_at 1020 5) (MovePiece (Some 0) (Some 500) (Some 500)) placed_world
    = (RespMove true None None None snap, placed_world).
Proof.
  apply (move_piece_noop placed_world placed_game (env_at 1020 5) 0 500 500).
  - apply reachable_placed.
  - vm_compute. reflexivity.
  - intros p Hp Hid. vm_compute in Hp.
    repeat (destruct Hp as [<-|Hp]; [try reflexivity; discriminate|]).
    destruct Hp.
Defined.

Example move_unknown_piece_is_noop :
  snd (handle (env_at 1020 5) (MovePiece (Some 99) (Some 500) (Some 500))
              placed_world) = placed_world.
Proof. vm_compute. reflexivity. Qed.

Lemma completion_invariant_witness :
  (puzzle_complete placed_game = true <->
   forall p, In p (pieces placed_game) -> is_placed p = true) /\
  (forall e r g',
      game (run e r placed_world) = Some g' ->
      puzzle_complete placed_game = false -> puzzle_complete g' = true ->
      exists id x' y' score snap,
        r = MovePiece (Some id) (Some x') (Some y') /\
        fst (handle e r placed_world)
        = RespMove true (Some true) (Some true) (Some score) snap /\
        snap_puzzle_complete snap = true /\
        forallb is_placed (pieces g') = true) /\
  (forall e id x' y' flag score snap,
      fst (handle e (MovePiece (Some id) (Some x') (Some y')) placed_world)
      = RespMove true (Some true) flag score snap ->
      exists g',
        game (run e (MovePiece (Some id) (Some x') (Some y')) placed_world)
        = Some g' /\
        flag = Some (puzzle_complete g') /\
        snap_puzzle_complete snap = puzzle_complete g' /\
        puzzle_complete g' = forallb is_placed (pieces g')).
Proof.
  apply (completion_invariant placed_world placed_game).
  - apply reachable_placed.
  - vm_compute. reflexivity.
Defined.

Example last_piece_completes :
  let w := run_all (solve_requests started_game) started_world in
  (puzzle_complete (the_game w), forallb is_placed (pieces (the_game w)),
   total_score (the_game w))
  = (true, true, 100).
Proof. vm_compute. reflexivity. Qed.

Example five_pieces_do_not_complete :
  let w := run_all (removelast (solve_requests started_game)) started_world in
  (puzzle_complete (the_game w), forallb is_placed (pieces (the_game w)))
  = (false, false).
Proof. vm_compute. reflexivity. Qed.

(** * Reaching the test worlds *)

Lemma valid_env_at (t : Q) (dt : Z) : valid_random (scramble_random (env_at t dt)).
Proof. apply valid_identity_shuffle. Qed.

Lemma reachable_run_all (reqs : list (Env * Request)) (w : World) :
  reachable w ->
  Forall (fun er => valid_random (scramble_random (fst er))) reqs ->
  reachable (run_all reqs w).
Proof.
  revert w. induction reqs as [|[e r] rest IH]; intros w Hw F; [exact Hw|].
  inversion F; subst. simpl. apply IH; [|assumption].
  now apply reachable_run.
Qed.

Lemma reachable_solve_level (w : World) : reachable w -> reachable (solve_level w).
Proof.
  intros Hw. unfold solve_level. destruct (game w) as [g|]; [|exact Hw].
  apply reachable_run_all; [exact Hw|].
  unfold solve_requests. apply Forall_map, Forall_forall.
  intros p _. apply valid_env_at.
Qed.


Lemma reachable_hinted_solved : reachable hinted_solved_world.
Proof.
  apply reachable_solve_level, reachable_run;
    [apply reachable_started | apply valid_env_at].
Qed.


(** * Advancing *)

Lemma Forall2_moved_Forall (P : PuzzlePiece -> Prop) (ps qs : list PuzzlePiece) :
  (forall p q, moved p q -> P p -> P q) ->
  Forall2 moved ps qs -> Forall P ps -> Forall P qs.
Proof.
  intros HP H. induction H as [|p q ps qs Hpq _ IH]; intros F; constructor;
    inversion F; subst; eauto.
Qed.

Lemma loaded_pieces_fresh (level : PuzzleLevel) (r : ScrambleRandom) :
  Forall (fun p => is_placed p = false /\ hint_revealed p = false /\
                   dragging p = false)
         (loaded_pieces level r).
Proof.
  apply Forall2_moved_Forall with (ps := fresh_pieces level).
  - intros p q Hm. rewrite Hm. simpl. tauto.
  - apply loaded_pieces_moved.
  - unfold fresh_pieces. destruct (grid_size level) as [cols rows].
    eapply Forall_impl; [|apply create_pieces_from_fresh]. simpl. tauto.
Qed.

(** C8: at the last level index [next_level()] returns [False] and leaves
    the game as it is; below it, the method returns [True] with the index
    incremented, the hint counter at 0, the completion flag cleared, the
    timestamp reset and the pieces of the new level, fresh and scrambled. *)
Theorem next_level_method (g : Game) (now : Q) (r : ScrambleRandom) :
  (current_level g = (List.length levels - 1)%nat ->
   next_level g now r = (false, g)) /\
  ((current_level g < List.length levels - 1)%nat ->
   exists level g',
     nth_error levels (current_level g + 1) = Some level /\
     next_level g now r = (true, g') /\
     current_level g' = (current_level g + 1)%nat /\
     hints_used g' = 0 /\
     puzzle_complete g' = false /\
     level_start_time g' = Some now /\
     total_score g' = total_score g /\
     last_hint_time g' = last_hint_time g /\
     pieces g' = loaded_pieces level r /\
     Forall (fun p => is_placed p = false /\ hint_revealed p = false /\
                      dragging p = false) (pieces g') /\
     List.length (pieces g')
     = (Z.to_nat (snd (grid_size level)) * Z.to_nat (fst (grid_size level)))%nat).
Proof.
  split; intros H; unfold next_level.
  - rewrite H. rewrite Nat.ltb_irrefl. reflexivity.
  - pose proof H as Hlt. apply Nat.ltb_lt in H. rewrite H.
    destruct (level_in_range (current_level g + 1)) as [level Hl];
      [simpl in *; lia|].
    cbn [current_level set_hints_used set_current_level].
    rewrite (load_level_loaded _ _ now r level Hl).
    eexists level, _. split; [exact Hl|]. split; [reflexivity|].
    cbn [current_level hints_used puzzle_complete level_start_time
         total_score last_hint_time pieces set_hints_used set_current_level].
    repeat (split; [reflexivity|]).
    split; [apply loaded_pieces_fresh|].
    now rewrite loaded_pieces_length, fresh_pieces_length.
Qed.

Lemma next_level_method_witness :
  next_level last_level_game 3100 identity_shuffle = (false, last_level_game) /\
  exists level g',
    nth_error levels (current_level started_game + 1) = Some level /\
    next_level started_game 3100 identity_shuffle = (true, g') /\
    current_level g' = (current_level started_game + 1)%nat /\
    hints_used g' = 0 /\
    puzzle_complete g' = false /\
    level_start_time g' = Some 3100%Q /\
    total_score g' = total_score started_game /\
    last_hint_time g' = last_hint_time started_game /\
    pieces g' = loaded_pieces level identity_shuffle /\
    Forall (fun p => is_placed p = false /\ hint_revealed p = false /\
                     dragging p = false) (pieces g') /\
    List.length (pieces g')
    = (Z.to_nat (snd (grid_size level)) * Z.to_nat (fst (grid_size level)))%nat.
Proof.
  split.
  - apply (proj1 (next_level_method last_level_game 3100 identity_shuffle)).
    reflexivity.
  - apply (proj2 (next_level_method started_game 3100 identity_shuffle)).
    vm_compute. lia.
Defined.

Example next_level_from_first :
  let g' := snd (next_level (set_hints_used started_game 3) 3100 identity_shuffle) in
  (current_level g', hints_used g', List.length (pieces g'), puzzle_complete g')
  = (1%nat, 0, 12%nat, false).
Proof. vm_compute. reflexivity. Qed.

(** * Restarting after the last level *)

(** C10: with the puzzle complete, [/api/next_level] at the last level
    index restarts at index 0 with the pieces of the first level and the
    hint counter as it was, while below the last index it moves to the
    next level with the hint counter at 0. *)
Theorem restart_keeps_hints (w : World) (g : Game) (e : Env) :
  game w = Some g -> puzzle_complete g = true ->
  (current_level g = (List.length levels - 1)%nat ->
   exists g',
     game (run e NextLevel w) = Some g' /\
     current_level g' = 0%nat /\
     hints_used g' = hints_used g /\
     puzzle_complete g' = false /\
     pieces g' = loaded_pieces cute_cat (scramble_random e)) /\
  ((current_level g < List.length levels - 1)%nat ->
   exists g',
     game (run e NextLevel w) = Some g' /\
     current_level g' = (current_level g + 1)%nat /\
     hints_used g' = 0 /\
     puzzle_complete g' = false).
Proof.
  intros Hg Hc. destruct w as [og s]. cbn [game] in Hg. subst og.
  unfold run. cbn [handle]. unfold route_next_level. cbn [game session].
  rewrite Hc. split; intros H.
  - rewrite H, Nat.ltb_irrefl. rewrite respond_world. cbn [game].
    cbn [current_level set_current_level].
    rewrite (load_level_loaded _ 0 (time_now e) (scramble_random e) cute_cat eq_refl).
    eexists. split; [reflexivity|]. simpl. auto.
  - destruct (proj2 (next_level_method g (time_now e) (scramble_random e)) H)
      as [level [g' [_ [Hn [H1 [H2 [H3 _]]]]]]].
    apply Nat.ltb_lt in H. rewrite H. rewrite respond_world. cbn [game].
    rewrite Hn. exists g'. auto.
Qed.

Lemma restart_keeps_hints_witness :
  (exists g',
     game (run (env_at 4000 9) NextLevel last_level_world) = Some g' /\
     current_level g' = 0%nat /\
     hints_used g' = hints_used (the_game last_level_world) /\
     puzzle_complete g' = false /\
     pieces g' = loaded_pieces cute_cat identity_shuffle) /\
  (exists g',
     game (run (env_at 4000 9) NextLevel hinted_solved_world) = Some g' /\
     current_level g' = (current_level (the_game hinted_solved_world) + 1)%nat /\
     hints_used g' = 0 /\
     puzzle_complete g' = false).
Proof.
  split.
  - apply (proj1 (restart_keeps_hints last_level_world
                    (the_game last_level_world) (env_at 4000 9)
                    ltac:(vm_compute; reflexivity)
                    ltac:(vm_compute; reflexivity))).
    vm_compute. reflexivity.
  - apply (proj2 (restart_keeps_hints hinted_solved_world
                    (the_game hinted_solved_world) (env_at 4000 9)
                    ltac:(vm_compute; reflexivity)
                    ltac:(vm_compute; reflexivity))).
    vm_compute. lia.
Defined.

Example restart_after_last_level :
  let g := the_game last_level_world in
  let g' := the_game (run (env_at 4000 9) NextLevel last_level_world) in
  (current_level g, hints_used g, current_level g', hints_used g',
   List.length (pieces g'), forallb is_placed (pieces g'))
  = (7%nat, 1, 0%nat, 1, 6%nat, false).
Proof. vm_compute. reflexivity. Qed.

Example advance_resets_hints :
  let g := the_game hinted_solved_world in
  let g' := the_game (run (env_at 4000 9) NextLevel hinted_solved_world) in
  (current_level g, hints_used g, current_level g', hints_used g')
  = (0%nat, 1, 1%nat, 0).
Proof. vm_compute. reflexivity. Qed.

(** * Hints *)

Lemma can_use_hint_iff (g : Game) (now : Z) :
  can_use_hint g now = true <->
  last_hint_time g = None \/
  exists t, last_hint_time g = Some t /\ hint_cooldown <= now - t.
Proof.
  unfold can_use_hint. destruct (last_hint_time g) as [t|]; split.
  - intros H. right. exists t. split; [reflexivity | now apply Z.leb_le].
  - intros [H|[t' [H1 H2]]]; [discriminate|]. injection H1 as <-.
    now apply Z.leb_le.
  - now left.
  - reflexivity.
Qed.

Lemma use_hint_blocked (g : Game) (s : Session) (t now_check now_stamp : Z)
      (choice : nat) :
  last_hint_time g = Some t -> now_check - t < hint_cooldown ->
  use_hint g s now_check now_stamp choice = (false, g, s).
Proof.
  intros Ht Hlt. unfold use_hint, can_use_hint. rewrite Ht.
  destruct (hint_cooldown <=? now_check - t) eqn:E; [|reflexivity].
  apply Z.leb_le in E. lia.
Qed.

Lemma use_hint_no_piece (g : Game) (s : Session) (now_check now_stamp : Z)
      (choice : nat) :
  filter hint_eligible (pieces g) = [] ->
  use_hint g s now_check now_stamp choice = (false, g, s).
Proof.
  intros H. unfold use_hint. rewrite H.
  destruct (can_use_hint g now_check); reflexivity.
Qed.

(** A granted hint: one eligible piece is flagged, the counter goes up by
    one, the stamp is set, and the snapshot is saved. *)
Lemma use_hint_granted (g : Game) (s : Session) (now_check now_stamp : Z)
      (choice : nat) :
  can_use_hint g now_check = true ->
  filter hint_eligible (pieces g) <> [] ->
  exists l1 p l2,
    pieces g = l1 ++ p :: l2 /\ hint_eligible p = true /\
    let g' := set_last_hint_time
                (set_hints_used
                   (set_pieces g (l1 ++ set_hint_revealed p true :: l2))
                   (hints_used g + 1))
                (Some now_stamp) in
    use_hint g s now_check now_stamp choice = (true, g', save_progress g' s).
Proof.
  intros Hc Hne. unfold use_hint. rewrite Hc. cbn [negb].
  destruct (filter hint_eligible (pieces g)) as [|p0 l] eqn:F; [congruence|].
  destruct (reveal_kth_split (choice mod List.length (p0 :: l)) (pieces g))
    as [l1 [p [l2 [H1 [H2 [_ H4]]]]]].
  { rewrite F. apply Nat.mod_upper_bound. discriminate. }
  exists l1, p, l2. split; [exact H1|]. split; [exact H2|].
  cbv zeta. rewrite H4. reflexivity.
Qed.

Lemma load_level_last_hint (g : Game) (i : nat) (now : Q) (r : ScrambleRandom) :
  last_hint_time (snd (load_level g i now r)) = last_hint_time g.
Proof.
  unfold load_level. destruct (nth_error levels i) as [level|]; [|reflexivity].
  destruct (grid_size level). reflexivity.
Qed.

Lemma next_level_last_hint (g : Game) (now : Q) (r : ScrambleRandom) :
  last_hint_time (snd (next_level g now r)) = last_hint_time g.
Proof.
  unfold next_level.
  destruct (current_level g <? List.length levels - 1)%nat; [|reflexivity].
  pose proof (load_level_last_hint
                (set_hints_used (set_current_level g (current_level g + 1)) 0)
                (current_level g + 1) now r) as H.
  cbn [current_level set_hints_used set_current_level].
  destruct (load_level _ _ now r) as [ok g3]. cbn [snd] in H.
  destruct ok; exact H.
Qed.

(** Requests other than a hint keep the stamp of the last hint, in the
    game and in the session, even across a reset. *)
Lemma other_requests_keep_stamp (t : Z) (e : Env) (r : Request) (w : World) :
  hint_stamp_is t w -> r <> UseHint -> hint_stamp_is t (run e r w).
Proof.
  intros [g [Hg [Ht Hs]]] Hr. destruct w as [og s].
  cbn [game session] in *. subst og. unfold run, hint_stamp_is.
  destruct r as [|pid px py| | |]; [| | congruence | |]; cbn [handle].
  - unfold route_game_state. rewrite respond_world. cbn [game session].
    exists g. auto.
  - unfold route_move_piece. cbn [game session].
    destruct pid as [id|], px as [x'|], py as [y'|];
      try solve [exists g; cbn [snd game session]; auto].
    destruct (move_loop id x' y' (pieces g)) as [ps o].
    destruct o; try solve [rewrite respond_world; eexists; cbn [game session];
                           split; [reflexivity|]; simpl; auto].
    destruct (forallb is_placed (pieces (set_pieces g ps))).
    + unfold complete_level.
      destruct (calculate_level_score (set_pieces g ps) (time_now e)).
      * rewrite respond_world. eexists. cbn [game session].
        split; [reflexivity|]. simpl. rewrite Ht. auto.
      * eexists. cbn [snd game session]. split; [reflexivity|]. simpl. auto.
    + rewrite respond_world. eexists. cbn [game session].
      split; [reflexivity|]. simpl. auto.
  - unfold route_next_level. cbn [game session].
    destruct (puzzle_complete g).
    + rewrite respond_world. eexists. cbn [game session].
      split; [reflexivity|]. split; [|exact Hs].
      destruct (current_level g <? List.length levels - 1)%nat.
      * now rewrite next_level_last_hint.
      * now rewrite load_level_last_hint.
    + exists g. cbn [snd game session]. auto.
  - unfold route_reset_game. rewrite respond_world. eexists.
    cbn [game session]. split; [reflexivity|]. split; [|exact Hs].
    unfold new_game. rewrite load_level_last_hint. exact Hs.
Qed.

Lemma run_all_keep_stamp (t : Z) (reqs : list (Env * Request)) (w : World) :
  hint_stamp_is t w -> Forall (fun er => snd er <> UseHint) reqs ->
  hint_stamp_is t (run_all reqs w).
Proof.
  revert w. induction reqs as [|[e r] rest IH]; intros w Hw F; [exact Hw|].
  inversion F; subst. simpl. apply IH; [|assumption].
  now apply other_requests_keep_stamp.
Qed.

Lemma world_inv_run_all (reqs : list (Env * Request)) (w : World) :
  world_inv w -> world_inv (run_all reqs w).
Proof.
  revert w. induction reqs as [|[e r] rest IH]; intros w Hw; [exact Hw|].
  simpl. apply IH. now apply handle_preserves_inv.
Qed.

(** A successful hint request stamps the game and the session. *)
Lemma granted_hint_stamps (e : Env) (w : World) (msg : string) (snap : Snapshot) :
  fst (handle e UseHint w) = RespHint true msg snap ->
  hint_stamp_is (dt_stamp e) (run e UseHint w).
Proof.
  unfold run. cbn [handle]. unfold route_use_hint.
  destruct (game w) as [g|]; [|discriminate].
  unfold use_hint.
  destruct (can_use_hint g (dt_check e)); cbn [negb].
  - destruct (filter hint_eligible (pieces g)) as [|p0 l].
    + unfold respond. destruct (get_game_state g (dt_snapshot e)); discriminate.
    + intros _. rewrite respond_world. eexists. cbn [game session].
      split; [reflexivity|]. split; reflexivity.
  - unfold respond. destruct (get_game_state g (dt_snapshot e)); discriminate.
Qed.

(** A refused hint request: nothing changes and the answer is the
    refusal with the snapshot of the unchanged state. *)
Lemma refused_hint_response (e : Env) (w : World) (g : Game) :
  world_inv w -> game w = Some g ->
  use_hint g (session w) (dt_check e) (dt_stamp e) (hint_choice e)
  = (false, g, session w) ->
  exists snap,
    get_game_state g (dt_snapshot e) = Ok snap /\
    handle e UseHint w = (RespHint false "Hint not available yet!" snap, w).
Proof.
  intros [_ Inv] Hg Hu. destruct (Inv g Hg) as [Hc _].
  destruct (get_game_state_ok g (dt_snapshot e) Hc) as [snap [Hsnap _]].
  exists snap. split; [exact Hsnap|].
  destruct w as [og s]. cbn [game session] in *. subst og.
  cbn [handle]. unfold route_use_hint. cbn [game session]. rewrite Hu.
  unfold respond. now rewrite Hsnap.
Qed.

(** C5: after a granted hint, whatever other requests come in between, a
    hint request whose clock reading is less than two hours after the
    first call is refused and leaves the server state as it was; and a
    request made with no stamp, or at least two hours after it, while an
    eligible piece exists, is granted: one eligible piece gets
    [hint_revealed], the counter goes up by one and the stamp is set, all
    in the same call. *)
Theorem hint_cooldown_two_calls :
  (forall (w : World) (e1 e2 : Env) (reqs : list (Env * Request))
          (snap1 : Snapshot) (t_first : Z),
      reachable w ->
      fst (handle e1 UseHint w) = RespHint true "Hint revealed!" snap1 ->
      Forall (fun er => snd er <> UseHint) reqs ->
      t_first <= dt_stamp e1 ->
      dt_check e2 - t_first < hint_cooldown ->
      let w2 := run_all reqs (run e1 UseHint w) in
      exists snap2,
        handle e2 UseHint w2
        = (RespHint false "Hint not available yet!" snap2, w2)) /\
  (forall (g : Game) (s : Session) (now_check now_stamp : Z) (choice : nat),
      (last_hint_time g = None \/
       exists t, last_hint_time g = Some t /\ hint_cooldown <= now_check - t) ->
      filter hint_eligible (pieces g) <> [] ->
      exists l1 p l2,
        pieces g = l1 ++ p :: l2 /\ hint_eligible p = true /\
        let g' := set_last_hint_time
                    (set_hints_used
                       (set_pieces g (l1 ++ set_hint_revealed p true :: l2))
                       (hints_used g + 1))
                    (Some now_stamp) in
        use_hint g s now_check now_stamp choice
        = (true, g', save_progress g' s)).
Proof.
  split.
  - intros w e1 e2 reqs snap1 t_first Hw H1 Hreqs Hfirst Hlt w2.
    assert (Hstamp : hint_stamp_is (dt_stamp e1) w2).
    { apply run_all_keep_stamp; [|exact Hreqs].
      eapply granted_hint_stamps; eassumption. }
    assert (Hinv : world_inv w2).
    { apply world_inv_run_all. apply handle_preserves_inv.
      now apply reachable_inv. }
    destruct Hstamp as [g2 [Hg2 [Ht2 _]]].
    destruct (refused_hint_response e2 w2 g2 Hinv Hg2) as [snap2 [_ Hresp]].
    + apply use_hint_blocked with (t := dt_stamp e1); [exact Ht2 | lia].
    + exists snap2. exact Hresp.
  - intros g s now_check now_stamp choice Hcool Hne.
    apply use_hint_granted; [|exact Hne].
    now apply can_use_hint_iff.
Qed.

Lemma hint_cooldown_two_calls_witness :
  (let w2 := run_all disturbing_requests_no_hint
                     (run (env_at 1500 0) UseHint started_world) in
   exists snap2,
     handle env_blocked UseHint w2
     = (RespHint false "Hint not available yet!" snap2, w2)) /\
  (exists l1 p l2,
      pieces started_game = l1 ++ p :: l2 /\ hint_eligible p = true /\
      let g' := set_last_hint_time
                  (set_hints_used
                     (set_pieces started_game
                                 (l1 ++ set_hint_revealed p true :: l2))
                     (hints_used started_game + 1))
                  (Some 12) in
      use_hint started_game empty_session 11 12 4%nat
      = (true, g', save_progress g' empty_session)).
Proof.
  split.
  - apply (proj1 hint_cooldown_two_calls started_world (env_at 1500 0)
                 env_blocked disturbing_requests_no_hint
                 (mkSnapshot (reveal_kth 0 (pieces started_game)) 0%nat cute_cat 0
                             false 1 false (Some "cat"%string)
                             (600, 450, 50, 100) (700, 100))
                 0).
    + apply reachable_started.
    + vm_compute. reflexivity.
    + repeat constructor; discriminate.
    + vm_compute. discriminate.
    + vm_compute. reflexivity.
  - apply (proj2 hint_cooldown_two_calls started_game empty_session 11 12 4%nat).
    + left. reflexivity.
    + vm_compute. discriminate.
Defined.

Example second_hint_is_blocked :
  let w1 := run (env_at 1500 0) UseHint started_world in
  (hints_used (the_game w1), last_hint_time (the_game w1)) = (1, Some 0) /\
  run env_blocked UseHint w1 = w1.
Proof. vm_compute. split; reflexivity. Qed.

Example hint_after_two_hours_is_granted :
  let w1 := run (env_at 1500 0) UseHint started_world in
  let w2 := run env_no_piece UseHint w1 in
  (hints_used (the_game w2), last_hint_time (the_game w2))
  = (2, Some hint_cooldown).
Proof. vm_compute. reflexivity. Qed.

(** * Telling the two refusals apart *)

(** C6, as stated, fails: on the solved first level, whose last hint was
    at time 0, a request refused by the cooldown and a request refused for
    want of an eligible piece get the same response. *)
Lemma hint_failures_not_distinguishable : ~ hint_failures_distinguishable.
Proof.
  intros H.
  apply (H hinted_solved_world (the_game hinted_solved_world)
           env_blocked env_no_piece).
  - apply reachable_hinted_solved.
  - vm_compute. reflexivity.
  - vm_compute. reflexivity.
  - vm_compute. reflexivity.
  - vm_compute. reflexivity.
  - vm_compute. reflexivity.
Qed.

(** C6, amended: a hint request with the cooldown elapsed and no eligible
    piece fails with no state change, and is reported as a refusal by the
    cooldown is: [use_hint] returns [False], and the route answers
    [success = False] with the message [Hint not available yet!] and the
    snapshot of the unchanged state, whose [can_use_hint] field is a later
    reading of the cooldown. *)
Theorem hint_failure_reported (w : World) (g : Game) (e : Env) :
  reachable w -> game w = Some g ->
  can_use_hint g (dt_check e) = false \/
  (can_use_hint g (dt_check e) = true /\
   filter hint_eligible (pieces g) = []) ->
  exists snap,
    get_game_state g (dt_snapshot e) = Ok snap /\
    snap_can_use_hint snap = can_use_hint g (dt_snapshot e) /\
    use_hint g (session w) (dt_check e) (dt_stamp e) (hint_choice e)
    = (false, g, session w) /\
    handle e UseHint w = (RespHint false "Hint not available yet!" snap, w).
Proof.
  intros Hw Hg Hfail.
  assert (Hu : use_hint g (session w) (dt_check e) (dt_stamp e) (hint_choice e)
               = (false, g, session w)).
  { destruct Hfail as [Hc|[_ Hn]].
    - unfold use_hint. now rewrite Hc.
    - now apply use_hint_no_piece. }
  destruct (refused_hint_response e w g (reachable_inv w Hw) Hg Hu)
    as [snap [Hs Hr]].
  exists snap. split; [exact Hs|]. split; [|auto].
  unfold get_game_state in Hs.
  destruct (nth_error levels (current_level g)); [|discriminate].
  now injection Hs as <-.
Qed.

Lemma hint_failure_reported_witness :
  exists snap,
    get_game_state (the_game hinted_solved_world) (dt_snapshot env_no_piece)
    = Ok snap /\
    snap_can_use_hint snap
    = can_use_hint (the_game hinted_solved_world) (dt_snapshot env_no_piece) /\
    use_hint (the_game hinted_solved_world) (session hinted_solved_world)
             (dt_check env_no_piece) (dt_stamp env_no_piece)
             (hint_choice env_no_piece)
    = (false, the_game hinted_solved_world, session hinted_solved_world) /\
    handle env_no_piece UseHint hinted_solved_world
    = (RespHint false "Hint not available yet!" snap, hinted_solved_world).
Proof.
  apply (hint_failure_reported hinted_solved_world
           (the_game hinted_solved_world) env_no_piece).
  - apply reachable_hinted_solved.
  - vm_compute. reflexivity.
  - right. split; vm_compute; reflexivity.
Defined.

(** * The scramble *)

Section Scramble.

Variables (pw ph : Z) (r : ScrambleRandom).
Hypothesis Hvalid : valid_random r.

Lemma positions_from_length (jit : nat -> Z * Z) (cells : list (Z * Z)) (k : nat) :
  List.length (positions_from pw ph jit cells k) = List.length cells.
Proof.
  revert k. induction cells as [|[row col] rest IH]; intros k; simpl;
    [reflexivity | now rewrite IH].
Qed.

Lemma available_positions_length (n : Z) (jit : nat -> Z * Z) :
  List.length (available_positions pw ph n jit)
  = (Z.to_nat (tray_rows n + 2) * 4)%nat.
Proof.
  unfold available_positions.
  now rewrite positions_from_length, grid_cells_length.
Qed.

(** There are more candidate cells than pieces. *)
Lemma more_cells_than_pieces (n : nat) (jit : nat -> Z * Z) :
  (n < List.length (available_positions pw ph (Z.of_nat n) jit))%nat.
Proof.
  rewrite available_positions_length. unfold tray_rows.
  assert (H : Z.of_nat n < ((Z.of_nat n + 4 - 1) / 4 + 2) * 4)
    by (Z.div_mod_to_equations; lia).
  assert (H0 : 0 <= (Z.of_nat n + 4 - 1) / 4 + 2)
    by (Z.div_mod_to_equations; lia).
  lia.
Qed.

Lemma shuffle_perm_length (len : nat) :
  List.length (shuffle_perm r len) = len.
Proof.
  destruct Hvalid as [_ [Hp _]].
  rewrite (Permutation_length (Hp len)). apply length_seq.
Qed.

Lemma shuffle_perm_NoDup (len : nat) : NoDup (shuffle_perm r len).
Proof.
  destruct Hvalid as [_ [Hp _]].
  apply Permutation_NoDup with (l := seq 0 len);
    [now apply Permutation_sym | apply seq_NoDup].
Qed.

Lemma tray_slot_in_range (len a : nat) :
  (a < len)%nat -> (tray_slot r len a < len)%nat.
Proof.
  intros Ha. destruct Hvalid as [_ [Hp _]].
  assert (Hin : In (tray_slot r len a) (shuffle_perm r len)).
  { apply nth_In. now rewrite shuffle_perm_length. }
  apply (Permutation_in _ (Hp len)) in Hin. apply in_seq in Hin. lia.
Qed.

Lemma tray_slot_injective (len a b : nat) :
  (a < len)%nat -> (b < len)%nat -> a <> b ->
  tray_slot r len a <> tray_slot r len b.
Proof.
  intros Ha Hb Hab E. apply Hab.
  apply (proj1 (NoDup_nth (shuffle_perm r len) 0%nat) (shuffle_perm_NoDup len));
    rewrite ?shuffle_perm_length; assumption.
Qed.

Lemma shuffled_length (len : nat) (l : list (Z * Z)) :
  List.length (shuffled (shuffle_perm r len) l) = len.
Proof. unfold shuffled. now rewrite length_map, shuffle_perm_length. Qed.

Lemma shuffled_nth (len a : nat) (l : list (Z * Z)) :
  (a < len)%nat ->
  nth a (shuffled (shuffle_perm r len) l) (0, 0)
  = nth (tray_slot r len a) l (0, 0).
Proof.
  intros Ha. unfold shuffled, tray_slot.
  rewrite nth_indep with (d' := nth 0%nat l (0, 0))
    by now rewrite length_map, shuffle_perm_length.
  apply (map_nth (fun k => nth k l (0, 0))).
Qed.

Lemma assign_positions_nth (avail : list (Z * Z)) (jit : nat -> Z * Z)
      (i a : nat) (ps : list PuzzlePiece) (p : PuzzlePiece) :
  nth_error ps a = Some p ->
  nth_error (assign_positions avail jit i ps) a
  = Some (if negb (is_placed p) && (i + a <? List.length avail)%nat
          then scatter p (nth (i + a)%nat avail (0, 0)) (jit (i + a)%nat)
          else p).
Proof.
  revert i a. induction ps as [|q rest IH]; intros i a H.
  - destruct a; discriminate.
  - destruct a as [|a]; simpl in *.
    + injection H as ->. now rewrite Nat.add_0_r.
    + rewrite (IH (S i) a H). now rewrite Nat.add_succ_r.
Qed.

(** What the scramble makes of an unplaced piece: the position of its
    candidate cell plus the second jitter, clamped. *)
Lemma scramble_list_nth (ps : list PuzzlePiece) (a : nat) (p : PuzzlePiece) :
  nth_error ps a = Some p -> is_placed p = false ->
  let avail := available_positions pw ph (Z.of_nat (List.length ps))
                                   (cell_jitter r) in
  nth_error (scramble_list pw ph r ps) a
  = Some (scatter p (nth (tray_slot r (List.length avail) a) avail (0, 0))
                  (piece_jitter r a)).
Proof.
  intros Hn Hp avail. unfold scramble_list. fold avail.
  rewrite (assign_positions_nth _ _ 0 a ps p Hn). rewrite Hp. simpl.
  assert (Ha : (a < List.length avail)%nat).
  { apply Nat.lt_trans with (List.length ps).
    - apply nth_error_Some. congruence.
    - apply more_cells_than_pieces. }
  rewrite shuffled_length.
  apply Nat.ltb_lt in Ha. rewrite Ha. apply Nat.ltb_lt in Ha.
  now rewrite shuffled_nth.
Qed.

End Scramble.

Lemma scatter_in_bounds (p : PuzzlePiece) (pos jit : Z * Z) :
  0 < width p <= 200 -> 0 < height p <= 225 ->
  in_tray_bounds (scatter p pos jit).
Proof.
  intros Hw Hh. unfold in_tray_bounds, scatter, clamp_x, clamp_y, set_xy,
    pieces_area_x, screen_width, screen_height. cbn [x y width height]. lia.
Qed.

Lemma level_piece_size (i : nat) (level : PuzzleLevel) :
  nth_error levels i = Some level ->
  0 < puzzle_width / fst (grid_size level) <= 200 /\
  0 < puzzle_height / snd (grid_size level) <= 225.
Proof.
  intros H.
  do 8 (destruct i as [|i]; [inversion H; subst; vm_compute; intuition discriminate|]).
  destruct i; discriminate.
Qed.

(** Every target lies left of the tray. *)
Lemma create_pieces_from_target (pw ph cols : Z) (cells : list (Z * Z)) (id : Z) :
  0 < pw -> cols * pw <= puzzle_width ->
  (forall row col, In (row, col) cells -> 0 <= col < cols) ->
  Forall (fun p => correct_x p < pieces_area_x - 50)
         (create_pieces_from pw ph cells id).
Proof.
  intros Hpw Hc. revert id.
  induction cells as [|[row col] rest IH]; intros id Hin;
    cbn [create_pieces_from]; constructor.
  - unfold new_piece. cbn [correct_x].
    specialize (Hin row col (or_introl eq_refl)).
    assert (H : col * pw <= (cols - 1) * pw)
      by (apply Z.mul_le_mono_nonneg_r; lia).
    rewrite Z.mul_sub_distr_r in H.
    unfold puzzle_x, pieces_area_x, puzzle_width in *. lia.
  - apply IH. intros row' col' H. apply (Hin row' col'). now right.
Qed.

Lemma fresh_pieces_target (i : nat) (level : PuzzleLevel) :
  nth_error levels i = Some level ->
  Forall (fun p => correct_x p < pieces_area_x - 50) (fresh_pieces level).
Proof.
  intros H. pose proof (levels_grid i level H) as [Hc Hr].
  pose proof (level_piece_size i level H) as [Hw _].
  unfold fresh_pieces. destruct (grid_size level) as [cols rows]. simpl in *.
  apply create_pieces_from_target with (cols := cols).
  - lia.
  - apply Z.mul_div_le. lia.
  - intros row col Hin. apply in_grid_cells in Hin. tauto.
Qed.

Lemma fresh_pieces_size (i : nat) (level : PuzzleLevel) :
  nth_error levels i = Some level ->
  Forall (fun p => is_placed p = false /\ 0 < width p <= 200 /\
                   0 < height p <= 225) (fresh_pieces level).
Proof.
  intros H. pose proof (level_piece_size i level H) as [Hw Hh].
  unfold fresh_pieces. destruct (grid_size level) as [cols rows]. simpl in *.
  eapply Forall_impl; [|apply create_pieces_from_fresh].
  simpl. intros p [H1 [_ [_ [_ [_ [H6 H7]]]]]]. rewrite H6, H7. auto.
Qed.

(** The piece at index [a] after loading a level is the fresh piece at
    that index, scattered from its candidate cell. *)
Lemma loaded_piece_shape (i : nat) (level : PuzzleLevel) (r : ScrambleRandom)
      (a : nat) (q : PuzzlePiece) :
  nth_error levels i = Some level -> valid_random r ->
  nth_error (loaded_pieces level r) a = Some q ->
  let pw := puzzle_width / fst (grid_size level) in
  let ph := puzzle_height / snd (grid_size level) in
  let avail := available_positions
                 pw ph (Z.of_nat (List.length (loaded_pieces level r)))
                 (cell_jitter r) in
  exists p,
    nth_error (fresh_pieces level) a = Some p /\
    is_placed p = false /\ 0 < width p <= 200 /\ 0 < height p <= 225 /\
    correct_x p < pieces_area_x - 50 /\
    q = scatter p (nth (tray_slot r (List.length avail) a) avail (0, 0))
                (piece_jitter r a).
Proof.
  intros Hl Hv Hq pw ph avail.
  assert (Ha : (a < List.length (fresh_pieces level))%nat).
  { rewrite <- loaded_pieces_length with (r := r).
    apply nth_error_Some. congruence. }
  destruct (nth_error (fresh_pieces level) a) as [p|] eqn:Hp;
    [|apply nth_error_None in Hp; lia].
  pose proof (nth_error_In _ _ Hp) as Hin.
  pose proof (fresh_pieces_size i level Hl) as Hsz.
  pose proof (fresh_pieces_target i level Hl) as Htg.
  rewrite Forall_forall in Hsz, Htg.
  destruct (Hsz p Hin) as [Hpl [Hw Hh]]. specialize (Htg p Hin).
  exists p. split; [reflexivity|]. split; [exact Hpl|]. split; [exact Hw|].
  split; [exact Hh|]. split; [exact Htg|].
  pose proof (scramble_list_nth pw ph r Hv (fresh_pieces level) a p Hp Hpl) as Hs.
  cbv zeta in Hs. subst avail.
  rewrite loaded_pieces_length.
  unfold loaded_pieces in Hq. subst pw ph.
  destruct (grid_size level) as [cols rows]. cbn [fst snd] in *.
  rewrite Hs in Hq. now injection Hq as <-.
Qed.

(** C7, as stated, fails: with no jitter and a shuffle that leaves the
    list as it is, pieces 2 and 3 of the first level are both clamped to
    [(1000, 100)]. *)
Lemma scramble_positions_not_distinct : ~ scramble_postcondition_as_stated.
Proof.
  intros H.
  destruct (H (mkGame 0 0 None false 0 0 0 0 None [] None 0) 0%nat 1000%Q
              identity_shuffle) as [_ [Hnd _]].
  - vm_compute. lia.
  - apply valid_identity_shuffle.
  - vm_compute in Hnd.
    inversion Hnd as [|? ? _ H1]; subst.
    inversion H1 as [|? ? _ H2]; subst.
    inversion H2 as [|? ? Hno _]; subst.
    apply Hno. left. reflexivity.
Qed.

(** C7, amended: after a level is loaded, for every outcome of the random
    draws, every piece is within the tray and screen bounds, no piece is
    on its target, and the pieces are scattered from pairwise different
    candidate cells of the tray grid: each position is that of the piece's
    own cell plus the second jitter, clamped (so two positions may
    coincide). *)
Theorem scramble_postcondition (g : Game) (i : nat) (now : Q)
        (r : ScrambleRandom) (level : PuzzleLevel) :
  nth_error levels i = Some level -> valid_random r ->
  let ps := pieces (snd (load_level g i now r)) in
  let n := List.length ps in
  let avail := available_positions
                 (puzzle_width / fst (grid_size level))
                 (puzzle_height / snd (grid_size level))
                 (Z.of_nat n) (cell_jitter r) in
  let cells := List.length avail in
  n = (Z.to_nat (snd (grid_size level)) * Z.to_nat (fst (grid_size level)))%nat /\
  Forall in_tray_bounds ps /\
  Forall (fun p => position p <> target p) ps /\
  (forall a b, (a < n)%nat -> (b < n)%nat -> a <> b ->
               tray_slot r cells a <> tray_slot r cells b) /\
  (forall a p, nth_error ps a = Some p ->
               (tray_slot r cells a < cells)%nat /\
               position p
               = (clamp_x p (fst (nth (tray_slot r cells a) avail (0, 0))
                             + fst (piece_jitter r a)),
                  clamp_y p (snd (nth (tray_slot r cells a) avail (0, 0))
                             + snd (piece_jitter r a)))).
Proof.
  intros Hl Hv. rewrite (load_level_loaded g i now r level Hl).
  cbv zeta. cbn [snd pieces].
  set (ps := loaded_pieces level r). set (n := List.length ps).
  set (avail := available_positions _ _ (Z.of_nat n) (cell_jitter r)).
  set (cells := List.length avail).
  assert (Hcells : (n < cells)%nat) by apply more_cells_than_pieces.
  split; [unfold n, ps; now rewrite loaded_pieces_length, fresh_pieces_length|].
  split; [|split; [|split]].
  - apply Forall_forall. intros q Hq.
    destruct (In_nth_error _ _ Hq) as [a Ha].
    destruct (loaded_piece_shape i level r a q Hl Hv Ha)
      as [p [_ [_ [Hw [Hh [_ ->]]]]]].
    now apply scatter_in_bounds.
  - apply Forall_forall. intros q Hq.
    destruct (In_nth_error _ _ Hq) as [a Ha].
    destruct (loaded_piece_shape i level r a q Hl Hv Ha)
      as [p [_ [_ [Hw [Hh [Ht ->]]]]]].
    intros E. unfold position, target in E. injection E as Ex _.
    revert Ex. unfold scatter, clamp_x, set_xy. cbn [x correct_x width].
    unfold pieces_area_x in *. lia.
  - intros a b Ha Hb Hab. apply tray_slot_injective; try assumption; lia.
  - intros a q Ha.
    assert (Hlt : (a < n)%nat) by (apply nth_error_Some; congruence).
    split; [apply tray_slot_in_range; [assumption | lia]|].
    destruct (loaded_piece_shape i level r a q Hl Hv Ha)
      as [p [_ [_ [_ [_ [_ ->]]]]]].
    reflexivity.
Qed.

Lemma scramble_postcondition_witness :
  let ps := pieces (snd (load_level started_game 0 1000 identity_shuffle)) in
  let n := List.length ps in
  let avail := available_positions
                 (puzzle_width / fst (grid_size cute_cat))
                 (puzzle_height / snd (grid_size cute_cat))
                 (Z.of_nat n) (cell_jitter identity_shuffle) in
  let cells := List.length avail in
  n = (Z.to_nat (snd (grid_size cute_cat)) * Z.to_nat (fst (grid_size cute_cat)))%nat /\
  Forall in_tray_bounds ps /\
  Forall (fun p => position p <> target p) ps /\
  (forall a b, (a < n)%nat -> (b < n)%nat -> a <> b ->
               tray_slot identity_shuffle cells a
               <> tray_slot identity_shuffle cells b) /\
  (forall a p, nth_error ps a = Some p ->
               (tray_slot identity_shuffle cells a < cells)%nat /\
               position p
               = (clamp_x p (fst (nth (tray_slot identity_shuffle cells a)
                                      avail (0, 0))
                             + fst (piece_jitter identity_shuffle a)),
                  clamp_y p (snd (nth (tray_slot identity_shuffle cells a)
                                      avail (0, 0))
                             + snd (piece_jitter identity_shuffle a)))).
Proof.
  apply (scramble_postcondition started_game 0 1000 identity_shuffle cute_cat).
  - reflexivity.
  - apply valid_identity_shuffle.
Defined.

Example scramble_first_level_positions :
  map position (pieces started_game)
  = [(700, 100); (915, 100); (1000, 100); (1000, 100); (700, 340); (915, 340)].
Proof. vm_compute. reflexivity. Qed.

(** * The desktop game *)

Lemma split_nth (ps : list PuzzlePiece) (i : nat) (p : PuzzlePiece) :
  nth_error ps i = Some p ->
  exists l1 l2,
    ps = l1 ++ p :: l2 /\ List.length l1 = i /\
    (forall a, replace_nth i a ps = l1 ++ a :: l2) /\
    remove_nth i ps = l1 ++ l2.
Proof.
  revert i. induction ps as [|q rest IH]; intros i H.
  - destruct i; discriminate.
  - destruct i as [|i].
    + injection H as ->. exists [], rest. repeat split.
    + destruct (IH i H) as [l1 [l2 [H1 [H2 [H3 H4]]]]].
      exists (q :: l1), l2.
      split; [simpl; now rewrite H1 at 1|]. split; [simpl; now rewrite H2|].
      split.
      * intros a. specialize (H3 a). unfold replace_nth in *.
        change (firstn (S i) (q :: rest)) with (q :: firstn i rest).
        change (skipn (S (S i)) (q :: rest)) with (skipn (S i) rest).
        rewrite <- !app_comm_cons. f_equal. exact H3.
      * unfold remove_nth in *.
        change (firstn (S i) (q :: rest)) with (q :: firstn i rest).
        change (skipn (S (S i)) (q :: rest)) with (skipn (S i) rest).
        rewrite <- !app_comm_cons. f_equal. exact H4.
Qed.

Lemma snapped_ok_unplaced (p : PuzzlePiece) : is_placed p = false -> snapped_ok p.
Proof. intros H Hp. congruence. Qed.

Lemma snapped_ok_set_dragging (p : PuzzlePiece) (b : bool) :
  snapped_ok p -> snapped_ok (set_dragging p b).
Proof. intros H. exact H. Qed.

Lemma replace_nth_snapped_ok (ps : list PuzzlePiece) (i : nat) (p a : PuzzlePiece) :
  nth_error ps i = Some p -> Forall snapped_ok ps -> snapped_ok a ->
  Forall snapped_ok (replace_nth i a ps).
Proof.
  intros Hn F Ha. destruct (split_nth ps i p Hn) as [l1 [l2 [H1 [_ [H3 _]]]]].
  rewrite H3. rewrite H1 in F. apply Forall_app in F. destruct F as [F1 F2].
  inversion F2; subst. apply Forall_app. split; [assumption|].
  constructor; assumption.
Qed.

Lemma replace_nth_nth (ps : list PuzzlePiece) (i : nat) (p a : PuzzlePiece) :
  nth_error ps i = Some p -> nth_error (replace_nth i a ps) i = Some a.
Proof.
  intros Hn. destruct (split_nth ps i p Hn) as [l1 [l2 [_ [H2 [H3 _]]]]].
  rewrite H3, nth_error_app2 by lia. now rewrite H2, Nat.sub_diag.
Qed.

Lemma app_same_length (l1 m1 l2 m2 : list PuzzlePiece) :
  l1 ++ l2 = m1 ++ m2 -> List.length l1 = List.length m1 ->
  l1 = m1 /\ l2 = m2.
Proof.
  revert m1. induction l1 as [|a l1 IH]; intros [|b m1] H L;
    simpl in *; try discriminate; [now split|].
  injection H as -> H. destruct (IH m1 H) as [-> ->]; [lia | now split].
Qed.

Lemma replace_nth_twice (ps : list PuzzlePiece) (i : nat) (p a b : PuzzlePiece) :
  nth_error ps i = Some p ->
  replace_nth i b (replace_nth i a ps) = replace_nth i b ps.
Proof.
  intros Hn. destruct (split_nth ps i p Hn) as [l1 [l2 [_ [H2 [H3 _]]]]].
  pose proof (replace_nth_nth ps i p a Hn) as Ha. rewrite H3 in Ha.
  destruct (split_nth _ i a Ha) as [m1 [m2 [K1 [K2 [K3 _]]]]].
  rewrite !H3, K3.
  destruct (app_same_length l1 m1 (a :: l2) (a :: m2) K1) as [-> E]; [lia|].
  now injection E as ->.
Qed.

(** Replacing an unplaced piece keeps every placed piece in the list. *)
Lemma replace_nth_placed_remain (ps : list PuzzlePiece) (i : nat) (p a : PuzzlePiece) :
  nth_error ps i = Some p -> is_placed p = false ->
  placed_remain ps (replace_nth i a ps).
Proof.
  intros Hn Hp q Hq Hplaced.
  destruct (split_nth ps i p Hn) as [l1 [l2 [H1 [_ [H3 _]]]]].
  rewrite H3. rewrite H1 in Hq. apply in_app_or in Hq.
  apply in_or_app. destruct Hq as [Hq|[Hq|Hq]]; [now left | congruence|].
  right. now right.
Qed.

Lemma placed_remain_refl (ps : list PuzzlePiece) : placed_remain ps ps.
Proof. intros p Hp _. exact Hp. Qed.

Lemma placed_remain_trans (ps qs rs : list PuzzlePiece) :
  placed_remain ps qs -> placed_remain qs rs -> placed_remain ps rs.
Proof. intros H1 H2 p Hp Hplaced. apply H2; [now apply H1 | exact Hplaced]. Qed.

Lemma placed_kept_remain (ps qs : list PuzzlePiece) :
  placed_kept ps qs -> placed_remain ps qs.
Proof.
  unfold placed_kept. induction 1 as [|p q ps qs Hpq _ IH];
    intros a Ha Hplaced; [destruct Ha|].
  destruct Ha as [<-|Ha]; [left; now apply Hpq | right; now apply IH].
Qed.

Lemma find_index_some {A : Type} (f : A -> bool) (l : list A) (j : nat) :
  find_index f l = Some j -> exists a, nth_error l j = Some a /\ f a = true.
Proof.
  revert j. induction l as [|a rest IH]; intros j H; simpl in H; [discriminate|].
  destruct (f a) eqn:Fa.
  - injection H as <-. now exists a.
  - destruct (find_index f rest) as [j'|]; [|discriminate].
    injection H as <-. now apply IH.
Qed.

(** The piece picked up by a click is not placed. *)
Lemma top_piece_at_unplaced (pos : Z * Z) (ps : list PuzzlePiece) (i : nat)
      (p : PuzzlePiece) :
  top_piece_at pos ps = Some i -> nth_error ps i = Some p ->
  is_placed p = false.
Proof.
  unfold top_piece_at. intros H Hn.
  destruct (find_index _ (rev ps)) as [j|] eqn:F; [|discriminate].
  injection H as <-.
  destruct (find_index_some _ _ _ F) as [a [Ha Fa]].
  rewrite nth_error_rev in Ha.
  destruct (j <? List.length ps)%nat eqn:Lt; [|discriminate].
  replace (List.length ps - S j)%nat with (List.length ps - 1 - j)%nat in Ha by lia.
  rewrite Hn in Ha. injection Ha as <-.
  apply andb_prop in Fa. destruct Fa as [_ Fa]. now apply negb_true_iff in Fa.
Qed.

Lemma load_level_snapped_ok (g : Game) (i : nat) (now : Q) (r : ScrambleRandom) :
  Forall snapped_ok (pieces g) ->
  Forall snapped_ok (pieces (snd (load_level g i now r))).
Proof.
  intros F. destruct (nth_error levels i) as [level|] eqn:E.
  - rewrite (load_level_loaded g i now r level E). cbn [snd pieces].
    apply unplaced_snapped_ok, loaded_pieces_unplaced.
  - now rewrite (load_level_out_of_range g i now r E).
Qed.

Lemma load_level_failed (g : Game) (i : nat) (now : Q) (r : ScrambleRandom) :
  fst (load_level g i now r) = false -> snd (load_level g i now r) = g.
Proof.
  destruct (nth_error levels i) as [level|] eqn:E.
  - rewrite (load_level_loaded g i now r level E). discriminate.
  - now rewrite (load_level_out_of_range g i now r E).
Qed.

Lemma next_level_snapped_ok (g : Game) (now : Q) (r : ScrambleRandom) :
  Forall snapped_ok (pieces g) ->
  Forall snapped_ok (pieces (snd (next_level g now r))).
Proof.
  intros F. unfold next_level.
  destruct (current_level g <? List.length levels - 1)%nat; [|exact F].
  pose proof (load_level_snapped_ok
                (set_hints_used (set_current_level g (current_level g + 1)) 0)
                (current_level g + 1) now r F) as H.
  cbn [current_level set_hints_used set_current_level].
  destruct (load_level _ _ now r) as [ok g3]. cbn [snd] in H.
  destruct ok; exact H.
Qed.

Lemma next_level_failed (g : Game) (now : Q) (r : ScrambleRandom) :
  fst (next_level g now r) = false ->
  pieces (snd (next_level g now r)) = pieces g.
Proof.
  unfold next_level.
  destruct (current_level g <? List.length levels - 1)%nat; [|reflexivity].
  pose proof (load_level_failed
                (set_hints_used (set_current_level g (current_level g + 1)) 0)
                (current_level g + 1) now r) as H.
  cbn [current_level set_hints_used set_current_level].
  destruct (load_level _ _ now r) as [ok g3]. cbn [fst snd] in *.
  destruct ok; [discriminate|]. intros _. now rewrite H.
Qed.

Lemma reload_inv (d : JigsawPuzzle) (loaded : bool * Game) :
  Forall snapped_ok (pieces (snd loaded)) ->
  (fst loaded = false -> pieces (snd loaded) = pieces (core d)) ->
  selection_ok d -> desktop_inv (reload d loaded).
Proof.
  intros F Hf Hs. destruct loaded as [ok g]. cbn [fst snd] in *.
  unfold reload. split; [exact F|].
  intros i Hi. cbn [selected_piece core] in *. destruct ok.
  - unfold detach in Hi. destruct (selected_piece d) as [|j|q]; try discriminate.
    destruct (nth_error (pieces (core d)) j); discriminate.
  - rewrite (Hf eq_refl). now apply Hs.
Qed.

Lemma advance_or_restart_inv (e : Env) (d : JigsawPuzzle) :
  desktop_inv d -> desktop_inv (advance_or_restart e d).
Proof.
  intros [F Hs]. unfold advance_or_restart.
  destruct (current_level (core d) <? List.length levels - 1)%nat.
  - apply reload_inv; [now apply next_level_snapped_ok | | exact Hs].
    apply next_level_failed.
  - apply reload_inv; [now apply load_level_snapped_ok | | exact Hs].
    intros H. now rewrite load_level_failed.
Qed.

Lemma use_hint_pieces (g : Game) (s : Session) (now_check now_stamp : Z)
      (choice : nat) :
  exists k,
    pieces (snd (fst (use_hint g s now_check now_stamp choice))) = pieces g \/
    pieces (snd (fst (use_hint g s now_check now_stamp choice)))
    = reveal_kth k (pieces g).
Proof.
  unfold use_hint. destruct (can_use_hint g now_check); cbn [negb].
  - destruct (filter hint_eligible (pieces g)) as [|p0 l].
    + exists 0%nat. now left.
    + eexists. right. reflexivity.
  - exists 0%nat. now left.
Qed.

Lemma reveal_kth_nth (k i : nat) (ps : list PuzzlePiece) (p : PuzzlePiece) :
  nth_error ps i = Some p ->
  exists q, nth_error (reveal_kth k ps) i = Some q /\
            is_placed q = is_placed p.
Proof.
  intros H.
  pose proof (f_equal (fun l => nth_error l i) (reveal_kth_is_placed k ps)) as E.
  cbv beta in E. rewrite !nth_error_map, H in E.
  destruct (nth_error (reveal_kth k ps) i) as [q|]; [|discriminate].
  exists q. split; [reflexivity|]. simpl in E. congruence.
Qed.

Lemma desktop_use_hint_inv (e : Env) (d : JigsawPuzzle) :
  desktop_inv d -> desktop_inv (desktop_use_hint e d).
Proof.
  intros [F Hs]. unfold desktop_use_hint, desktop_inv, selection_ok, set_core.
  cbn [core selected_piece].
  destruct (use_hint_pieces (core d) empty_session (dt_check e) (dt_stamp e)
                            (hint_choice e)) as [k [-> | ->]].
  - split; assumption.
  - split; [now apply reveal_kth_snapped_ok|].
    intros i Hi. destruct (Hs i Hi) as [p [Hp Hu]].
    destruct (reveal_kth_nth k i _ p Hp) as [q [Hq Hpl]].
    exists q. split; [exact Hq | congruence].
Qed.

Lemma desktop_use_hint_remain (e : Env) (d : JigsawPuzzle) :
  placed_remain (pieces (core d)) (pieces (core (desktop_use_hint e d))).
Proof.
  unfold desktop_use_hint, set_core. cbn [core].
  destruct (use_hint_pieces (core d) empty_session (dt_check e) (dt_stamp e)
                            (hint_choice e)) as [k [-> | ->]].
  - apply placed_remain_refl.
  - apply placed_kept_remain, reveal_kth_placed_kept.
Qed.

Lemma release_selected (g : Game) (i : nat) (ox oy : Z) (a : PuzzlePiece) :
  nth_error (pieces g) i = Some a ->
  release (mkPuzzle g (Selected i) ox oy)
  = mkPuzzle (set_pieces g (replace_nth i (set_dragging a false) (pieces g)))
             Unselected ox oy.
Proof.
  intros H. unfold release, selected_object, write_selected.
  cbn [selected_piece core mouse_offset_x mouse_offset_y]. now rewrite H.
Qed.

Lemma release_detached (g : Game) (q : PuzzlePiece) (ox oy : Z) :
  release (mkPuzzle g (Detached q) ox oy) = mkPuzzle g Unselected ox oy.
Proof. reflexivity. Qed.

(** Releasing the mouse button: the invariant is kept and every placed
    piece is still in the list, unchanged. *)
Lemma handle_mouse_up_spec (e : Env) (pos : Z * Z) (d d' : JigsawPuzzle) :
  desktop_inv d -> handle_mouse_up e pos d = Ok d' ->
  desktop_inv d' /\ placed_remain (pieces (core d)) (pieces (core d')).
Proof.
  intros [F Hs] H. destruct d as [g sel ox oy].
  unfold selection_ok in Hs. cbn [core selected_piece] in *.
  unfold handle_mouse_up, selected_object in H. cbn [core selected_piece] in H.
  destruct sel as [|i|q].
  - injection H as <-. split; [now split | apply placed_remain_refl].
  - destruct (Hs i eq_refl) as [p [Hp Hu]]. rewrite Hp in H.
    assert (Hdone : forall a g',
               pieces g' = replace_nth i a (pieces g) -> snapped_ok a ->
               desktop_inv (mkPuzzle g' Unselected ox oy) /\
               placed_remain (pieces g) (pieces g')).
    { intros a g' Hg' Ha. split.
      - split; [|intros j Hj; discriminate]. cbn [core]. rewrite Hg'.
        now apply replace_nth_snapped_ok with (p := p).
      - rewrite Hg'. now apply replace_nth_placed_remain with (p := p). }
    destruct (is_near_correct_position p).
    + unfold write_selected in H.
      cbn [core selected_piece mouse_offset_x mouse_offset_y pieces set_pieces] in H.
      set (p1 := set_is_placed (set_xy p (correct_x p) (correct_y p)) true) in *.
      assert (Hp1 : nth_error (replace_nth i p1 (pieces g)) i = Some p1)
        by now apply replace_nth_nth with (p := p).
      assert (Hok : snapped_ok (set_dragging p1 false))
        by (intros _; split; reflexivity).
      destruct (forallb is_placed (replace_nth i p1 (pieces g))).
      * unfold desktop_complete_level in H.
        destruct (calculate_level_score _ (time_now e)) as [score|];
          [|discriminate].
        injection H as <-. unfold set_core.
        cbn [core selected_piece mouse_offset_x mouse_offset_y].
        rewrite release_selected with (a := p1) by exact Hp1.
        apply Hdone with (a := set_dragging p1 false); [|exact Hok].
        cbn [pieces set_pieces set_puzzle_complete set_total_score].
        now apply replace_nth_twice with (p := p).
      * injection H as <-.
        rewrite release_selected with (a := p1) by exact Hp1.
        apply Hdone with (a := set_dragging p1 false); [|exact Hok].
        cbn [pieces set_pieces]. now apply replace_nth_twice with (p := p).
    + injection H as <-. rewrite release_selected with (a := p) by exact Hp.
      apply Hdone with (a := set_dragging p false); [reflexivity|].
      now apply snapped_ok_unplaced.
  - assert (Hdone : forall g',
               pieces g' = pieces g ->
               desktop_inv (mkPuzzle g' Unselected ox oy) /\
               placed_remain (pieces g) (pieces g')).
    { intros g' Hg'. rewrite Hg'. split; [|apply placed_remain_refl].
      split; [cbn [core]; now rewrite Hg' | intros j Hj; discriminate]. }
    destruct (is_near_correct_position q).
    + unfold write_selected in H.
      cbn [core selected_piece mouse_offset_x mouse_offset_y] in H.
      destruct (forallb is_placed (pieces g)).
      * unfold desktop_complete_level in H.
        destruct (calculate_level_score g (time_now e)) as [score|];
          [|discriminate].
        injection H as <-. unfold set_core.
        cbn [core selected_piece mouse_offset_x mouse_offset_y].
        rewrite release_detached. now apply Hdone.
      * injection H as <-. rewrite release_detached. now apply Hdone.
    + injection H as <-. rewrite release_detached. now apply Hdone.
Qed.

Lemma handle_mouse_motion_spec (pos : Z * Z) (d : JigsawPuzzle) :
  desktop_inv d ->
  desktop_inv (handle_mouse_motion pos d) /\
  placed_remain (pieces (core d)) (pieces (core (handle_mouse_motion pos d))).
Proof.
  intros [F Hs]. destruct d as [g sel ox oy].
  unfold selection_ok in Hs. cbn [core selected_piece] in *.
  unfold handle_mouse_motion, selected_object. cbn [core selected_piece].
  destruct sel as [|i|q].
  - split; [now split | apply placed_remain_refl].
  - destruct (Hs i eq_refl) as [p [Hp Hu]]. rewrite Hp.
    destruct (dragging p).
    + unfold write_selected.
      cbn [core selected_piece mouse_offset_x mouse_offset_y pieces set_pieces].
      split; [split|].
      * cbn [core pieces set_pieces].
        apply replace_nth_snapped_ok with (p := p); [assumption..|].
        now apply snapped_ok_unplaced.
      * intros j Hj. cbn [selected_piece] in Hj. injection Hj as <-.
        cbn [core pieces set_pieces]. eexists. split.
        -- now apply replace_nth_nth with (p := p).
        -- exact Hu.
      * now apply replace_nth_placed_remain with (p := p).
    + split; [now split | apply placed_remain_refl].
  - destruct (dragging q).
    + unfold write_selected. cbn [core selected_piece].
      split; [|apply placed_remain_refl].
      split; [exact F | intros j Hj; discriminate].
    + split; [|apply placed_remain_refl].
      split; [exact F | intros j Hj; discriminate].
Qed.

Lemma remove_append_spec (ps : list PuzzlePiece) (i : nat) (p a : PuzzlePiece) :
  nth_error ps i = Some p -> is_placed p = false ->
  Forall snapped_ok ps -> snapped_ok a ->
  Forall snapped_ok (remove_nth i ps ++ [a]) /\
  nth_error (remove_nth i ps ++ [a]) (List.length ps - 1) = Some a /\
  placed_remain ps (remove_nth i ps ++ [a]).
Proof.
  intros Hn Hu F Ha.
  destruct (split_nth ps i p Hn) as [l1 [l2 [H1 [_ [_ H4]]]]].
  rewrite H4. rewrite H1 in F. apply Forall_app in F. destruct F as [F1 F2].
  inversion F2; subst. split; [|split].
  - apply Forall_app. split; [apply Forall_app; now split|].
    now constructor.
  - rewrite nth_error_app2; rewrite !length_app; cbn [List.length]; [|lia].
    replace (_ - _)%nat with 0%nat by lia. reflexivity.
  - intros q Hq Hplaced. apply in_app_or in Hq.
    apply in_or_app. left. apply in_or_app.
    destruct Hq as [Hq|[Hq|Hq]]; [now left | congruence | now right].
Qed.

Lemma handle_mouse_down_inv (e : Env) (pos : Z * Z) (d : JigsawPuzzle) :
  desktop_inv d -> desktop_inv (handle_mouse_down e pos d).
Proof.
  intros Hd. unfold handle_mouse_down.
  destruct (puzzle_complete (core d) && collidepoint next_button_rect pos);
    [now apply advance_or_restart_inv|].
  destruct (collidepoint hint_button_rect pos);
    [now apply desktop_use_hint_inv|].
  destruct (top_piece_at pos (pieces (core d))) as [i|] eqn:T; [|exact Hd].
  destruct (nth_error (pieces (core d)) i) as [p|] eqn:Hp; [|exact Hd].
  pose proof (top_piece_at_unplaced pos _ i p T Hp) as Hu.
  destruct Hd as [F Hs].
  destruct (remove_append_spec (pieces (core d)) i p (set_dragging p true)
                               Hp Hu F (snapped_ok_unplaced _ Hu))
    as [R1 [R2 _]].
  split; [exact R1|].
  intros j Hj. cbn [selected_piece] in Hj. injection Hj as <-.
  cbn [core pieces set_pieces]. eexists. split; [exact R2 | exact Hu].
Qed.

Lemma handle_mouse_down_remain (e : Env) (pos : Z * Z) (d : JigsawPuzzle) :
  desktop_inv d ->
  event_stays_in_level (MouseButtonDown pos) d = true ->
  placed_remain (pieces (core d)) (pieces (core (handle_mouse_down e pos d))).
Proof.
  intros [F Hs] Hin. unfold handle_mouse_down. cbn [event_stays_in_level] in Hin.
  apply negb_true_iff in Hin. rewrite Hin.
  destruct (collidepoint hint_button_rect pos);
    [apply desktop_use_hint_remain|].
  destruct (top_piece_at pos (pieces (core d))) as [i|] eqn:T;
    [|apply placed_remain_refl].
  destruct (nth_error (pieces (core d)) i) as [p|] eqn:Hp;
    [|apply placed_remain_refl].
  pose proof (top_piece_at_unplaced pos _ i p T Hp) as Hu.
  cbn [core pieces set_pieces].
  apply (remove_append_spec (pieces (core d)) i p (set_dragging p true)
                            Hp Hu F (snapped_ok_unplaced _ Hu)).
Qed.

Lemma dispatch_inv (e : Env) (ev : Event) (d d' : JigsawPuzzle) :
  desktop_inv d -> dispatch e ev d = Ok d' -> desktop_inv d'.
Proof.
  intros Hd H. destruct ev as [pos|pos|pos| |]; cbn [dispatch] in H.
  - injection H as <-. now apply handle_mouse_down_inv.
  - now apply (handle_mouse_up_spec e pos d d' Hd H).
  - injection H as <-. now apply handle_mouse_motion_spec.
  - injection H as <-. now apply desktop_use_hint_inv.
  - destruct (puzzle_complete (core d)); injection H as <-;
      [now apply advance_or_restart_inv | exact Hd].
Qed.

Lemma dispatch_remain (e : Env) (ev : Event) (d d' : JigsawPuzzle) :
  desktop_inv d -> event_stays_in_level ev d = true ->
  dispatch e ev d = Ok d' ->
  placed_remain (pieces (core d)) (pieces (core d')).
Proof.
  intros Hd Hin H. destruct ev as [pos|pos|pos| |]; cbn [dispatch] in H.
  - injection H as <-. now apply handle_mouse_down_remain.
  - now apply (handle_mouse_up_spec e pos d d' Hd H).
  - injection H as <-. now apply handle_mouse_motion_spec.
  - injection H as <-. apply desktop_use_hint_remain.
  - cbn [event_stays_in_level] in Hin. apply negb_true_iff in Hin.
    rewrite Hin in H. injection H as <-. apply placed_remain_refl.
Qed.

Lemma desktop_start_inv (saved : Session) (e : Env) :
  desktop_inv (desktop_start saved e).
Proof.
  split; [|intros i Hi; discriminate].
  unfold desktop_start, new_game. cbn [core].
  apply load_level_snapped_ok. constructor.
Qed.

Lemma desktop_reachable_inv (d : JigsawPuzzle) :
  desktop_reachable d -> desktop_inv d.
Proof.
  induction 1 as [saved e|d d' e ev _ IH H].
  - apply desktop_start_inv.
  - now apply (dispatch_inv e ev d d').
Qed.

Lemma level_run_remain (d d' : JigsawPuzzle) :
  desktop_inv d -> level_run d d' ->
  placed_remain (pieces (core d)) (pieces (core d')).
Proof.
  intros Hd H. induction H as [d|d d1 d2 e ev Hin Hstep _ IH].
  - apply placed_remain_refl.
  - apply placed_remain_trans with (pieces (core d1)).
    + now apply (dispatch_remain e ev).
    + apply IH. now apply (dispatch_inv e ev d d1).
Qed.

Lemma play_reachable (evs : list (Env * Event)) (d : JigsawPuzzle) :
  desktop_reachable d -> desktop_reachable (play evs d).
Proof.
  revert d. induction evs as [|[e ev] rest IH]; intros d Hd; [exact Hd|].
  cbn [play]. destruct (dispatch e ev d) as [d'|] eqn:E; [|exact Hd].
  apply IH. now apply (desktop_reachable_step d d' e ev).
Qed.

Lemma play_level_run (evs : list (Env * Event)) (d : JigsawPuzzle) :
  plays_in_level evs d = true -> level_run d (play evs d).
Proof.
  revert d. induction evs as [|[e ev] rest IH]; intros d H; [constructor|].
  cbn [play plays_in_level] in *. apply andb_prop in H. destruct H as [H1 H2].
  destruct (dispatch e ev d) as [d'|] eqn:E; [|constructor].
  apply level_run_cons with (d1 := d') (e := e) (ev := ev); auto.
Qed.

(** * The snap invariant, on both games *)

(** C1: in every reachable state of the web game and of the desktop game
    a placed piece sits on its target, and whatever follows within the
    level (state reads, moves and hints on the web; clicks, drags,
    releases and hints on the desktop) every placed piece is still there
    with the same position and the same flags. *)
Theorem snap_invariant (w : World) (g : Game) (reqs : list (Env * Request))
        (d d' : JigsawPuzzle) :
  reachable w -> game w = Some g ->
  Forall (fun er => stays_in_level (snd er) = true) reqs ->
  desktop_reachable d -> level_run d d' ->
  ((forall p, In p (pieces g) -> is_placed p = true ->
              x p = correct_x p /\ y p = correct_y p) /\
   exists g', game (run_all reqs w) = Some g' /\
              placed_kept (pieces g) (pieces g')) /\
  ((forall p, In p (pieces (core d)) -> is_placed p = true ->
              x p = correct_x p /\ y p = correct_y p) /\
   placed_remain (pieces (core d)) (pieces (core d'))).
Proof.
  intros Hw Hg F Hd Hrun. split.
  - now apply web_snap_invariant.
  - pose proof (desktop_reachable_inv d Hd) as Inv. split.
    + intros p Hp Hplaced. destruct Inv as [Hok _].
      rewrite Forall_forall in Hok. now apply Hok.
    + now apply level_run_remain.
Qed.

Lemma snap_invariant_witness :
  ((forall p, In p (pieces placed_game) -> is_placed p = true ->
              x p = correct_x p /\ y p = correct_y p) /\
   exists g', game (run_all disturbing_requests placed_world) = Some g' /\
              placed_kept (pieces placed_game) (pieces g')) /\
  ((forall p, In p (pieces (core desktop_placed)) -> is_placed p = true ->
              x p = correct_x p /\ y p = correct_y p) /\
   placed_remain (pieces (core desktop_placed))
                 (pieces (core (play desktop_disturbing desktop_placed)))).
Proof.
  apply (snap_invariant placed_world placed_game disturbing_requests
                        desktop_placed (play desktop_disturbing desktop_placed)).
  - apply reachable_placed.
  - vm_compute. reflexivity.
  - repeat constructor.
  - apply play_reachable, desktop_reachable_start.
  - apply play_level_run. vm_compute. reflexivity.
Defined.

Example desktop_drag_snaps :
  map (fun p => (piece_id p, position p, is_placed p, dragging p))
      (pieces (core desktop_placed))
  = [(1, (915, 100), false, false); (2, (1000, 100), false, false);
     (3, (1000, 100), false, false); (4, (700, 340), false, false);
     (5, (915, 340), false, false); (0, (50, 100), true, false)] /\
  selected_piece desktop_placed = Unselected.
Proof. vm_compute. split; reflexivity. Qed.

Example desktop_placed_piece_stays :
  nth_error (pieces (core (play desktop_disturbing desktop_placed))) 5
  = nth_error (pieces (core desktop_placed)) 5.
Proof. vm_compute. reflexivity. Qed.

(** * Further properties of the code *)

(** ** Colours and regions *)

Lemma py_int_nonneg (v : Q) : (0 <= v)%Q -> py_int v = Qfloor v.
Proof.
  destruct v as [n d]. unfold Qle, py_int, Qfloor. simpl. intros H.
  apply Z.quot_div_nonneg; lia.
Qed.

Lemma py_int_neg (v : Q) : ~ (0 <= v)%Q -> py_int v <= 0.
Proof.
  destruct v as [n d]. unfold Qle, py_int. simpl. intros H.
  apply Z.quot_le_upper_bound; lia.
Qed.

(** X1: [clamp_color] truncates and clamps: 255 from 255 up, the integer
    part between 0 and 255, 0 below; the result is always a valid colour
    component. *)
Theorem clamp_color_cases (value : Q) :
  clamp_color value
  = (if Qle_bool 255 value then 255
     else if Qle_bool 0 value then Qfloor value else 0)
  /\ 0 <= clamp_color value <= 255.
Proof.
  split; [|unfold clamp_color; lia].
  unfold clamp_color.
  destruct (Qle_bool 255 value) eqn:E255.
  - apply Qle_bool_iff in E255.
    assert (H0 : (0 <= value)%Q) by (apply Qle_trans with 255%Q; [discriminate|assumption]).
    rewrite (py_int_nonneg value H0).
    apply Qfloor_resp_le in E255. change (Qfloor 255) with 255 in E255. lia.
  - destruct (Qle_bool 0 value) eqn:E0.
    + apply Qle_bool_iff in E0. rewrite (py_int_nonneg value E0).
      assert (Hlt : (value < 255)%Q).
      { apply Qnot_le_lt. intros H. apply Qle_bool_iff in H. congruence. }
      assert (Hf : Qfloor value < 255).
      { apply Z.lt_nge. intros H.
        assert (K : (255 <= value)%Q).
        { apply Qle_trans with (inject_Z (Qfloor value)).
          - change 255%Q with (inject_Z 255). now rewrite <- Zle_Qle.
          - apply Qfloor_le. }
        apply (Qlt_not_le _ _ Hlt K). }
      apply Qfloor_resp_le in E0. change (Qfloor 0) with 0 in E0. lia.
    + assert (H : ~ (0 <= value)%Q)
        by (intros H; apply Qle_bool_iff in H; congruence).
      pose proof (py_int_neg value H). lia.
Qed.

Example clamp_color_samples :
  map clamp_color [(-3 # 2)%Q; 0%Q; (255 # 2)%Q; 255%Q; (511 # 2)%Q; 300%Q]
  = [0; 0; 127; 255; 255; 255].
Proof. reflexivity. Qed.

(** X2: two regions of non-negative size overlap exactly when some point
    is in both, and overlapping does not depend on the order of the two. *)
Theorem overlaps_with_common_point (r other : PuzzleRegion) :
  0 <= region_width r -> 0 <= region_height r ->
  0 <= region_width other -> 0 <= region_height other ->
  (overlaps_with r other = true <->
   exists px py, region_contains_point r px py = true /\
                 region_contains_point other px py = true) /\
  overlaps_with r other = overlaps_with other r.
Proof.
  intros Hw Hh Hw' Hh'. split.
  - unfold overlaps_with, region_contains_point. split.
    + intros H. apply negb_true_iff in H.
      repeat (apply orb_false_elim in H; destruct H as [H ?]).
      repeat match goal with K : (_ <? _) = false |- _ => apply Z.ltb_ge in K end.
      exists (Z.max (region_x r) (region_x other)),
             (Z.max (region_y r) (region_y other)).
      repeat rewrite andb_true_iff. repeat rewrite Z.leb_le. lia.
    + intros [px [py [H1 H2]]].
      repeat rewrite andb_true_iff in H1, H2. repeat rewrite Z.leb_le in H1, H2.
      apply negb_true_iff.
      repeat (apply orb_false_intro); apply Z.ltb_ge; lia.
  - unfold overlaps_with. f_equal.
    destruct (region_x r + region_width r <? region_x other),
             (region_x other + region_width other <? region_x r),
             (region_y r + region_height r <? region_y other),
             (region_y other + region_height other <? region_y r); reflexivity.
Qed.

Lemma overlaps_with_common_point_witness :
  (overlaps_with (mkRegion 0 0 50 50 [1]) (mkRegion 25 25 50 50 [2]) = true <->
   exists px py,
     region_contains_point (mkRegion 0 0 50 50 [1]) px py = true /\
     region_contains_point (mkRegion 25 25 50 50 [2]) px py = true) /\
  overlaps_with (mkRegion 0 0 50 50 [1]) (mkRegion 25 25 50 50 [2])
  = overlaps_with (mkRegion 25 25 50 50 [2]) (mkRegion 0 0 50 50 [1]).
Proof.
  apply (overlaps_with_common_point (mkRegion 0 0 50 50 [1])
                                    (mkRegion 25 25 50 50 [2]));
    simpl; lia.
Defined.

(** The cases of [test_hint_system.py]. *)
Example test_puzzle_region :
  region_contains_point (mkRegion 10 20 100 80 [1; 2; 3]) 50 50 = true /\
  region_contains_point (mkRegion 10 20 100 80 [1; 2; 3]) 5 5 = false /\
  overlaps_with (mkRegion 0 0 50 50 [1]) (mkRegion 25 25 50 50 [2]) = true /\
  overlaps_with (mkRegion 0 0 50 50 [1]) (mkRegion 100 100 50 50 [3]) = false.
Proof. repeat split. Qed.

(** ** Pieces are created row by row *)

Lemma flat_map_rows_nth (cols : Z) (a n j : nat) :
  let c := Z.to_nat cols in
  (j < n * c)%nat ->
  nth_error (flat_map (fun row => map (fun col => (row, col)) (range cols))
                      (map Z.of_nat (seq a n))) j
  = Some (Z.of_nat (a + j / c), Z.of_nat (j mod c)).
Proof.
  intros c. revert a j. induction n as [|n IH]; intros a j Hj; [lia|].
  assert (Hc : (0 < c)%nat) by (destruct c; lia).
  cbn [seq map flat_map].
  destruct (Nat.lt_ge_cases j c) as [Hlt|Hge].
  - rewrite nth_error_app1 by (now rewrite length_map, range_length).
    rewrite nth_error_map. unfold range. rewrite nth_error_map.
    rewrite nth_error_seq. fold c.
    apply Nat.ltb_lt in Hlt as Hb. rewrite Hb. apply Nat.ltb_lt in Hb.
    cbn [option_map Nat.add].
    rewrite Nat.div_small, Nat.mod_small by assumption.
    now rewrite Nat.add_0_r.
  - rewrite nth_error_app2 by (now rewrite length_map, range_length).
    rewrite length_map, range_length. fold c.
    rewrite (IH (S a) (j - c)%nat) by (cbn [Nat.mul] in Hj; lia).
    assert (Hd : (j / c = S ((j - c) / c))%nat).
    { replace j with ((j - c) + 1 * c)%nat at 1 by lia.
      rewrite Nat.div_add by lia. lia. }
    assert (Hm : (j mod c = (j - c) mod c)%nat).
    { replace j with ((j - c) + 1 * c)%nat at 1 by lia.
      now rewrite Nat.Div0.mod_add. }
    rewrite Hd, Hm. do 3 f_equal. lia.
Qed.

Lemma grid_cells_nth (rows cols : Z) (k : nat) :
  (k < Z.to_nat rows * Z.to_nat cols)%nat ->
  nth_error (grid_cells rows cols) k
  = Some (Z.of_nat k / cols, Z.of_nat k mod cols).
Proof.
  intros Hk. unfold grid_cells, range at 2.
  rewrite (flat_map_rows_nth cols 0 (Z.to_nat rows) k Hk).
  assert (Hc : 0 < cols) by lia.
  cbn [Nat.add]. f_equal. f_equal.
  - rewrite Nat2Z.inj_div. now rewrite Z2Nat.id by lia.
  - rewrite Nat2Z.inj_mod. now rewrite Z2Nat.id by lia.
Qed.

(** X3: [load_level] leaves [cols * rows] pieces in row-major order: the
    piece at index [k] has id [k], the size of a grid cell, the crop box
    and the target of cell [(k // cols, k % cols)], and no flag set. *)
Theorem load_level_row_major (g : Game) (i : nat) (now : Q)
        (r : ScrambleRandom) (level : PuzzleLevel) (k : nat) (p : PuzzlePiece) :
  nth_error levels i = Some level ->
  nth_error (pieces (snd (load_level g i now r))) k = Some p ->
  let cols := fst (grid_size level) in
  let rows := snd (grid_size level) in
  let pw := puzzle_width / cols in
  let ph := puzzle_height / rows in
  List.length (pieces (snd (load_level g i now r)))
  = (Z.to_nat rows * Z.to_nat cols)%nat /\
  p = set_xy (piece_of_cell pw ph (Z.of_nat k / cols) (Z.of_nat k mod cols)
                            (Z.of_nat k))
             (x p) (y p).
Proof.
  intros Hl Hp cols rows pw ph.
  rewrite (load_level_loaded g i now r level Hl) in *. cbn [snd pieces] in *.
  split; [now rewrite loaded_pieces_length, fresh_pieces_length|].
  pose proof (loaded_pieces_moved level r) as M.
  assert (Hk : (k < List.length (fresh_pieces level))%nat).
  { rewrite <- (loaded_pieces_length level r). apply nth_error_Some. congruence. }
  destruct (nth_error (fresh_pieces level) k) as [q|] eqn:Hq;
    [|apply nth_error_None in Hq; lia].
  assert (Hm : moved q p).
  { clear - M Hq Hp. revert k Hq Hp.
    induction M as [|a b l l' Hab _ IH]; intros [|k] Hq Hp; try discriminate.
    - simpl in *. congruence.
    - simpl in *. eauto. }
  rewrite fresh_pieces_length in Hk.
  unfold fresh_pieces in Hq. subst cols rows pw ph.
  destruct (grid_size level) as [c rw]. cbn [fst snd] in *.
  rewrite (create_pieces_from_nth _ _ _ 0 k _ _ (grid_cells_nth rw c k Hk)) in Hq.
  injection Hq as <-. rewrite Hm. unfold piece_of_cell. reflexivity.
Qed.

Lemma load_level_row_major_witness :
  let ps := pieces (snd (load_level started_game 0 1000 identity_shuffle)) in
  List.length ps = (Z.to_nat 2 * Z.to_nat 3)%nat /\
  mkPiece 700 340 200 225 (200, 225, 400, 450) 250 325 4 false false false 0
  = set_xy (piece_of_cell (puzzle_width / 3) (puzzle_height / 2)
                          (Z.of_nat 4 / 3) (Z.of_nat 4 mod 3) (Z.of_nat 4))
           700 340.
Proof.
  apply (load_level_row_major started_game 0 1000 identity_shuffle cute_cat 4
           (mkPiece 700 340 200 225 (200, 225, 400, 450) 250 325 4
                    false false false 0)); reflexivity.
Defined.

(** ** The board of the web game *)

Lemma Forall2_moved_static (ps qs : list PuzzlePiece) :
  Forall2 moved ps qs -> map static_part qs = map static_part ps.
Proof.
  induction 1 as [|p q ps qs Hpq _ IH]; [reflexivity|].
  cbn [map]. rewrite IH. f_equal. rewrite Hpq. reflexivity.
Qed.

Lemma move_loop_static (id x' y' : Z) (ps : list PuzzlePiece) :
  map static_part (fst (move_loop id x' y' ps)) = map static_part ps.
Proof.
  induction ps as [|p rest IH]; [reflexivity|]. cbn [move_loop].
  destruct ((piece_id p =? id) && negb (is_placed p)).
  - destruct (is_near_correct_position (set_xy p x' y')); reflexivity.
  - destruct (move_loop id x' y' rest) as [rest' o]. cbn [fst map] in *.
    now rewrite IH.
Qed.

Lemma reveal_kth_static (k : nat) (ps : list PuzzlePiece) :
  map static_part (reveal_kth k ps) = map static_part ps.
Proof.
  revert k. induction ps as [|p rest IH]; intros k; [reflexivity|].
  cbn [reveal_kth]. destruct (hint_eligible p); [destruct k|];
    cbn [map]; rewrite ?IH; reflexivity.
Qed.

Lemma load_level_board (g : Game) (i : nat) (now : Q) (r : ScrambleRandom) :
  (i < List.length levels)%nat -> current_level g = i ->
  board_inv (snd (load_level g i now r)).
Proof.
  intros Hi Hc. destruct (level_in_range i Hi) as [level Hl].
  rewrite (load_level_loaded g i now r level Hl). exists level.
  cbn [snd current_level pieces]. split; [now rewrite Hc|].
  apply Forall2_moved_static, loaded_pieces_moved.
Qed.

Lemma new_game_board (s : Session) (e : Env) :
  session_inv s -> board_inv (new_game s e).
Proof.
  intros Hs. unfold new_game. apply load_level_board; [|reflexivity].
  cbn [current_level load_progress]. unfold session_inv in Hs.
  destruct (s_current_level s) as [n|]; cbn [or_default];
    [now apply Hs | simpl; lia].
Qed.

Lemma next_level_board (g : Game) (now : Q) (r : ScrambleRandom) :
  board_inv g -> board_inv (snd (next_level g now r)).
Proof.
  intros Hg. unfold next_level.
  destruct (current_level g <? List.length levels - 1)%nat eqn:E; [|exact Hg].
  apply Nat.ltb_lt in E.
  pose proof (load_level_board
                (set_hints_used (set_current_level g (current_level g + 1)) 0)
                (current_level g + 1) now r) as H.
  cbn [current_level set_hints_used set_current_level] in *.
  destruct (load_level _ _ now r) as [ok g3]. cbn [snd] in *.
  destruct ok; apply H; try reflexivity; simpl in *; lia.
Qed.

Lemma some_eq_elim {A : Type} (P : A -> Prop) (a : A) :
  P a -> forall b, Some a = Some b -> P b.
Proof. intros H b E. injection E as <-. exact H. Qed.

Lemma handle_board (e : Env) (r : Request) (w : World) :
  world_inv w -> (forall g, game w = Some g -> board_inv g) ->
  forall g', game (snd (handle e r w)) = Some g' -> board_inv g'.
Proof.
  intros [Hs _] Hb. destruct w as [og s]. cbn [game session] in *.
  destruct r as [|pid px py| | |]; cbn [handle].
  - unfold route_game_state. rewrite respond_world. apply some_eq_elim.
    cbn [game session].
    destruct og as [g|]; [now apply Hb | now apply new_game_board].
  - unfold route_move_piece. cbn [game session].
    destruct og as [g|]; [|intros g' Hg'; discriminate].
    destruct pid as [id|], px as [x'|], py as [y'|];
      try (apply some_eq_elim; now apply Hb).
    destruct (Hb g eq_refl) as [level [Hl Hm]].
    pose proof (move_loop_static id x' y' (pieces g)) as St.
    destruct (move_loop id x' y' (pieces g)) as [ps o]. cbn [fst] in St.
    assert (Hdone : forall g1, current_level g1 = current_level g ->
                               pieces g1 = ps -> board_inv g1).
    { intros g1 H1 H2. exists level. rewrite H1, H2. split; congruence. }
    destruct o; try (rewrite respond_world; apply some_eq_elim;
                     now apply Hdone).
    destruct (forallb is_placed (pieces (set_pieces g ps))).
    + unfold complete_level.
      destruct (calculate_level_score (set_pieces g ps) (time_now e)).
      * rewrite respond_world. apply some_eq_elim. now apply Hdone.
      * apply some_eq_elim. now apply Hdone.
    + rewrite respond_world. apply some_eq_elim. now apply Hdone.
  - unfold route_use_hint, use_hint. cbn [game session].
    destruct og as [g|]; [|intros g' Hg'; discriminate].
    destruct (Hb g eq_refl) as [level [Hl Hm]].
    destruct (can_use_hint g (dt_check e)); cbn [negb].
    + destruct (filter hint_eligible (pieces g));
        rewrite respond_world; apply some_eq_elim; [now apply Hb|].
      exists level. cbn [current_level pieces set_last_hint_time
                         set_hints_used set_pieces].
      split; [exact Hl | now rewrite reveal_kth_static].
    + rewrite respond_world. apply some_eq_elim. now apply Hb.
  - unfold route_next_level. cbn [game session].
    destruct og as [g|]; [|intros g' Hg'; discriminate].
    destruct (puzzle_complete g); [|apply some_eq_elim; now apply Hb].
    destruct (current_level g <? List.length levels - 1)%nat;
      rewrite respond_world; apply some_eq_elim.
    + apply next_level_board. now apply Hb.
    + apply load_level_board; [simpl; lia | reflexivity].
  - unfold route_reset_game. rewrite respond_world. apply some_eq_elim.
    now apply new_game_board.
Qed.

Lemma reachable_board (w : World) (g : Game) :
  reachable w -> game w = Some g -> board_inv g.
Proof.
  intros Hw. revert g. induction Hw as [|w e r Hw IH He]; intros g Hg.
  - discriminate.
  - apply (handle_board e r w (reachable_inv w Hw) IH g Hg).
Qed.

Lemma fresh_pieces_nth (i : nat) (level : PuzzleLevel) (k : nat) :
  nth_error levels i = Some level ->
  (k < List.length (fresh_pieces level))%nat ->
  nth_error (fresh_pieces level) k
  = Some (piece_of_cell (puzzle_width / fst (grid_size level))
                        (puzzle_height / snd (grid_size level))
                        (Z.of_nat k / fst (grid_size level))
                        (Z.of_nat k mod fst (grid_size level)) (Z.of_nat k)).
Proof.
  intros Hl Hk. rewrite fresh_pieces_length in Hk. unfold fresh_pieces.
  destruct (grid_size level) as [c rw]. cbn [fst snd] in *.
  now rewrite (create_pieces_from_nth _ _ _ 0 k _ _ (grid_cells_nth rw c k Hk)).
Qed.

(** X4: in every state the server reaches, the board holds exactly the
    [cols * rows] pieces of the current level in creation order: the piece
    at index [k] has id [k] and the size, crop box and target of its grid
    cell, and its [dragging] flag is not set. *)
Theorem board_is_current_level (w : World) (g : Game) :
  reachable w -> game w = Some g ->
  exists level,
    nth_error levels (current_level g) = Some level /\
    List.length (pieces g)
    = (Z.to_nat (snd (grid_size level)) * Z.to_nat (fst (grid_size level)))%nat /\
    forall k p,
      nth_error (pieces g) k = Some p ->
      static_part p
      = static_part (piece_of_cell (puzzle_width / fst (grid_size level))
                                   (puzzle_height / snd (grid_size level))
                                   (Z.of_nat k / fst (grid_size level))
                                   (Z.of_nat k mod fst (grid_size level))
                                   (Z.of_nat k)).
Proof.
  intros Hw Hg. destruct (reachable_board w g Hw Hg) as [level [Hl Hm]].
  exists level. split; [exact Hl|].
  assert (Hlen : List.length (pieces g) = List.length (fresh_pieces level)).
  { apply (f_equal (@List.length _)) in Hm. now rewrite !length_map in Hm. }
  split; [now rewrite Hlen, fresh_pieces_length|].
  intros k p Hp.
  assert (Hk : (k < List.length (fresh_pieces level))%nat).
  { rewrite <- Hlen. apply nth_error_Some. congruence. }
  apply (f_equal (fun l => nth_error l k)) in Hm.
  rewrite !nth_error_map, Hp,
    (fresh_pieces_nth (current_level g) level k Hl Hk) in Hm.
  cbn [option_map] in Hm.
  exact (some_eq_elim (fun t => static_part p = t) _ eq_refl _ Hm).
Qed.

Lemma board_is_current_level_witness :
  exists level,
    nth_error levels (current_level placed_game) = Some level /\
    List.length (pieces placed_game)
    = (Z.to_nat (snd (grid_size level)) * Z.to_nat (fst (grid_size level)))%nat /\
    forall k p,
      nth_error (pieces placed_game) k = Some p ->
      static_part p
      = static_part (piece_of_cell (puzzle_width / fst (grid_size level))
                                   (puzzle_height / snd (grid_size level))
                                   (Z.of_nat k / fst (grid_size level))
                                   (Z.of_nat k mod fst (grid_size level))
                                   (Z.of_nat k)).
Proof.
  apply (board_is_current_level placed_world placed_game).
  - apply reachable_placed.
  - vm_compute. reflexivity.
Defined.

Lemma board_piece_facts (w : World) (g : Game) (k : nat) (p : PuzzlePiece) :
  reachable w -> game w = Some g -> nth_error (pieces g) k = Some p ->
  exists level,
    nth_error levels (current_level g) = Some level /\
    piece_id p = Z.of_nat k /\
    target p
    = (puzzle_x + Z.of_nat k mod fst (grid_size level)
                  * (puzzle_width / fst (grid_size level)),
       puzzle_y + Z.of_nat k / fst (grid_size level)
                  * (puzzle_height / snd (grid_size level))) /\
    dragging p = false.
Proof.
  intros Hw Hg Hp. destruct (reachable_board w g Hw Hg) as [level [Hl Hm]].
  exists level. split; [exact Hl|].
  assert (Hk : (k < List.length (fresh_pieces level))%nat).
  { apply (f_equal (@List.length _)) in Hm. rewrite !length_map in Hm.
    rewrite <- Hm. apply nth_error_Some. congruence. }
  apply (f_equal (fun l => nth_error l k)) in Hm.
  rewrite !nth_error_map, Hp,
    (fresh_pieces_nth (current_level g) level k Hl Hk) in Hm.
  cbn [option_map] in Hm.
  pose proof (some_eq_elim (fun t => static_part p = t) _ eq_refl _ Hm) as E.
  unfold static_part, piece_of_cell, new_piece, target in *.
  cbn [piece_id width height image_section correct_x correct_y rotation
       dragging] in E.
  repeat split; congruence.
Qed.

(** X5: in every state the server reaches no two pieces of the board
    have the same id, and no two have the same target. *)
Theorem ids_and_targets_distinct (w : World) (g : Game) :
  reachable w -> game w = Some g ->
  NoDup (map piece_id (pieces g)) /\ NoDup (map target (pieces g)).
Proof.
  intros Hw Hg. split; apply NoDup_nth_error; intros i j Hi E;
    rewrite length_map in Hi; rewrite !nth_error_map in E;
    destruct (nth_error (pieces g) i) as [p|] eqn:Hp;
    try (apply nth_error_None in Hp; lia);
    destruct (nth_error (pieces g) j) as [q|] eqn:Hq; try discriminate;
    destruct (board_piece_facts w g i p Hw Hg Hp) as [level [Hl [Hid [Ht _]]]];
    destruct (board_piece_facts w g j q Hw Hg Hq) as [level' [Hl' [Hid' [Ht' _]]]];
    cbn [option_map] in E.
  - assert (K : piece_id p = piece_id q) by congruence. lia.
  - assert (K : target p = target q) by congruence.
    rewrite Hl in Hl'. injection Hl' as <-. rewrite Ht, Ht' in K.
    pose proof (levels_grid _ level Hl) as [Hc Hr].
    pose proof (level_piece_size _ level Hl) as [Hw' Hh'].
    apply pair_equal_spec in K. destruct K as [Kx Ky].
    set (c := fst (grid_size level)) in *.
    assert (Km : Z.of_nat i mod c = Z.of_nat j mod c).
    { apply Z.mul_reg_r with (p := puzzle_width / c); lia. }
    assert (Kd : Z.of_nat i / c = Z.of_nat j / c).
    { apply Z.mul_reg_r with (p := puzzle_height / snd (grid_size level)); lia. }
    pose proof (Z.div_mod (Z.of_nat i) c ltac:(lia)).
    pose proof (Z.div_mod (Z.of_nat j) c ltac:(lia)).
    rewrite Km, Kd in *. lia.
Qed.

Lemma ids_and_targets_distinct_witness :
  NoDup (map piece_id (pieces placed_game)) /\
  NoDup (map target (pieces placed_game)).
Proof.
  apply (ids_and_targets_distinct placed_world placed_game).
  - apply reachable_placed.
  - vm_compute. reflexivity.
Defined.

(** ** Dropping a piece *)

Lemma replace_nth_cons (k : nat) (a q : PuzzlePiece) (rest : list PuzzlePiece) :
  replace_nth (S k) a (q :: rest) = q :: replace_nth k a rest.
Proof. reflexivity. Qed.

(** With unique ids the loop of [/api/move_piece] touches the addressed
    piece only. *)
Lemma move_loop_at (ps : list PuzzlePiece) (k : nat) (p : PuzzlePiece) (x' y' : Z) :
  NoDup (map piece_id ps) -> nth_error ps k = Some p -> is_placed p = false ->
  move_loop (piece_id p) x' y' ps
  = (replace_nth k (dropped p x' y') ps,
     if drop_is_near p x' y' then Snapped else Moved).
Proof.
  revert k. induction ps as [|q rest IH]; intros k Hnd Hk Hu.
  - destruct k; discriminate.
  - destruct k as [|k].
    + injection Hk as ->. cbn [move_loop]. rewrite Z.eqb_refl, Hu. cbn [negb andb].
      unfold dropped, drop_is_near, replace_nth. cbn [firstn skipn app].
      destruct (is_near_correct_position (set_xy p x' y')); reflexivity.
    + cbn [nth_error] in Hk. cbn [map] in Hnd. inversion Hnd as [|? ? Hnot Hnd']; subst.
      assert (Hne : (piece_id q =? piece_id p) = false).
      { apply Z.eqb_neq. intros E. apply Hnot. rewrite E.
        apply in_map. eapply nth_error_In. exact Hk. }
      cbn [move_loop]. rewrite Hne. cbn [andb].
      rewrite (IH k Hnd' Hk Hu). now rewrite replace_nth_cons.
Qed.

Lemma drop_is_near_iff (p : PuzzlePiece) (x' y' : Z) :
  drop_is_near p x' y' = true <->
  Z.abs (x' - correct_x p) < 30 /\ Z.abs (y' - correct_y p) < 30.
Proof.
  unfold drop_is_near, is_near_correct_position, is_near_correct_position_tol,
    set_xy. cbn [x y correct_x correct_y].
  now rewrite andb_true_iff, !Z.ltb_lt.
Qed.

(** X6: dropping the unplaced piece at index [k] (whose id is [k]): when
    the drop is less than 30 from the target on both axes the piece is put
    on its target and placed, and the response says [piece_placed];
    otherwise the piece stays where it was dropped and the response has no
    [piece_placed].  No other piece changes. *)
Theorem move_piece_snaps_within_tolerance (w : World) (g : Game) (e : Env)
        (k : nat) (p : PuzzlePiece) (x' y' : Z) :
  reachable w -> game w = Some g ->
  nth_error (pieces g) k = Some p -> is_placed p = false ->
  (drop_is_near p x' y' = true <->
   Z.abs (x' - correct_x p) < 30 /\ Z.abs (y' - correct_y p) < 30) /\
  exists g' flag score snap,
    game (run e (MovePiece (Some (Z.of_nat k)) (Some x') (Some y')) w) = Some g' /\
    pieces g' = replace_nth k (dropped p x' y') (pieces g) /\
    fst (handle e (MovePiece (Some (Z.of_nat k)) (Some x') (Some y')) w)
    = RespMove true (if drop_is_near p x' y' then Some true else None)
               flag score snap.
Proof.
  intros Hw Hg Hp Hu. split; [apply drop_is_near_iff|].
  destruct (board_piece_facts w g k p Hw Hg Hp) as [_ [_ [Hid _]]].
  assert (Hnd : NoDup (map piece_id (pieces g))).
  { apply NoDup_nth_error. intros i j Hi E.
    rewrite length_map in Hi. rewrite !nth_error_map in E.
    destruct (nth_error (pieces g) i) as [a|] eqn:Ha;
      [|apply nth_error_None in Ha; lia].
    destruct (nth_error (pieces g) j) as [b|] eqn:Hb; [|discriminate].
    destruct (board_piece_facts w g i a Hw Hg Ha) as [_ [_ [Hia _]]].
    destruct (board_piece_facts w g j b Hw Hg Hb) as [_ [_ [Hib _]]].
    cbn [option_map] in E. assert (piece_id a = piece_id b) by congruence. lia. }
  destruct (reachable_inv w Hw) as [_ Inv]. destruct (Inv g Hg) as [Hc _].
  destruct w as [og s]. cbn [game] in Hg. subst og.
  unfold run. cbn [handle]. unfold route_move_piece. cbn [game session].
  rewrite <- Hid. rewrite (move_loop_at (pieces g) k p x' y' Hnd Hp Hu).
  set (ps := replace_nth k (dropped p x' y') (pieces g)).
  destruct (drop_is_near p x' y').
  - destruct (forallb is_placed (pieces (set_pieces g ps))).
    + unfold complete_level.
      destruct (calculate_level_score_ok (set_pieces g ps) (time_now e) Hc)
        as [sc Hsc].
      rewrite Hsc.
      set (g2 := set_puzzle_complete
                   (set_total_score (set_pieces g ps)
                      (total_score (set_pieces g ps) + sc)) true).
      destruct (get_game_state_ok g2 (dt_snapshot e) Hc) as [snap [Hsnap _]].
      unfold respond. rewrite Hsnap. cbn [fst snd game].
      exists g2, (Some true), (Some sc), snap. repeat split.
    + destruct (get_game_state_ok (set_pieces g ps) (dt_snapshot e) Hc)
        as [snap [Hsnap _]].
      unfold respond. rewrite Hsnap. cbn [fst snd game].
      exists (set_pieces g ps), (Some false), None, snap. repeat split.
  - destruct (get_game_state_ok (set_pieces g ps) (dt_snapshot e) Hc)
      as [snap [Hsnap _]].
    unfold respond. rewrite Hsnap. cbn [fst snd game].
    exists (set_pieces g ps), None, None, snap. repeat split.
Qed.

Lemma move_piece_snaps_within_tolerance_witness :
  let p := mkPiece 915 100 200 225 (200, 0, 400, 225) 250 100 1
                   false false false 0 in
  (drop_is_near p 279 71 = true <->
   Z.abs (279 - correct_x p) < 30 /\ Z.abs (71 - correct_y p) < 30) /\
  exists g' flag score snap,
    game (run (env_at 1020 5) (MovePiece (Some (Z.of_nat 1)) (Some 279) (Some 71))
              started_world) = Some g' /\
    pieces g' = replace_nth 1 (dropped p 279 71) (pieces started_game) /\
    fst (handle (env_at 1020 5)
                (MovePiece (Some (Z.of_nat 1)) (Some 279) (Some 71))
                started_world)
    = RespMove true (if drop_is_near p 279 71 then Some true else None)
               flag score snap.
Proof.
  apply (move_piece_snaps_within_tolerance started_world started_game
           (env_at 1020 5) 1
           (mkPiece 915 100 200 225 (200, 0, 400, 225) 250 100 1
                    false false false 0) 279 71).
  - apply reachable_started.
  - vm_compute. reflexivity.
  - vm_compute. reflexivity.
  - reflexivity.
Defined.

Example drop_at_29_snaps_and_at_30_does_not :
  let p := mkPiece 915 100 200 225 (200, 0, 400, 225) 250 100 1
                   false false false 0 in
  (dropped p 279 71, dropped p 280 100)
  = (mkPiece 250 100 200 225 (200, 0, 400, 225) 250 100 1 true false false 0,
     mkPiece 280 100 200 225 (200, 0, 400, 225) 250 100 1 false false false 0).
Proof. reflexivity. Qed.

(** ** Responses *)








(** X9: [/api/game_state] is a pure read once the game exists: the state
    is unchanged and the answer is its snapshot; on a fresh server it
    builds the game from the session first. *)
Theorem game_state_is_a_read (w : World) (e : Env) :
  reachable w ->
  exists g snap,
    handle e GetGameState w = (RespState snap, mkWorld (Some g) (session w)) /\
    g = match game w with Some g0 => g0 | None => new_game (session w) e end /\
    snap_pieces snap = pieces g /\
    snap_current_level snap = current_level g /\
    snap_total_score snap = total_score g /\
    snap_puzzle_complete snap = puzzle_complete g /\
    snap_hints_used snap = hints_used g /\
    snap_can_use_hint snap = can_use_hint g (dt_snapshot e).
Proof.
  intros Hw. pose proof (reachable_inv w Hw) as Inv.
  pose proof (handle_preserves_inv e GetGameState w Inv) as Inv'.
  cbn [handle] in *. unfold route_game_state in *.
  set (g := match game w with Some g0 => g0 | None => new_game (session w) e end) in *.
  rewrite respond_world in Inv'. destruct Inv' as [_ Inv'].
  destruct (Inv' g eq_refl) as [Hc _].
  destruct (level_in_range _ Hc) as [level Hl].
  exists g. unfold respond, get_game_state. rewrite Hl.
  eexists. split; [reflexivity|]. repeat split.
Qed.

Lemma game_state_is_a_read_witness :
  exists g snap,
    handle (env_at 1020 5) GetGameState placed_world
    = (RespState snap, mkWorld (Some g) (session placed_world)) /\
    g = match game placed_world with
        | Some g0 => g0
        | None => new_game (session placed_world) (env_at 1020 5)
        end /\
    snap_pieces snap = pieces g /\
    snap_current_level snap = current_level g /\
    snap_total_score snap = total_score g /\
    snap_puzzle_complete snap = puzzle_complete g /\
    snap_hints_used snap = hints_used g /\
    snap_can_use_hint snap = can_use_hint g (dt_snapshot (env_at 1020 5)).
Proof.
  apply (game_state_is_a_read placed_world (env_at 1020 5)).
  apply reachable_placed.
Defined.

(** ** Scores *)

Lemma levels_points (i : nat) (level : PuzzleLevel) :
  nth_error levels i = Some level -> 100 <= points level <= 500.
Proof.
  intros H.
  do 8 (destruct i as [|i]; [inversion H; subst; simpl; lia|]).
  destruct i; discriminate.
Qed.


Lemma Ok_inj {A : Type} (a b : A) : Ok a = Ok b -> a = b.
Proof. intros H. now injection H. Qed.

(** X10: on the same level and start time, a later clock reading or a
    larger hint count never gives a higher score; one more hint costs at
    most 20 points; and with a clock that has not gone back and a hint
    count that is not negative the score is at most one and a half times
    the base points of the level. *)
Theorem score_monotone (g1 g2 : Game) (now1 now2 : Q) (s1 s2 : Z) :
  current_level g1 = current_level g2 ->
  level_start_time g1 = level_start_time g2 ->
  hints_used g1 <= hints_used g2 ->
  (now1 <= now2)%Q ->
  calculate_level_score g1 now1 = Ok s1 ->
  calculate_level_score g2 now2 = Ok s2 ->
  s2 <= s1 /\
  (Qeq now1 now2 -> hints_used g2 = hints_used g1 + 1 -> s1 - 20 <= s2) /\
  (forall t0 level,
      level_start_time g1 = Some t0 -> (t0 <= now1)%Q -> 0 <= hints_used g1 ->
      nth_error levels (current_level g1) = Some level ->
      s1 <= points level + points level / 2).
Proof.
  intros Hc Ht Hh Hn. unfold calculate_level_score. rewrite <- Hc, <- Ht.
  destruct (level_start_time g1) as [t0|];
    [|intros H1 H2; injection H1 as <-; injection H2 as <-;
      repeat split; try lia; intros; discriminate].
  destruct (Qeq_bool t0 0) eqn:E0.
  - intros H1 H2; injection H1 as <-; injection H2 as <-.
    repeat split; try lia. intros t1 level Ht1 Hle _ Hl.
    pose proof (levels_points _ level Hl).
    assert (0 <= points level / 2) by (apply Z.div_pos; lia). lia.
  - destruct (nth_error levels (current_level g1)) as [level|] eqn:Hl;
      [|discriminate].
    intros H1 H2. apply Ok_inj in H1. apply Ok_inj in H2. subst s1 s2.
    assert (Hf : Qfloor ((now1 - t0) / 10) <= Qfloor ((now2 - t0) / 10)).
    { apply Qfloor_resp_le. apply Qmult_le_compat_r; [|discriminate].
      unfold Qminus. apply Qplus_le_l. exact Hn. }
    split; [lia|]. split.
    + intros Heq Hone.
      assert (Hf' : Qfloor ((now1 - t0) / 10) = Qfloor ((now2 - t0) / 10)).
      { apply Qfloor_comp. now rewrite Heq. }
      lia.
    + intros t1 level' Ht1 Hle Hh0 Hl'. injection Ht1 as <-. injection Hl' as <-.
      pose proof (levels_points _ level Hl).
      assert (0 <= points level / 2) by (apply Z.div_pos; lia).
      assert (H0f : 0 <= Qfloor ((now1 - t0) / 10)).
      { change 0 with (Qfloor 0). apply Qfloor_resp_le.
        apply Qle_shift_div_l; [reflexivity|].
        rewrite Qmult_0_l. unfold Qminus. rewrite <- Qle_minus_iff. exact Hle. }
      lia.
Qed.

Lemma score_monotone_witness :
  50 <= 143 /\
  (Qeq 1075 1075 ->
   hints_used (set_hints_used started_game 5) = hints_used started_game + 1 ->
   143 - 20 <= 50) /\
  (forall t0 level,
      level_start_time started_game = Some t0 -> (t0 <= 1075)%Q ->
      0 <= hints_used started_game ->
      nth_error levels (current_level started_game) = Some level ->
      143 <= points level + points level / 2).
Proof.
  apply (score_monotone started_game (set_hints_used started_game 5)
                        1075 1075 143 50); try reflexivity.
  - simpl. lia.
  - apply Qle_refl.
Defined.

Example score_decays_with_time_and_hints :
  map (fun th => calculate_level_score (set_hints_used started_game (snd th))
                                       (fst th))
      [(1000%Q, 0); (1075%Q, 0); (1500%Q, 0); (1075%Q, 1); (1075%Q, 5)]
  = [Ok 150; Ok 143; Ok 100; Ok 123; Ok 50].
Proof. reflexivity. Qed.

(** ** Saved progress *)

Lemma load_level_frame (g : Game) (i : nat) (now : Q) (r : ScrambleRandom) :
  let g' := snd (load_level g i now r) in
  current_level g' = current_level g /\ total_score g' = total_score g /\
  hints_used g' = hints_used g /\ last_hint_time g' = last_hint_time g.
Proof.
  unfold load_level. destruct (nth_error levels i) as [level|];
    [destruct (grid_size level)|]; repeat split.
Qed.


Lemma new_game_progress (s : Session) (e : Env) :
  current_level (new_game s e) = or_default (s_current_level s) 0%nat /\
  total_score (new_game s e) = or_default (s_total_score s) 0 /\
  hints_used (new_game s e) = or_default (s_hints_used s) 0 /\
  last_hint_time (new_game s e) = s_last_hint_time s.
Proof.
  unfold new_game.
  pose proof (load_level_frame
                (load_progress (mkGame 0 0 None false 0 0 0 0 None [] None 0) s)
                (or_default (s_current_level s) 0%nat)
                (time_now e) (scramble_random e)) as H.
  cbv zeta in H. exact H.
Qed.











Example reset_after_advancing_goes_back :
  let w := run (env_at 4000 9) NextLevel hinted_solved_world in
  let w' := run (env_at 5000 9) ResetGame w in
  (current_level (the_game w), hints_used (the_game w),
   current_level (the_game w'), hints_used (the_game w'),
   total_score (the_game w'))
  = (1%nat, 0, 0%nat, 1, 80).
Proof. vm_compute. reflexivity. Qed.

(** X13: a game built from the session that [save_progress] has written
    takes up the level index, the total score and the hint counter of the
    saving game, and its hint stamp; when the saving game had no stamp the
    one already in the session survives. *)
Theorem saved_progress_round_trip (g : Game) (s : Session) (e : Env) :
  let g' := new_game (save_progress g s) e in
  current_level g' = current_level g /\
  total_score g' = total_score g /\
  hints_used g' = hints_used g /\
  last_hint_time g'
  = match last_hint_time g with
    | Some t => Some t
    | None => s_last_hint_time s
    end.
Proof.
  destruct (new_game_progress (save_progress g s) e) as [H1 [H2 [H3 H4]]].
  cbv zeta. now rewrite H1, H2, H3, H4.
Qed.

(** X14: the desktop game built from the file its [save_progress] has
    written takes up level index, total score, hint counter and hint stamp
    exactly (no stamp when the saving game had none); with no file it
    starts at level 0 with score 0, no hint used and no stamp. *)
Theorem desktop_save_file_round_trip (g : Game) (e : Env) :
  let d := desktop_start (desktop_save_progress g) e in
  (current_level (core d) = current_level g /\
   total_score (core d) = total_score g /\
   hints_used (core d) = hints_used g /\
   last_hint_time (core d) = last_hint_time g) /\
  (current_level (core (desktop_start empty_session e)) = 0%nat /\
   total_score (core (desktop_start empty_session e)) = 0 /\
   hints_used (core (desktop_start empty_session e)) = 0 /\
   last_hint_time (core (desktop_start empty_session e)) = None).
Proof.
  cbv zeta. unfold desktop_start. cbn [core].
  destruct (new_game_progress (desktop_save_progress g) e) as [H1 [H2 [H3 H4]]].
  destruct (new_game_progress empty_session e) as [K1 [K2 [K3 K4]]].
  rewrite H1, H2, H3, H4, K1, K2, K3, K4. repeat split.
Qed.

(** ** Invariants of the desktop pieces *)

Section DesktopPieces.

Variable P : PuzzlePiece -> Prop.
Hypothesis P_unplaced : forall p, is_placed p = false -> P p.
Hypothesis P_snapped :
  forall p, P (set_dragging
                 (set_is_placed (set_xy p (correct_x p) (correct_y p)) true)
                 false).
Hypothesis P_hinted : forall p, P p -> P (set_hint_revealed p true).

Lemma replace_nth_Forall (ps : list PuzzlePiece) (i : nat) (p a : PuzzlePiece) :
  nth_error ps i = Some p -> Forall P ps -> P a ->
  Forall P (replace_nth i a ps).
Proof.
  intros Hn F Ha. destruct (split_nth ps i p Hn) as [l1 [l2 [H1 [_ [H3 _]]]]].
  rewrite H3. rewrite H1 in F. apply Forall_app in F. destruct F as [F1 F2].
  inversion F2; subst. apply Forall_app. split; [assumption|].
  constructor; assumption.
Qed.

Lemma remove_append_Forall (ps : list PuzzlePiece) (i : nat) (p a : PuzzlePiece) :
  nth_error ps i = Some p -> Forall P ps -> P a ->
  Forall P (remove_nth i ps ++ [a]).
Proof.
  intros Hn F Ha. destruct (split_nth ps i p Hn) as [l1 [l2 [H1 [_ [_ H4]]]]].
  rewrite H4. rewrite H1 in F. apply Forall_app in F. destruct F as [F1 F2].
  inversion F2; subst.
  apply Forall_app. split; [apply Forall_app; now split | now constructor].
Qed.

Lemma reveal_kth_Forall (k : nat) (ps : list PuzzlePiece) :
  Forall P ps -> Forall P (reveal_kth k ps).
Proof.
  revert k. induction ps as [|p rest IH]; intros k F; [constructor|].
  inversion F; subst. cbn [reveal_kth].
  destruct (hint_eligible p); [destruct k|]; constructor; auto.
Qed.

Lemma load_level_Forall (g : Game) (i : nat) (now : Q) (r : ScrambleRandom) :
  Forall P (pieces g) -> Forall P (pieces (snd (load_level g i now r))).
Proof.
  intros F. destruct (nth_error levels i) as [level|] eqn:E.
  - rewrite (load_level_loaded g i now r level E). cbn [snd pieces].
    eapply Forall_impl; [|apply loaded_pieces_unplaced]. exact P_unplaced.
  - now rewrite (load_level_out_of_range g i now r E).
Qed.

Lemma next_level_Forall (g : Game) (now : Q) (r : ScrambleRandom) :
  Forall P (pieces g) -> Forall P (pieces (snd (next_level g now r))).
Proof.
  intros F. unfold next_level.
  destruct (current_level g <? List.length levels - 1)%nat; [|exact F].
  pose proof (load_level_Forall
                (set_hints_used (set_current_level g (current_level g + 1)) 0)
                (current_level g + 1) now r F) as H.
  cbn [current_level set_hints_used set_current_level].
  destruct (load_level _ _ now r) as [ok g3]. cbn [snd] in H.
  destruct ok; exact H.
Qed.

Lemma advance_or_restart_Forall (e : Env) (d : JigsawPuzzle) :
  Forall P (pieces (core d)) ->
  Forall P (pieces (core (advance_or_restart e d))).
Proof.
  intros F. unfold advance_or_restart, reload.
  destruct (current_level (core d) <? List.length levels - 1)%nat.
  - pose proof (next_level_Forall (core d) (time_now e) (scramble_random e) F).
    destruct (next_level (core d) (time_now e) (scramble_random e)). assumption.
  - pose proof (load_level_Forall (set_current_level (core d) 0) 0 (time_now e)
                                  (scramble_random e) F) as H.
    cbn [current_level set_current_level].
    destruct (load_level _ _ (time_now e) (scramble_random e)). assumption.
Qed.

Lemma desktop_use_hint_Forall (e : Env) (d : JigsawPuzzle) :
  Forall P (pieces (core d)) ->
  Forall P (pieces (core (desktop_use_hint e d))).
Proof.
  intros F. unfold desktop_use_hint, set_core. cbn [core].
  destruct (use_hint_pieces (core d) empty_session (dt_check e) (dt_stamp e)
                            (hint_choice e)) as [k [-> | ->]];
    [exact F | now apply reveal_kth_Forall].
Qed.

Lemma dispatch_Forall (e : Env) (ev : Event) (d d' : JigsawPuzzle) :
  selection_ok d -> Forall P (pieces (core d)) ->
  dispatch e ev d = Ok d' -> Forall P (pieces (core d')).
Proof.
  intros Hs F H. destruct d as [g sel ox oy].
  unfold selection_ok in Hs. cbn [core selected_piece] in *.
  destruct ev as [pos|pos|pos| |]; cbn [dispatch] in H.
  - apply Ok_inj in H. subst d'. unfold handle_mouse_down. cbn [core].
    destruct (puzzle_complete g && collidepoint next_button_rect pos);
      [now apply advance_or_restart_Forall|].
    destruct (collidepoint hint_button_rect pos);
      [now apply desktop_use_hint_Forall|].
    destruct (top_piece_at pos (pieces g)) as [i|] eqn:T; [|exact F].
    destruct (nth_error (pieces g) i) as [p|] eqn:Hp; [|exact F].
    cbn [core pieces set_pieces].
    apply remove_append_Forall with (p := p); [assumption..|].
    apply P_unplaced. exact (top_piece_at_unplaced pos _ i p T Hp).
  - unfold handle_mouse_up, selected_object in H. cbn [core selected_piece] in H.
    destruct sel as [|i|q].
    + apply Ok_inj in H. now subst d'.
    + destruct (Hs i eq_refl) as [p [Hp Hu]]. rewrite Hp in H.
      destruct (is_near_correct_position p).
      * unfold write_selected in H.
        cbn [core selected_piece mouse_offset_x mouse_offset_y pieces
             set_pieces] in H.
        set (p1 := set_is_placed (set_xy p (correct_x p) (correct_y p)) true) in *.
        assert (Hp1 : nth_error (replace_nth i p1 (pieces g)) i = Some p1)
          by now apply replace_nth_nth with (p := p).
        assert (Hfin : Forall P (replace_nth i (set_dragging p1 false) (pieces g))).
        { apply replace_nth_Forall with (p := p); [assumption..|]. apply P_snapped. }
        destruct (forallb is_placed (replace_nth i p1 (pieces g))).
        -- unfold desktop_complete_level in H.
           destruct (calculate_level_score _ (time_now e)) as [score|];
             [|discriminate].
           apply Ok_inj in H. subst d'. unfold set_core.
           cbn [core selected_piece mouse_offset_x mouse_offset_y].
           rewrite release_selected with (a := p1) by exact Hp1.
           cbn [core pieces set_pieces set_puzzle_complete set_total_score].
           now rewrite replace_nth_twice with (p := p).
        -- apply Ok_inj in H. subst d'.
           rewrite release_selected with (a := p1) by exact Hp1.
           cbn [core pieces set_pieces].
           now rewrite replace_nth_twice with (p := p).
      * apply Ok_inj in H. subst d'.
        rewrite release_selected with (a := p) by exact Hp.
        cbn [core pieces set_pieces].
        apply replace_nth_Forall with (p := p); [assumption..|].
        now apply P_unplaced.
    + destruct (is_near_correct_position q).
      * unfold write_selected in H.
        cbn [core selected_piece mouse_offset_x mouse_offset_y] in H.
        destruct (forallb is_placed (pieces g)).
        -- unfold desktop_complete_level in H.
           destruct (calculate_level_score g (time_now e)) as [score|];
             [|discriminate].
           apply Ok_inj in H. now subst d'.
        -- apply Ok_inj in H. now subst d'.
      * apply Ok_inj in H. now subst d'.
  - apply Ok_inj in H. subst d'.
    unfold handle_mouse_motion, selected_object. cbn [core selected_piece].
    destruct sel as [|i|q]; [exact F| |].
    + destruct (Hs i eq_refl) as [p [Hp Hu]]. rewrite Hp.
      destruct (dragging p); [|exact F].
      unfold write_selected.
      cbn [core selected_piece mouse_offset_x mouse_offset_y pieces set_pieces].
      apply replace_nth_Forall with (p := p); [assumption..|].
      now apply P_unplaced.
    + destruct (dragging q); exact F.
  - apply Ok_inj in H. subst d'. now apply desktop_use_hint_Forall.
  - cbn [core] in H.
    destruct (puzzle_complete g); apply Ok_inj in H; subst d';
      [now apply advance_or_restart_Forall | exact F].
Qed.

Lemma desktop_reachable_Forall (d : JigsawPuzzle) :
  desktop_reachable d -> Forall P (pieces (core d)).
Proof.
  induction 1 as [saved e|d d' e ev Hd IH H].
  - unfold desktop_start, new_game. cbn [core].
    apply load_level_Forall. constructor.
  - apply (dispatch_Forall e ev d d'); [|exact IH|exact H].
    apply (desktop_reachable_inv d Hd).
Qed.

End DesktopPieces.

(** X15: in every state the desktop game reaches, a placed piece is not
    being dragged. *)
Theorem desktop_placed_not_dragging (d : JigsawPuzzle) (p : PuzzlePiece) :
  desktop_reachable d -> In p (pieces (core d)) -> is_placed p = true ->
  dragging p = false.
Proof.
  intros Hd Hp.
  assert (F : Forall placed_not_dragging (pieces (core d))).
  { apply desktop_reachable_Forall; [| |  |exact Hd].
    - intros q Hq Hq'. congruence.
    - intros q _. reflexivity.
    - intros q Hq. exact Hq. }
  rewrite Forall_forall in F. now apply F.
Qed.

Lemma desktop_placed_not_dragging_witness :
  dragging (mkPiece 50 100 200 225 (0, 0, 200, 225) 50 100 0 true false false 0)
  = false.
Proof.
  apply (desktop_placed_not_dragging desktop_placed
           (mkPiece 50 100 200 225 (0, 0, 200, 225) 50 100 0
                    true false false 0)).
  - apply play_reachable, desktop_reachable_start.
  - vm_compute. do 5 right. left. reflexivity.
  - reflexivity.
Defined.

(** ** The drag gesture *)

Lemma find_index_none {A : Type} (f : A -> bool) (l : list A) :
  find_index f l = None -> forall a, In a l -> f a = false.
Proof.
  induction l as [|b rest IH]; intros H a Ha; [destruct Ha|].
  cbn [find_index] in H. destruct (f b) eqn:Fb; [discriminate|].
  destruct (find_index f rest); [discriminate|].
  destruct Ha as [<-|Ha]; [exact Fb | now apply IH].
Qed.

Lemma find_index_first {A : Type} (f : A -> bool) (l : list A) (j : nat) :
  find_index f l = Some j ->
  forall j' a, (j' < j)%nat -> nth_error l j' = Some a -> f a = false.
Proof.
  revert j. induction l as [|b rest IH]; intros j H j' a Hlt Ha;
    [discriminate|].
  cbn [find_index] in H. destruct (f b) eqn:Fb.
  - apply some_eq_elim with (P := fun n => (j' < n)%nat -> False) in H;
      [contradiction | lia].
  - destruct (find_index f rest) as [j0|] eqn:F0; [|discriminate].
    cbn [option_map] in H.
    assert (Hj : j = S j0) by (injection H; auto). subst j.
    destruct j' as [|j']; cbn [nth_error] in Ha.
    + now injection Ha as <-.
    + apply (IH j0 eq_refl j' a); [lia | exact Ha].
Qed.

Lemma top_piece_at_some (pos : Z * Z) (ps : list PuzzlePiece) (i : nat) :
  top_piece_at pos ps = Some i ->
  exists p, nth_error ps i = Some p /\ pickable pos p = true /\
            forall i' q, (i < i')%nat -> nth_error ps i' = Some q ->
                         pickable pos q = false.
Proof.
  unfold top_piece_at. intros H.
  destruct (find_index _ (rev ps)) as [j|] eqn:F; [|discriminate].
  cbn [option_map] in H.
  assert (Hi : i = (List.length ps - 1 - j)%nat) by (injection H; auto).
  subst i. clear H.
  destruct (find_index_some _ _ _ F) as [a [Ha Fa]].
  rewrite nth_error_rev in Ha.
  destruct (j <? List.length ps)%nat eqn:Lt; [|discriminate].
  apply Nat.ltb_lt in Lt.
  replace (List.length ps - S j)%nat with (List.length ps - 1 - j)%nat in Ha by lia.
  exists a. split; [exact Ha|]. split; [exact Fa|].
  intros i' q Hlt Hq.
  assert (Hi' : (i' < List.length ps)%nat) by (apply nth_error_Some; congruence).
  apply (find_index_first _ _ _ F (List.length ps - 1 - i')%nat q); [lia|].
  rewrite nth_error_rev.
  assert (Hb : (List.length ps - 1 - i' <? List.length ps)%nat = true)
    by (apply Nat.ltb_lt; lia).
  rewrite Hb.
  replace (List.length ps - S (List.length ps - 1 - i'))%nat with i' by lia.
  exact Hq.
Qed.

Lemma top_piece_at_none (pos : Z * Z) (ps : list PuzzlePiece) :
  top_piece_at pos ps = None -> forall p, In p ps -> pickable pos p = false.
Proof.
  unfold top_piece_at. intros H p Hp.
  destruct (find_index _ (rev ps)) as [j|] eqn:F; [discriminate|].
  apply (find_index_none _ _ F). now apply in_rev in Hp.
Qed.

Lemma remove_append_last (ps : list PuzzlePiece) (i : nat) (p a b : PuzzlePiece) :
  nth_error ps i = Some p ->
  nth_error (remove_nth i ps ++ [a]) (List.length ps - 1) = Some a /\
  replace_nth (List.length ps - 1) b (remove_nth i ps ++ [a])
  = remove_nth i ps ++ [b].
Proof.
  intros Hn. destruct (split_nth ps i p Hn) as [l1 [l2 [H1 [H2 [_ H4]]]]].
  rewrite H4. rewrite H1. rewrite (length_app l1 (p :: l2)). cbn [List.length].
  assert (E : (List.length l1 + S (List.length l2) - 1
               = List.length (l1 ++ l2))%nat) by (rewrite length_app; lia).
  rewrite E. split.
  - rewrite nth_error_app2 by lia. now rewrite Nat.sub_diag.
  - unfold replace_nth.
    rewrite firstn_app, firstn_all, Nat.sub_diag. cbn [firstn].
    rewrite app_nil_r.
    rewrite skipn_app, skipn_all2 by lia.
    replace (S (List.length (l1 ++ l2)) - List.length (l1 ++ l2))%nat
      with 1%nat by lia.
    reflexivity.
Qed.

(** X16: a click away from the two buttons picks the piece drawn on top
    among the unplaced pieces under the pointer: the last such piece of
    the list.  It becomes the selection, gets [dragging], goes to the end
    of the list while the others keep their order, and the offset of the
    pointer in the piece is recorded.  With no such piece the click
    changes nothing. *)
Theorem click_picks_top_piece (e : Env) (pos : Z * Z) (d : JigsawPuzzle) :
  puzzle_complete (core d) && collidepoint next_button_rect pos = false ->
  collidepoint hint_button_rect pos = false ->
  ((forall p, In p (pieces (core d)) -> pickable pos p = false) /\
   handle_mouse_down e pos d = d) \/
  (exists i p,
      nth_error (pieces (core d)) i = Some p /\ pickable pos p = true /\
      (forall i' q, (i < i')%nat -> nth_error (pieces (core d)) i' = Some q ->
                    pickable pos q = false) /\
      handle_mouse_down e pos d
      = mkPuzzle (set_pieces (core d)
                             (remove_nth i (pieces (core d))
                              ++ [set_dragging p true]))
                 (Selected (List.length (pieces (core d)) - 1))
                 (fst pos - x p) (snd pos - y p) /\
      selected_object (handle_mouse_down e pos d) = Some (set_dragging p true)).
Proof.
  intros Hn Hh. unfold handle_mouse_down. rewrite Hn, Hh.
  destruct (top_piece_at pos (pieces (core d))) as [i|] eqn:T.
  - right. destruct (top_piece_at_some pos _ i T) as [p [Hp [Hpick Htop]]].
    exists i, p. rewrite Hp. split; [reflexivity|]. split; [exact Hpick|].
    split; [exact Htop|]. split; [reflexivity|].
    unfold selected_object. cbn [selected_piece core pieces set_pieces].
    apply (remove_append_last _ i p _ (set_dragging p true) Hp).
  - left. split; [now apply top_piece_at_none | reflexivity].
Qed.

Lemma click_picks_top_piece_witness :
  ((forall p, In p (pieces (core desktop_started)) -> pickable (1010, 110) p = false) /\
   handle_mouse_down (env_at 1010 1) (1010, 110) desktop_started = desktop_started) \/
  (exists i p,
      nth_error (pieces (core desktop_started)) i = Some p /\
      pickable (1010, 110) p = true /\
      (forall i' q, (i < i')%nat ->
                    nth_error (pieces (core desktop_started)) i' = Some q ->
                    pickable (1010, 110) q = false) /\
      handle_mouse_down (env_at 1010 1) (1010, 110) desktop_started
      = mkPuzzle (set_pieces (core desktop_started)
                             (remove_nth i (pieces (core desktop_started))
                              ++ [set_dragging p true]))
                 (Selected (List.length (pieces (core desktop_started)) - 1))
                 (1010 - x p) (110 - y p) /\
      selected_object (handle_mouse_down (env_at 1010 1) (1010, 110) desktop_started)
      = Some (set_dragging p true)).
Proof.
  apply (click_picks_top_piece (env_at 1010 1) (1010, 110) desktop_started);
    reflexivity.
Defined.

(** Pieces 2 and 3 both lie under [(1010, 110)]; the later one is picked. *)
Example click_on_two_stacked_pieces :
  map piece_id
      (pieces (core (handle_mouse_down (env_at 1010 1) (1010, 110)
                                       desktop_started)))
  = [0; 1; 2; 4; 5; 3].
Proof. vm_compute. reflexivity. Qed.

(** X17: a whole drag: pressing the button on the top piece [p] at [pos],
    moving the pointer to [pos'] and releasing leaves [p] shifted by
    [pos' - pos], snapped onto its target and placed when that is within
    the tolerance, at the end of the list, with [dragging] cleared and
    nothing selected; the position of the release event plays no part. *)
Theorem drag_and_drop (e1 e3 : Env) (pos pos' pos'' : Z * Z)
        (d d' : JigsawPuzzle) (i : nat) (p : PuzzlePiece) :
  puzzle_complete (core d) && collidepoint next_button_rect pos = false ->
  collidepoint hint_button_rect pos = false ->
  top_piece_at pos (pieces (core d)) = Some i ->
  nth_error (pieces (core d)) i = Some p ->
  handle_mouse_up e3 pos''
    (handle_mouse_motion pos' (handle_mouse_down e1 pos d)) = Ok d' ->
  pieces (core d')
  = remove_nth i (pieces (core d)) ++ [released (carried p pos pos')] /\
  selected_piece d' = Unselected.
Proof.
  intros Hn Hh T Hp H. destruct d as [g sel ox oy]. cbn [core] in *.
  unfold handle_mouse_down in H. cbn [core] in H. rewrite Hn, Hh, T, Hp in H.
  set (n := (List.length (pieces g) - 1)%nat) in *.
  set (rm := remove_nth i (pieces g)) in *.
  set (pd := set_dragging p true) in *.
  destruct (remove_append_last (pieces g) i p pd pd Hp) as [Hlast _].
  fold n rm in Hlast.
  unfold handle_mouse_motion, selected_object in H.
  cbn [core selected_piece pieces set_pieces mouse_offset_x mouse_offset_y] in H.
  rewrite Hlast in H. cbn [dragging pd set_dragging] in H.
  unfold write_selected in H.
  cbn [core selected_piece pieces set_pieces mouse_offset_x mouse_offset_y] in H.
  set (pm := set_xy pd (fst pos' - (fst pos - x p)) (snd pos' - (snd pos - y p))) in *.
  destruct (remove_append_last (pieces g) i p pd pm Hp) as [_ Hrep].
  fold n rm in Hrep. rewrite Hrep in H.
  destruct (remove_append_last (pieces g) i p pm pm Hp) as [Hlast' _].
  fold n rm in Hlast'.
  assert (Hcar : pm = set_dragging (carried p pos pos') true).
  { unfold pm, pd, carried, set_xy, set_dragging. cbn. f_equal; lia. }
  assert (Hfin : forall q,
             replace_nth n (set_dragging q false) (rm ++ [pm])
             = rm ++ [set_dragging q false]).
  { intros q. apply (remove_append_last (pieces g) i p pm _ Hp). }
  assert (Hnear : is_near_correct_position pm
                  = is_near_correct_position (carried p pos pos'))
    by (rewrite Hcar; reflexivity).
  unfold handle_mouse_up, selected_object in H.
  cbn [core selected_piece pieces set_pieces] in H. rewrite Hlast' in H.
  unfold released. rewrite <- Hnear.
  destruct (is_near_correct_position pm).
  - unfold write_selected in H.
    cbn [core selected_piece pieces set_pieces mouse_offset_x mouse_offset_y] in H.
    set (p1 := set_is_placed (set_xy pm (correct_x pm) (correct_y pm)) true) in *.
    destruct (remove_append_last (pieces g) i p pm p1 Hp) as [_ Hrep1].
    fold n rm in Hrep1. rewrite Hrep1 in H.
    destruct (remove_append_last (pieces g) i p p1 p1 Hp) as [Hlast1 _].
    fold n rm in Hlast1.
    assert (Hp1 : set_dragging p1 false
                  = set_dragging
                      (set_is_placed
                         (set_xy (carried p pos pos')
                                 (correct_x (carried p pos pos'))
                                 (correct_y (carried p pos pos'))) true) false)
      by (unfold p1; rewrite Hcar; reflexivity).
    assert (Hfin1 : replace_nth n (set_dragging p1 false) (rm ++ [p1])
                    = rm ++ [set_dragging p1 false])
      by apply (remove_append_last (pieces g) i p p1 _ Hp).
    destruct (forallb is_placed (rm ++ [p1])).
    + unfold desktop_complete_level in H.
      destruct (calculate_level_score _ (time_now e3)) as [score|];
        [|discriminate].
      apply Ok_inj in H. subst d'. unfold set_core.
      cbn [core selected_piece mouse_offset_x mouse_offset_y].
      rewrite release_selected with (a := p1) by exact Hlast1.
      cbn [core pieces set_pieces set_puzzle_complete set_total_score
           selected_piece].
      rewrite Hfin1, Hp1. split; reflexivity.
    + apply Ok_inj in H. subst d'.
      rewrite release_selected with (a := p1) by exact Hlast1.
      cbn [core pieces set_pieces selected_piece].
      rewrite Hfin1, Hp1. split; reflexivity.
  - apply Ok_inj in H. subst d'.
    rewrite release_selected with (a := pm) by exact Hlast'.
    cbn [core pieces set_pieces selected_piece].
    rewrite Hfin, Hcar. split; reflexivity.
Qed.

Lemma drag_and_drop_witness :
  pieces (core desktop_placed)
  = remove_nth 0 (pieces (core desktop_started))
    ++ [released (carried (mkPiece 700 100 200 225 (0, 0, 200, 225) 50 100 0
                                   false false false 0)
                          (710, 110) (70, 120))] /\
  selected_piece desktop_placed = Unselected.
Proof.
  apply (drag_and_drop (env_at 1010 1) (env_at 1012 3) (710, 110) (70, 120)
                       (70, 120) desktop_started desktop_placed 0
                       (mkPiece 700 100 200 225 (0, 0, 200, 225) 50 100 0
                                false false false 0));
    reflexivity.
Defined.

(** ** The scramble touches positions only *)

(** X18: whatever the list and whatever the draws, [scramble_pieces]
    keeps the number and order of the pieces, changes nothing but
    positions, and leaves a placed piece exactly as it was. *)
Theorem scramble_moves_unplaced_only (g : Game) (r : ScrambleRandom) :
  Forall2 (fun p q => moved p q /\ (is_placed p = true -> q = p))
          (pieces g) (pieces (scramble_pieces g r)).
Proof.
  unfold scramble_pieces, scramble_list. cbn [pieces set_pieces].
  generalize (shuffled (shuffle_perm r
                (List.length (available_positions (piece_width g) (piece_height g)
                   (Z.of_nat (List.length (pieces g))) (cell_jitter r))))
                (available_positions (piece_width g) (piece_height g)
                   (Z.of_nat (List.length (pieces g))) (cell_jitter r))).
  intros avail. generalize 0%nat.
  induction (pieces g) as [|p rest IH]; intros i; cbn [assign_positions];
    constructor; auto.
  destruct (is_placed p) eqn:E; cbn [negb andb].
  - split; [apply moved_refl | reflexivity].
  - destruct (i <? List.length avail)%nat.
    + split; [apply moved_set_xy | discriminate].
    + split; [apply moved_refl | discriminate].
Qed.

(** ** The countdown to the next hint *)



(** The last entry: the cooldown ran out between the two readings. *)
Example hint_timer_samples :
  map (hint_timer 0) [0; 1; 600000000; 3600000000; 7199999999; 7200000001]
  = [(2, 0); (1, 59); (1, 50); (1, 0); (0, 0); (-1, 59)].
Proof. reflexivity. Qed.

(** ** Hint flags within a level *)

Lemma hints_kept_refl (ps : list PuzzlePiece) : hints_kept ps ps.
Proof. unfold hints_kept. induction ps; constructor; auto. Qed.

Lemma hints_kept_trans (ps qs rs : list PuzzlePiece) :
  hints_kept ps qs -> hints_kept qs rs -> hints_kept ps rs.
Proof.
  unfold hints_kept. intros H. revert rs.
  induction H as [|p q ps qs Hpq _ IH]; intros rs Hr; inversion Hr; subst;
    constructor; auto.
Qed.

Lemma move_loop_hints_kept (id x' y' : Z) (ps : list PuzzlePiece) :
  hints_kept ps (fst (move_loop id x' y' ps)).
Proof.
  unfold hints_kept. induction ps as [|p rest IH]; cbn [move_loop];
    [constructor|].
  destruct ((piece_id p =? id) && negb (is_placed p)).
  - destruct (is_near_correct_position (set_xy p x' y')); cbn [fst];
      (constructor; [auto | apply hints_kept_refl]).
  - destruct (move_loop id x' y' rest) as [rest' o]. cbn [fst] in *.
    constructor; auto.
Qed.

Lemma reveal_kth_hints_kept (k : nat) (ps : list PuzzlePiece) :
  hints_kept ps (reveal_kth k ps).
Proof.
  unfold hints_kept. revert k.
  induction ps as [|p rest IH]; intros k; cbn [reveal_kth]; [constructor|].
  destruct (hint_eligible p); [destruct k|]; constructor; auto;
    apply hints_kept_refl.
Qed.

Lemma step_hints_kept (e : Env) (r : Request) (w : World) (g : Game) :
  game w = Some g -> stays_in_level r = true ->
  exists g', game (run e r w) = Some g' /\ hints_kept (pieces g) (pieces g').
Proof.
  intros Hg Hr. destruct w as [og s]. cbn [game] in Hg. subst og.
  unfold run. destruct r as [|pid px py| | |]; try discriminate; cbn [handle].
  - unfold route_game_state. rewrite respond_world. cbn [game].
    exists g. split; [reflexivity | apply hints_kept_refl].
  - unfold route_move_piece. cbn [game session].
    destruct pid as [id|], px as [x'|], py as [y'|];
      try (exists g; split; [reflexivity | apply hints_kept_refl]).
    pose proof (move_loop_hints_kept id x' y' (pieces g)) as K.
    destruct (move_loop id x' y' (pieces g)) as [ps o]. cbn [fst] in K.
    destruct o; try (rewrite respond_world; eexists; split; [reflexivity|exact K]).
    destruct (forallb is_placed (pieces (set_pieces g ps))).
    + unfold complete_level.
      destruct (calculate_level_score (set_pieces g ps) (time_now e)).
      * rewrite respond_world. eexists; split; [reflexivity|exact K].
      * eexists; split; [reflexivity|exact K].
    + rewrite respond_world; eexists; split; [reflexivity|exact K].
  - unfold route_use_hint, use_hint. cbn [game session].
    destruct (can_use_hint g (dt_check e)); cbn [negb].
    + destruct (filter hint_eligible (pieces g)) as [|p0 l].
      * rewrite respond_world. exists g. split; [reflexivity | apply hints_kept_refl].
      * rewrite respond_world. eexists. split; [reflexivity|].
        apply reveal_kth_hints_kept.
    + rewrite respond_world. exists g. split; [reflexivity | apply hints_kept_refl].
Qed.

(** X20: within a level a hint flag, once set, stays set: no move, hint
    or state read clears [hint_revealed], also after the piece has been
    placed. *)
Theorem hint_flags_stay (reqs : list (Env * Request)) (w : World) (g : Game) :
  game w = Some g ->
  Forall (fun er => stays_in_level (snd er) = true) reqs ->
  exists g', game (run_all reqs w) = Some g' /\
             hints_kept (pieces g) (pieces g').
Proof.
  revert w g. induction reqs as [|[e r] rest IH]; intros w g Hg F.
  - exists g. split; [exact Hg | apply hints_kept_refl].
  - inversion F as [|? ? Hr Hrest]; subst. cbn [snd] in Hr.
    destruct (step_hints_kept e r w g Hg Hr) as [g1 [Hg1 K1]].
    destruct (IH (run e r w) g1 Hg1 Hrest) as [g2 [Hg2 K2]].
    exists g2. split; [exact Hg2 | now apply hints_kept_trans with (pieces g1)].
Qed.

Lemma hint_flags_stay_witness :
  exists g',
    game (run_all (solve_requests (the_game (run (env_at 1500 0) UseHint started_world)))
                  (run (env_at 1500 0) UseHint started_world)) = Some g' /\
    hints_kept (pieces (the_game (run (env_at 1500 0) UseHint started_world)))
               (pieces g').
Proof.
  apply (hint_flags_stay
           (solve_requests (the_game (run (env_at 1500 0) UseHint started_world)))
           (run (env_at 1500 0) UseHint started_world)
           (the_game (run (env_at 1500 0) UseHint started_world))).
  - vm_compute. reflexivity.
  - unfold solve_requests. apply Forall_map, Forall_forall.
    intros p _. reflexivity.
Defined.

(** * Completion on the desktop *)

Lemma all_placed_map (ps qs : list PuzzlePiece) :
  map is_placed qs = map is_placed ps -> all_placed qs = all_placed ps.
Proof.
  intros H. destruct ps as [|p ps], qs as [|q qs]; try discriminate;
    [reflexivity|].
  unfold all_placed. now apply forallb_map_is_placed.
Qed.

Lemma all_placed_unplaced (ps : list PuzzlePiece) (p : PuzzlePiece) :
  In p ps -> is_placed p = false -> all_placed ps = false.
Proof.
  intros Hin Hu. destruct ps as [|q ps]; [contradiction|].
  unfold all_placed. apply not_true_iff_false. intros H.
  rewrite forallb_forall in H. specialize (H p Hin). congruence.
Qed.

Lemma all_placed_split (l1 l2 : list PuzzlePiece) (a : PuzzlePiece) :
  all_placed (l1 ++ a :: l2) = is_placed a && forallb is_placed (l1 ++ l2) /\
  forallb is_placed (l1 ++ a :: l2)
  = is_placed a && forallb is_placed (l1 ++ l2).
Proof.
  assert (E : forallb is_placed (l1 ++ a :: l2)
              = is_placed a && forallb is_placed (l1 ++ l2)).
  { rewrite !forallb_app. cbn [forallb].
    destruct (is_placed a), (forallb is_placed l1), (forallb is_placed l2);
      reflexivity. }
  split; [|exact E]. rewrite <- E. destruct l1; reflexivity.
Qed.

Lemma replace_nth_all_placed (ps : list PuzzlePiece) (i : nat) (p a : PuzzlePiece) :
  nth_error ps i = Some p ->
  all_placed (replace_nth i a ps)
  = is_placed a && forallb is_placed (remove_nth i ps) /\
  forallb is_placed (replace_nth i a ps)
  = is_placed a && forallb is_placed (remove_nth i ps).
Proof.
  intros Hn. destruct (split_nth ps i p Hn) as [l1 [l2 [_ [_ [H3 H4]]]]].
  rewrite H3, H4. apply all_placed_split.
Qed.

Lemma game_inv_level (g : Game) (sel : Selection) (ox oy : Z) :
  game_inv g -> (forall q, sel <> Detached q) ->
  desktop_level_inv (mkPuzzle g sel ox oy).
Proof.
  intros [Hl [_ [Hc Hn]]] Hs. unfold desktop_level_inv. cbn [core selected_piece].
  split; [|split; [intros _; exact Hl | exact Hs]].
  rewrite Hc. destruct (pieces g); [congruence | reflexivity].
Qed.

Lemma complete_game_inv (d : JigsawPuzzle) :
  desktop_inv d -> desktop_level_inv d -> puzzle_complete (core d) = true ->
  game_inv (core d) /\ selected_piece d = Unselected.
Proof.
  intros [F Hs] [Hc [Hl Hd]] Hpc.
  assert (Hne : pieces (core d) <> []).
  { intros E. rewrite E in Hc. cbn [all_placed] in Hc. congruence. }
  split.
  - split; [now apply Hl|]. split; [exact F|]. split; [|exact Hne].
    rewrite Hc. destruct (pieces (core d)); [congruence | reflexivity].
  - destruct (selected_piece d) as [|i|q] eqn:E; [reflexivity| |].
    + destruct (Hs i E) as [p [Hp Hu]].
      rewrite (all_placed_unplaced _ p (nth_error_In _ _ Hp) Hu) in Hc.
      congruence.
    + now destruct (Hd q).
Qed.

Lemma advance_or_restart_level (e : Env) (d : JigsawPuzzle) :
  desktop_inv d -> desktop_level_inv d -> puzzle_complete (core d) = true ->
  desktop_level_inv (advance_or_restart e d).
Proof.
  intros Hd Hl Hpc. destruct (complete_game_inv d Hd Hl Hpc) as [Hg Hsel].
  assert (R : forall loaded, game_inv (snd loaded) ->
                             desktop_level_inv (reload d loaded)).
  { intros [ok g] Hg'. unfold reload. rewrite Hsel. cbn [snd] in Hg'.
    apply game_inv_level; [exact Hg'|].
    intros q. destruct ok; cbn [detach]; discriminate. }
  unfold advance_or_restart.
  destruct (current_level (core d) <? List.length levels - 1)%nat.
  - apply R. now apply next_level_inv.
  - apply R. apply load_level_inv; [|reflexivity].
    cbn [current_level set_current_level]. vm_compute. lia.
Qed.

Lemma use_hint_level (g : Game) (s : Session) (now_check now_stamp : Z)
      (choice : nat) :
  let g' := snd (fst (use_hint g s now_check now_stamp choice)) in
  puzzle_complete g' = puzzle_complete g /\
  current_level g' = current_level g /\
  map is_placed (pieces g') = map is_placed (pieces g).
Proof.
  unfold use_hint. destruct (can_use_hint g now_check); cbn [negb].
  - destruct (filter hint_eligible (pieces g)) as [|p0 l]; cbn [fst snd].
    + repeat split.
    + cbn [puzzle_complete current_level pieces set_pieces set_hints_used
           set_last_hint_time].
      repeat split. apply reveal_kth_is_placed.
  - repeat split.
Qed.

Lemma desktop_use_hint_level (e : Env) (d : JigsawPuzzle) :
  desktop_level_inv d -> desktop_level_inv (desktop_use_hint e d).
Proof.
  intros [Hc [Hl Hd]].
  destruct (use_hint_level (core d) empty_session (dt_check e) (dt_stamp e)
                           (hint_choice e)) as [E1 [E2 E3]].
  unfold desktop_use_hint, desktop_level_inv, set_core.
  cbn [core selected_piece]. rewrite E1, E2, (all_placed_map _ _ E3).
  split; [exact Hc|]. split; [|exact Hd].
  intros Hne. apply Hl. intros E. rewrite E in E3.
  destruct (pieces (snd (fst (use_hint (core d) empty_session (dt_check e)
                                       (dt_stamp e) (hint_choice e)))));
    [congruence | discriminate].
Qed.

Lemma handle_mouse_down_level (e : Env) (pos : Z * Z) (d : JigsawPuzzle) :
  desktop_inv d -> desktop_level_inv d ->
  desktop_level_inv (handle_mouse_down e pos d).
Proof.
  intros Hd Hl. unfold handle_mouse_down.
  destruct (puzzle_complete (core d)) eqn:Hpc; cbn [andb].
  - destruct (collidepoint next_button_rect pos);
      [now apply advance_or_restart_level|].
    destruct (collidepoint hint_button_rect pos);
      [now apply desktop_use_hint_level|].
    destruct (top_piece_at pos (pieces (core d))) as [i|] eqn:T; [|exact Hl].
    destruct (nth_error (pieces (core d)) i) as [p|] eqn:Hp; [|exact Hl].
    pose proof (top_piece_at_unplaced pos _ i p T Hp) as Hu.
    destruct Hl as [Hc _].
    rewrite (all_placed_unplaced _ p (nth_error_In _ _ Hp) Hu) in Hc.
    congruence.
  - destruct (collidepoint hint_button_rect pos);
      [now apply desktop_use_hint_level|].
    destruct (top_piece_at pos (pieces (core d))) as [i|] eqn:T; [|exact Hl].
    destruct (nth_error (pieces (core d)) i) as [p|] eqn:Hp; [|exact Hl].
    pose proof (top_piece_at_unplaced pos _ i p T Hp) as Hu.
    destruct Hl as [Hc [Hlv _]]. unfold desktop_level_inv.
    cbn [core selected_piece pieces set_pieces puzzle_complete current_level].
    split; [|split; [|intros q; discriminate]].
    + rewrite Hpc. symmetry.
      apply all_placed_unplaced with (p := set_dragging p true); [|exact Hu].
      apply in_or_app. right. now left.
    + intros _. apply Hlv. intros E. rewrite E in Hp. destruct i; discriminate.
Qed.

Lemma handle_mouse_motion_level (pos : Z * Z) (d : JigsawPuzzle) :
  desktop_inv d -> desktop_level_inv d ->
  desktop_level_inv (handle_mouse_motion pos d).
Proof.
  intros [F Hs] Hl. destruct d as [g sel ox oy].
  unfold selection_ok in Hs. cbn [core selected_piece] in *.
  unfold handle_mouse_motion, selected_object. cbn [core selected_piece].
  destruct sel as [|i|q]; [exact Hl| |].
  - destruct (Hs i eq_refl) as [p [Hp Hu]]. rewrite Hp.
    destruct (dragging p); [|exact Hl].
    destruct Hl as [Hc [Hlv Hd]]. cbn [core selected_piece] in *.
    unfold write_selected, desktop_level_inv.
    cbn [core selected_piece mouse_offset_x mouse_offset_y pieces set_pieces
         puzzle_complete current_level].
    split; [|split; [|exact Hd]].
    + rewrite Hc, (all_placed_unplaced _ p (nth_error_In _ _ Hp) Hu).
      symmetry.
      apply all_placed_unplaced with (p := set_xy p (fst pos - ox) (snd pos - oy));
        [|exact Hu].
      apply nth_error_In with (n := i). now apply replace_nth_nth with (p := p).
    + intros _. apply Hlv. intros E. rewrite E in Hp. destruct i; discriminate.
  - destruct Hl as [_ [_ Hd]]. now destruct (Hd q).
Qed.

Lemma handle_mouse_up_level (e : Env) (pos : Z * Z) (d : JigsawPuzzle) :
  desktop_inv d -> desktop_level_inv d ->
  exists d', handle_mouse_up e pos d = Ok d' /\ desktop_level_inv d'.
Proof.
  intros [F Hs] Hl. destruct d as [g sel ox oy].
  unfold selection_ok in Hs. cbn [core selected_piece] in *.
  unfold handle_mouse_up, selected_object. cbn [core selected_piece].
  destruct sel as [|i|q]; [now exists (mkPuzzle g Unselected ox oy)| |].
  - destruct (Hs i eq_refl) as [p [Hp Hu]]. rewrite Hp.
    destruct Hl as [Hc [Hlv _]]. cbn [core selected_piece] in *.
    assert (Hne : pieces g <> [])
      by (intros E; rewrite E in Hp; destruct i; discriminate).
    specialize (Hlv Hne).
    rewrite (all_placed_unplaced _ p (nth_error_In _ _ Hp) Hu) in Hc.
    assert (Hdone : forall a g',
               pieces g' = replace_nth i a (pieces g) ->
               current_level g' = current_level g ->
               puzzle_complete g'
               = is_placed a && forallb is_placed (remove_nth i (pieces g)) ->
               desktop_level_inv (mkPuzzle g' Unselected ox oy)).
    { intros a g' Hg' Hlev Hpc. unfold desktop_level_inv.
      cbn [core selected_piece]. rewrite Hg', Hlev, Hpc.
      split; [|split; [intros _; exact Hlv | intros q; discriminate]].
      symmetry. now apply (replace_nth_all_placed (pieces g) i p a). }
    destruct (is_near_correct_position p).
    + unfold write_selected.
      cbn [core selected_piece mouse_offset_x mouse_offset_y pieces set_pieces].
      set (p1 := set_is_placed (set_xy p (correct_x p) (correct_y p)) true) in *.
      assert (Hp1 : nth_error (replace_nth i p1 (pieces g)) i = Some p1)
        by now apply replace_nth_nth with (p := p).
      destruct (replace_nth_all_placed (pieces g) i p p1 Hp) as [_ Efa].
      change (is_placed p1) with true in Efa. cbn [andb] in Efa.
      destruct (forallb is_placed (replace_nth i p1 (pieces g))) eqn:Eall.
      * unfold desktop_complete_level.
        destruct (calculate_level_score_ok
                    (set_pieces g (replace_nth i p1 (pieces g))) (time_now e) Hlv)
          as [score Hscore].
        rewrite Hscore. eexists. split; [reflexivity|].
        unfold set_core.
        cbn [core selected_piece mouse_offset_x mouse_offset_y].
        rewrite release_selected with (a := p1) by exact Hp1.
        apply Hdone with (a := set_dragging p1 false).
        -- cbn [pieces set_pieces set_puzzle_complete set_total_score].
           now apply replace_nth_twice with (p := p).
        -- reflexivity.
        -- cbn [puzzle_complete set_puzzle_complete set_total_score set_pieces].
           rewrite <- Efa. reflexivity.
      * eexists. split; [reflexivity|].
        rewrite release_selected with (a := p1) by exact Hp1.
        apply Hdone with (a := set_dragging p1 false).
        -- cbn [pieces set_pieces]. now apply replace_nth_twice with (p := p).
        -- reflexivity.
        -- cbn [puzzle_complete set_pieces]. rewrite <- Efa, Hc. reflexivity.
    + eexists. split; [reflexivity|].
      rewrite release_selected with (a := p) by exact Hp.
      apply Hdone with (a := set_dragging p false); [reflexivity..|].
      cbn [puzzle_complete set_pieces]. rewrite Hc.
      change (is_placed (set_dragging p false)) with (is_placed p).
      now rewrite Hu.
  - destruct Hl as [_ [_ Hd]]. now destruct (Hd q).
Qed.

Lemma dispatch_level (e : Env) (ev : Event) (d : JigsawPuzzle) :
  desktop_inv d -> desktop_level_inv d ->
  exists d', dispatch e ev d = Ok d' /\ desktop_level_inv d'.
Proof.
  intros Hd Hl. destruct ev as [pos|pos|pos| |]; cbn [dispatch].
  - eexists. split; [reflexivity | now apply handle_mouse_down_level].
  - now apply handle_mouse_up_level.
  - eexists. split; [reflexivity | now apply handle_mouse_motion_level].
  - eexists. split; [reflexivity | now apply desktop_use_hint_level].
  - destruct (puzzle_complete (core d)) eqn:Hpc; eexists;
      (split; [reflexivity|]); [now apply advance_or_restart_level | exact Hl].
Qed.

Lemma desktop_start_level (saved : Session) (e : Env) :
  desktop_level_inv (desktop_start saved e).
Proof.
  unfold desktop_start, new_game.
  set (g1 := load_progress _ saved).
  destruct (nth_error levels (current_level g1)) as [level|] eqn:E.
  - apply game_inv_level; [|intros q; discriminate].
    apply load_level_inv; [|reflexivity].
    apply nth_error_Some. congruence.
  - rewrite (load_level_out_of_range g1 _ _ _ E). cbn [snd].
    unfold desktop_level_inv. cbn [core selected_piece].
    split; [reflexivity|]. split; [|intros q; discriminate].
    intros H. now destruct H.
Qed.

Lemma desktop_reachable_level (d : JigsawPuzzle) :
  desktop_reachable d -> desktop_level_inv d.
Proof.
  induction 1 as [saved e|d d' e ev Hr IH H].
  - apply desktop_start_level.
  - destruct (dispatch_level e ev d (desktop_reachable_inv d Hr) IH)
      as [d1 [H1 Hl]].
    rewrite H1 in H. now rewrite <- (Ok_inj _ _ H).
Qed.

(** X21: in every state the desktop game reaches, [puzzle_complete] is set
    exactly when the board has pieces and all of them are placed; and
    then no piece is selected and the level is one of the list. *)
Theorem desktop_completion_invariant (d : JigsawPuzzle) :
  desktop_reachable d ->
  (puzzle_complete (core d) = true <->
   pieces (core d) <> [] /\
   Forall (fun p => is_placed p = true) (pieces (core d))) /\
  (puzzle_complete (core d) = true ->
   selected_piece d = Unselected /\
   (current_level (core d) < List.length levels)%nat).
Proof.
  intros Hr. pose proof (desktop_reachable_inv d Hr) as Hd.
  pose proof (desktop_reachable_level d Hr) as Hl. split.
  - destruct Hl as [Hc _]. rewrite Hc.
    destruct (pieces (core d)) as [|p ps]; cbn [all_placed].
    + split; [discriminate | intros [H _]; congruence].
    + rewrite forallb_forall, Forall_forall. split.
      * intros H. split; [discriminate | exact H].
      * intros [_ H]. exact H.
  - intros Hpc. destruct (complete_game_inv d Hd Hl Hpc) as [[Hlev _] Hsel].
    now split.
Qed.

Lemma desktop_completion_invariant_witness :
  (puzzle_complete (core desktop_solved) = true <->
   pieces (core desktop_solved) <> [] /\
   Forall (fun p => is_placed p = true) (pieces (core desktop_solved))) /\
  (puzzle_complete (core desktop_solved) = true ->
   selected_piece desktop_solved = Unselected /\
   (current_level (core desktop_solved) < List.length levels)%nat).
Proof.
  apply (desktop_completion_invariant desktop_solved).
  apply play_reachable, desktop_reachable_start.
Defined.

Example desktop_last_drag_completes :
  puzzle_complete (core desktop_solved) = true /\
  total_score (core desktop_solved) = 149 /\
  puzzle_complete
    (core (play (firstn 15 desktop_solve) desktop_started)) = false.
Proof. vm_compute. repeat split. Qed.

(** X22: in every state the desktop game reaches, no mouse or key handler
    of [run] raises, whatever the event, and the selected piece is always
    a piece of the board that is not placed: a level is never loaded
    while a piece is held. *)
Theorem desktop_events_never_raise (d : JigsawPuzzle) (e : Env) (ev : Event) :
  desktop_reachable d ->
  (exists d', dispatch e ev d = Ok d') /\
  (selected_piece d = Unselected \/
   exists i p, selected_piece d = Selected i /\
               nth_error (pieces (core d)) i = Some p /\
               is_placed p = false).
Proof.
  intros Hr. pose proof (desktop_reachable_inv d Hr) as Hd.
  pose proof (desktop_reachable_level d Hr) as Hl. split.
  - destruct (dispatch_level e ev d Hd Hl) as [d' [H _]]. now exists d'.
  - destruct Hd as [_ Hs]. destruct Hl as [_ [_ Hdet]].
    destruct (selected_piece d) as [|i|q] eqn:E.
    + now left.
    + right. destruct (Hs i E) as [p [Hp Hu]]. now exists i, p.
    + now destruct (Hdet q).
Qed.

Lemma desktop_events_never_raise_witness :
  (exists d', dispatch (env_at 1012 3) (MouseButtonUp (600, 110))
                       (play (firstn 17 desktop_solve) desktop_started)
              = Ok d') /\
  (selected_piece (play (firstn 17 desktop_solve) desktop_started) = Unselected \/
   exists i p,
     selected_piece (play (firstn 17 desktop_solve) desktop_started) = Selected i /\
     nth_error (pieces (core (play (firstn 17 desktop_solve) desktop_started))) i
     = Some p /\
     is_placed p = false).
Proof.
  apply (desktop_events_never_raise
           (play (firstn 17 desktop_solve) desktop_started)
           (env_at 1012 3) (MouseButtonUp (600, 110))).
  apply play_reachable, desktop_reachable_start.
Defined.

(** * The solved board *)

(** X23: when the server reports the puzzle complete, the board shows the
    picture: every piece lies where its section of the picture lies, and
    the section has the size of the piece and is inside the picture. *)
Theorem solved_board_is_the_picture (w : World) (g : Game) (p : PuzzlePiece) :
  reachable w -> game w = Some g -> puzzle_complete g = true ->
  In p (pieces g) -> shows_its_section p.
Proof.
  intros Hw Hg Hpc Hin.
  destruct (reachable_inv w Hw) as [_ Inv].
  destruct (Inv g Hg) as [_ [Hsnap [Hc _]]].
  rewrite Hc, forallb_forall in Hpc.
  rewrite Forall_forall in Hsnap.
  destruct (Hsnap p Hin (Hpc p Hin)) as [Hx Hy].
  destruct (reachable_board w g Hw Hg) as [level [Hl Hm]].
  destruct (In_nth_error _ _ Hin) as [k Hk].
  assert (Hlen : (k < List.length (fresh_pieces level))%nat).
  { apply (f_equal (@List.length _)) in Hm. rewrite !length_map in Hm.
    rewrite <- Hm. apply nth_error_Some. congruence. }
  apply (f_equal (fun l => nth_error l k)) in Hm.
  rewrite !nth_error_map, Hk,
    (fresh_pieces_nth (current_level g) level k Hl Hlen) in Hm.
  cbn [option_map] in Hm.
  pose proof (some_eq_elim (fun t => static_part p = t) _ eq_refl _ Hm) as E.
  rewrite fresh_pieces_length in Hlen.
  pose proof (levels_grid _ level Hl) as [Hcols Hrows].
  pose proof (level_piece_size _ level Hl) as [Hpw Hph].
  set (c := fst (grid_size level)) in *.
  set (rw := snd (grid_size level)) in *.
  set (pw := puzzle_width / c) in *.
  set (ph := puzzle_height / rw) in *.
  unfold static_part, piece_of_cell, new_piece in E.
  cbn [piece_id width height image_section correct_x correct_y rotation
       dragging] in E.
  assert (Ei : image_section p
               = (Z.of_nat k mod c * pw, Z.of_nat k / c * ph,
                  Z.of_nat k mod c * pw + pw, Z.of_nat k / c * ph + ph))
    by congruence.
  assert (Ew : width p = pw) by congruence.
  assert (Eh : height p = ph) by congruence.
  assert (Ecx : correct_x p = puzzle_x + Z.of_nat k mod c * pw) by congruence.
  assert (Ecy : correct_y p = puzzle_y + Z.of_nat k / c * ph) by congruence.
  unfold shows_its_section. rewrite Ei, Hx, Hy, Ecx, Ecy, Ew, Eh.
  assert (Hcol : 0 <= Z.of_nat k mod c < c) by (apply Z.mod_pos_bound; lia).
  assert (Hrow : 0 <= Z.of_nat k / c < rw).
  { split; [apply Z.div_pos; lia|].
    apply Z.div_lt_upper_bound; [lia|]. nia. }
  assert (Hcw : c * pw <= puzzle_width) by (apply Z.mul_div_le; lia).
  assert (Hrh : rw * ph <= puzzle_height) by (apply Z.mul_div_le; lia).
  repeat split; try lia; try nia.
Qed.

Lemma solved_board_is_the_picture_witness :
  shows_its_section
    (mkPiece 250 325 200 225 (200, 225, 400, 450) 250 325 4 true false false 0).
Proof.
  apply (solved_board_is_the_picture hinted_solved_world
           (the_game hinted_solved_world)).
  - apply reachable_hinted_solved.
  - vm_compute. reflexivity.
  - vm_compute. reflexivity.
  - vm_compute. tauto.
Defined.

(** * A granted hint *)

Lemma filter_hint_eligible_revealed (l1 l2 : list PuzzlePiece) (p : PuzzlePiece) :
  hint_eligible p = true ->
  S (List.length (filter hint_eligible (l1 ++ set_hint_revealed p true :: l2)))
  = List.length (filter hint_eligible (l1 ++ p :: l2)).
Proof.
  intros Hp. rewrite !filter_app. cbn [filter]. rewrite Hp.
  replace (hint_eligible (set_hint_revealed p true)) with false by reflexivity.
  rewrite !length_app. cbn [List.length]. lia.
Qed.

(** X24: when the cooldown is over and some piece is neither placed nor
    revealed, [use_hint] flags exactly the piece that [random.choice]
    draws among those pieces and nothing else on the board, adds one to
    the hint counter, stamps the time and saves; one piece fewer is then
    open to a hint. *)
Theorem hint_reveals_chosen_piece (g : Game) (s : Session)
        (now_check now_stamp : Z) (choice : nat) :
  can_use_hint g now_check = true ->
  filter hint_eligible (pieces g) <> [] ->
  exists l1 p l2,
    pieces g = l1 ++ p :: l2 /\
    nth_error (filter hint_eligible (pieces g))
              (choice mod List.length (filter hint_eligible (pieces g)))
    = Some p /\
    is_placed p = false /\ hint_revealed p = false /\
    let g' := set_last_hint_time
                (set_hints_used
                   (set_pieces g (l1 ++ set_hint_revealed p true :: l2))
                   (hints_used g + 1))
                (Some now_stamp) in
    use_hint g s now_check now_stamp choice = (true, g', save_progress g' s) /\
    S (List.length (filter hint_eligible (pieces g')))
    = List.length (filter hint_eligible (pieces g)).
Proof.
  intros Hc Hne.
  destruct (reveal_kth_split
              (choice mod List.length (filter hint_eligible (pieces g)))
              (pieces g)) as [l1 [p [l2 [H1 [H2 [H3 H4]]]]]].
  { apply Nat.mod_upper_bound.
    destruct (filter hint_eligible (pieces g)); [congruence | discriminate]. }
  exists l1, p, l2. split; [exact H1|]. split; [exact H3|].
  pose proof H2 as H2'. unfold hint_eligible in H2'.
  apply andb_prop in H2'. destruct H2' as [Hr Hu].
  apply negb_true_iff in Hr. apply negb_true_iff in Hu.
  split; [exact Hu|]. split; [exact Hr|]. cbv zeta. split.
  - unfold use_hint. rewrite Hc. cbn [negb].
    destruct (filter hint_eligible (pieces g)) as [|p0 l] eqn:F; [congruence|].
    rewrite H4. reflexivity.
  - cbn [pieces set_pieces set_hints_used set_last_hint_time].
    rewrite H1. now apply filter_hint_eligible_revealed.
Qed.

Lemma hint_reveals_chosen_piece_witness :
  exists l1 p l2,
    pieces started_game = l1 ++ p :: l2 /\
    nth_error (filter hint_eligible (pieces started_game))
              (8 mod List.length (filter hint_eligible (pieces started_game)))
    = Some p /\
    is_placed p = false /\ hint_revealed p = false /\
    let g' := set_last_hint_time
                (set_hints_used
                   (set_pieces started_game
                               (l1 ++ set_hint_revealed p true :: l2))
                   (hints_used started_game + 1))
                (Some 77) in
    use_hint started_game empty_session 70 77 8
    = (true, g', save_progress g' empty_session) /\
    S (List.length (filter hint_eligible (pieces g')))
    = List.length (filter hint_eligible (pieces started_game)).
Proof.
  apply (hint_reveals_chosen_piece started_game empty_session 70 77 8).
  - reflexivity.
  - vm_compute. discriminate.
Defined.

Example hint_choice_8_of_6_reveals_piece_2 :
  map hint_revealed
      (pieces (snd (fst (use_hint started_game empty_session 70 77 8))))
  = [false; false; true; false; false; false].
Proof. vm_compute. reflexivity. Qed.
